(** * The contact form controller of clad-website

    A shallow embedding of [src/components/ContactForm.tsx]: the validation
    memo [errors], the gate [showError], the submit handler [handleSubmit]
    with its asynchronous continuation, and the part of the JSX that decides
    which controls exist and which are disabled.

    JavaScript strings are sequences of UTF-16 code units; [String.length]
    counts code units, [String.prototype.trim] strips code units, and a
    regular expression carrying the [u] flag matches code points.  Numbers
    are IEEE 754 doubles: the clock readings are integers, their differences
    are rounded to 53 significant bits.  What [response.json()] resolves
    with is any JSON value, whatever the type the source casts it to. *)

From Stdlib Require Import ZArith NArith Lia DecimalString.
From Stdlib Require SpecFloat.
From stdpp Require Import gmap strings list fin_maps.

Open Scope Z_scope.

(** ** JavaScript strings *)

Module JS.

(** A string value: its UTF-16 code units. *)
Abbreviation jsstring := (list N).

(** A string literal of the source (all literals of the component are
    ASCII, one code unit per character). *)
Definition lit (s : string) : jsstring :=
  map Ascii.N_of_ascii (String.list_ascii_of_string s).

(** [s.length]. *)
Definition length (s : jsstring) : Z := Z.of_nat (List.length s).

(** ToBoolean on a string: the empty string is the only falsy one. *)
Definition truthy (s : jsstring) : bool :=
  match s with [] => false | _ :: _ => true end.

(** WhiteSpace and LineTerminator of ECMA-262: TAB, VT, FF, SP, NBSP,
    ZWNBSP, the category Zs, and LF, CR, LS, PS.  This one set is what
    [trim] strips and what [\s] matches. *)
Definition is_white_space (c : N) : bool :=
  ((c =? 0x09) || (c =? 0x0A) || (c =? 0x0B) || (c =? 0x0C) || (c =? 0x0D)
   || (c =? 0x20) || (c =? 0xA0) || (c =? 0x1680)
   || ((0x2000 <=? c) && (c <=? 0x200A))
   || (c =? 0x2028) || (c =? 0x2029) || (c =? 0x202F) || (c =? 0x205F)
   || (c =? 0x3000) || (c =? 0xFEFF))%N.

Fixpoint trimStart (s : jsstring) : jsstring :=
  match s with
  | [] => []
  | c :: t => if is_white_space c then trimStart t else s
  end.

Definition trimEnd (s : jsstring) : jsstring := rev (trimStart (rev s)).

(** [s.trim()]. *)
Definition trim (s : jsstring) : jsstring := trimEnd (trimStart s).

(** Code points of a string, as a [u]-flagged regular expression sees
    them: a lead surrogate followed by a trail surrogate is one code
    point, every other code unit stands for itself. *)
Definition is_lead (c : N) : bool := ((0xD800 <=? c) && (c <=? 0xDBFF))%N.
Definition is_trail (c : N) : bool := ((0xDC00 <=? c) && (c <=? 0xDFFF))%N.

Fixpoint codePoints (s : jsstring) : list N :=
  match s with
  | [] => []
  | c :: t =>
      match t with
      | d :: rest =>
          if is_lead c && is_trail d
          then (0x10000 + (c - 0xD800) * 0x400 + (d - 0xDC00))%N :: codePoints rest
          else c :: codePoints t
      | [] => [c]
      end
  end.

(** A template literal's rendering of an integral number.  Number::toString
    prints an integer of magnitude below 10^21 in plain decimal. *)
Definition numberToString (z : Z) : jsstring :=
  lit (NilZero.string_of_int (Z.to_int z)).

(** *** Numbers

    A Number is an IEEE 754 double.  A Number that is an integer is kept
    as that integer; every integer of magnitude up to 2^53 is a Number, and
    beyond that only the multiples of a power of two are.  The one Number
    of the component that is no integer, the quotient by 1000, is kept as
    a pair [(m, e)] standing for [m * 2^e].  All operations round to
    nearest, ties to even; the magnitudes that occur are far from the
    overflow threshold 2^1024 and from the subnormal range. *)

(** The least integer not below [a / b], for [b > 0]. *)
Definition ceilDiv (a b : Z) : Z := - ((- a) / b).

(** [n / d] rounded to the nearest integer, a tie to the even one, for
    [d > 0]. *)
Definition nearestEven (n d : Z) : Z :=
  let q := n / d in
  let r := n mod d in
  if 2 * r <? d then q
  else if d <? 2 * r then q + 1
  else if Z.even q then q else q + 1.

(** The Number nearest to the integer [x]: [x] itself below 2^53, else
    the nearest multiple of the unit in the last place of its binade. *)
Definition toNumber (x : Z) : Z :=
  if Z.abs x <? 2 ^ 53 then x
  else let ulp := 2 ^ (Z.log2 (Z.abs x) - 52) in nearestEven x ulp * ulp.

(** [a - b] for integral Numbers [a] and [b]. *)
Definition sub (a b : Z) : Z := toNumber (a - b).

(** [x / d] for integral Numbers [x] and [d > 0]: with [L] the binary
    exponent of the quotient (2^L <= |x| / d < 2^(L+1)), the quotient is
    rounded to a multiple of 2^(L - 52). *)
Definition div (x d : Z) : Z * Z :=
  if x =? 0 then (0, 0) else
  let a := Z.abs x in
  let l := Z.log2 a - Z.log2 d in
  let L := if a * 2 ^ Z.max 0 (- l) <? d * 2 ^ Z.max 0 l then l - 1 else l in
  let e := L - 52 in
  (Z.sgn x * nearestEven (a * 2 ^ Z.max 0 (- e)) (d * 2 ^ Z.max 0 e), e).

(** [Math.ceil(q)] for a Number [q = (m, e)]. *)
Definition ceil (q : Z * Z) : Z :=
  if 0 <=? q.2 then q.1 * 2 ^ q.2 else ceilDiv q.1 (2 ^ (- q.2)).

(** The Number [m * 2^e] in the binary64 format of the Standard Library's
    specification of IEEE 754 arithmetic. *)
Definition binary64 (m e : Z) : SpecFloat.spec_float :=
  SpecFloat.binary_normalize 53 1024 m e false.

(** A time value, what [Date.now()] returns: an integral number of
    milliseconds within 100,000,000 days of the epoch (ECMA-262, Time
    Values and Time Range). *)
Definition isTimeValue (t : Z) : Prop :=
  - 8640000000000000 <= t <= 8640000000000000.

(** *** Values

    The values [JSON.parse] can produce, which are the values
    [response.json()] can resolve with.  The properties of an object are
    listed once each, in order. *)
#[warnings="-register-all"] Inductive value : Type :=
| Null : value
| Boolean : bool -> value
| Number : SpecFloat.spec_float -> value
| Str : jsstring -> value
| Array : list value -> value
| Object : list (jsstring * value) -> value.

(** ToBoolean: [null], [false], zero, NaN and the empty string are falsy,
    every array and every object is truthy. *)
Definition toBoolean (v : value) : bool :=
  match v with
  | Null => false
  | Boolean b => b
  | Number (SpecFloat.S754_zero _) | Number SpecFloat.S754_nan => false
  | Number _ => true
  | Str s => truthy s
  | Array _ | Object _ => true
  end.

(** The property [k] among the properties [props] of an object. *)
Definition property (k : jsstring) (props : list (jsstring * value))
  : option value :=
  snd <$> List.find (fun kv => bool_decide (kv.1 = k)) props.

(** [v.name] for a value [v] that is neither [null] nor [undefined] and a
    name that is not an array index and that no prototype defines: the
    object's own property, [undefined] ([None]) on anything else. *)
Definition member (name : string) (v : value) : option value :=
  match v with
  | Object props => property (lit name) props
  | _ => None
  end.

(** [v[i]] for a value [v] that is neither [null] nor [undefined]: the
    element of an array, the code unit of a string as a string, the
    property of an object whose key is the decimal form of [i]. *)
Definition item (i : nat) (v : value) : option value :=
  match v with
  | Array items => items !! i
  | Str s => (fun c => Str [c]) <$> s !! i
  | Object props => property (numberToString (Z.of_nat i)) props
  | _ => None
  end.

(** [x?.p]: [undefined] when [x] is [undefined] or [null], the access
    otherwise. *)
Definition optional (x : option value) (access : value -> option value)
  : option value :=
  match x with
  | None | Some Null => None
  | Some v => access v
  end.

(** [a || b]: [b] replaces a falsy [a]. *)
Definition orElse (a : option value) (b : value) : value :=
  match a with
  | Some v => if toBoolean v then v else b
  | None => b
  end.

(** [Object.keys(o).length]; the order of the keys plays no role here. *)
Definition keyCount {V} (o : gmap string V) : Z :=
  Z.of_nat (List.length (map_to_list o).*1).

(** *** JSON.stringify on an object literal of string properties

    QuoteJSONString: the seven short escapes, a [\u] escape for the other
    control characters and for lone surrogates, every other code point as
    it is. *)
Definition hexDigit (d : N) : N :=
  (if d <? 10 then 0x30 + d else 0x61 + (d - 10))%N.

Definition unicodeEscape (c : N) : jsstring :=
  [0x5C; 0x75;
   hexDigit (c / 0x1000 mod 16); hexDigit (c / 0x100 mod 16);
   hexDigit (c / 0x10 mod 16); hexDigit (c mod 16)]%N.

Definition encodeCodePoint (cp : N) : jsstring :=
  (if cp <? 0x10000 then [cp]
   else [0xD800 + (cp - 0x10000) / 0x400; 0xDC00 + (cp - 0x10000) mod 0x400])%N.

Definition quoteCodePoint (cp : N) : jsstring :=
  (if cp =? 0x08 then lit "\b"
   else if cp =? 0x09 then lit "\t"
   else if cp =? 0x0A then lit "\n"
   else if cp =? 0x0C then lit "\f"
   else if cp =? 0x0D then lit "\r"
   else if cp =? 0x22 then [0x5C; 0x22]
   else if cp =? 0x5C then [0x5C; 0x5C]
   else if (cp <? 0x20) || is_lead cp || is_trail cp then unicodeEscape cp
   else encodeCodePoint cp)%N.

Definition quoteJSONString (s : jsstring) : jsstring :=
  [0x22%N] ++ concat (map quoteCodePoint (codePoints s)) ++ [0x22%N].

Definition stringifyProperty (kv : string * jsstring) : jsstring :=
  quoteJSONString (lit kv.1) ++ [0x3A%N] ++ quoteJSONString kv.2.

Fixpoint joinComma (l : list jsstring) : jsstring :=
  match l with
  | [] => []
  | [x] => x
  | x :: t => x ++ [0x2C%N] ++ joinComma t
  end.

Definition stringifyObject (props : list (string * jsstring)) : jsstring :=
  [0x7B%N] ++ joinComma (map stringifyProperty props) ++ [0x7D%N].

End JS.

Abbreviation jsstring := JS.jsstring.

(** ** Regular expressions

    The patterns of the component use character classes, literal
    characters, concatenation and the quantifiers [+] and [{n,}].  A pattern
    is matched with Brzozowski derivatives; [Matches] is the language it
    denotes, and [matchAll_spec] relates the two. *)

Module RegExp.

Inductive regex : Type :=
| Void : regex
| Eps : regex
| Class : (N -> bool) -> regex
| Cat : regex -> regex -> regex
| Alt : regex -> regex -> regex
| Star : regex -> regex.

(** A literal character, [r+] and [r{n,}]. *)
Definition Char (c : N) : regex := Class (N.eqb c).
Definition Plus (r : regex) : regex := Cat r (Star r).
Fixpoint AtLeast (n : nat) (r : regex) : regex :=
  match n with
  | O => Star r
  | S k => Cat r (AtLeast k r)
  end.

Inductive Matches : regex -> list N -> Prop :=
| MEps : Matches Eps []
| MClass p c : p c = true -> Matches (Class p) [c]
| MCat r1 r2 s1 s2 :
    Matches r1 s1 -> Matches r2 s2 -> Matches (Cat r1 r2) (s1 ++ s2)
| MAltL r1 r2 s : Matches r1 s -> Matches (Alt r1 r2) s
| MAltR r1 r2 s : Matches r2 s -> Matches (Alt r1 r2) s
| MStarNil r : Matches (Star r) []
| MStarCons r s1 s2 :
    Matches r s1 -> Matches (Star r) s2 -> Matches (Star r) (s1 ++ s2).

Fixpoint nullable (r : regex) : bool :=
  match r with
  | Void => false
  | Eps => true
  | Class _ => false
  | Cat r1 r2 => nullable r1 && nullable r2
  | Alt r1 r2 => nullable r1 || nullable r2
  | Star _ => true
  end.

Fixpoint deriv (c : N) (r : regex) : regex :=
  match r with
  | Void => Void
  | Eps => Void
  | Class p => if p c then Eps else Void
  | Cat r1 r2 =>
      if nullable r1
      then Alt (Cat (deriv c r1) r2) (deriv c r2)
      else Cat (deriv c r1) r2
  | Alt r1 r2 => Alt (deriv c r1) (deriv c r2)
  | Star r1 => Cat (deriv c r1) (Star r1)
  end.

(** Whole-input matching: what [test] computes for a pattern written
    between [^] and [$] without the [m], [g] or [y] flags. *)
Fixpoint matchAll (r : regex) (s : list N) : bool :=
  match s with
  | [] => nullable r
  | c :: t => matchAll (deriv c r) t
  end.

(** [re.test(s)] for an anchored, [u]-flagged pattern [re]. *)
Definition test (r : regex) (s : jsstring) : bool :=
  matchAll r (JS.codePoints s).

End RegExp.

(** ** The component's types and constants *)

Inductive FormStatus : Type := idle | submitting | success | error.

#[global] Instance FormStatus_eq_dec : EqDecision FormStatus.
Proof. solve_decision. Defined.

(** [interface FormspreeErrorResponse { errors?: Array<{ message: string }> }]

    The interface describes the bodies the component expects; the cast
    [as FormspreeErrorResponse] checks nothing, so a body need not have this
    type.  [toJSON] gives the value of a body that has it. *)
Module Formspree.
Record ErrorItem : Type := { message : jsstring }.
Record ErrorResponse : Type := { errors : option (list ErrorItem) }.

Definition itemToJSON (e : ErrorItem) : JS.value :=
  JS.Object [(JS.lit "message", JS.Str (message e))].

Definition toJSON (d : ErrorResponse) : JS.value :=
  JS.Object
    match errors d with
    | Some l => [(JS.lit "errors", JS.Array (map itemToJSON l))]
    | None => []
    end.
End Formspree.

(** [VALIDATION_RULES] *)
Definition MIN_NAME_LENGTH : Z := 2.
Definition MIN_ORGANIZATION_LENGTH : Z := 2.
Definition MIN_MESSAGE_LENGTH : Z := 10.
Definition RATE_LIMIT_COOLDOWN_MS : Z := 3000.

(** The character class [[^\s@]]. *)
Definition notSpaceNorAt (c : N) : bool :=
  negb (JS.is_white_space c || (c =? 0x40)%N).

(** [/^[^\s@]+@[^\s@]+\.[^\s@]{2,}$/u] *)
Definition emailRegex : RegExp.regex :=
  RegExp.Cat (RegExp.Plus (RegExp.Class notSpaceNorAt))
    (RegExp.Cat (RegExp.Char 0x40)
       (RegExp.Cat (RegExp.Plus (RegExp.Class notSpaceNorAt))
          (RegExp.Cat (RegExp.Char 0x2E)
             (RegExp.AtLeast 2 (RegExp.Class notSpaceNorAt))))).

Definition validateEmail (email : jsstring) : bool :=
  RegExp.test emailRegex email.

(** The signals of one mounted component.  [errorMessage] is declared to
    hold a string; it holds whatever [setErrorMessage] was given. *)
Record signals : Type := {
  status : FormStatus;
  errorMessage : JS.value;
  touched : gmap string bool;
  lastSubmitTime : Z;
  name : jsstring;
  email : jsstring;
  organization : jsstring;
  role : jsstring;
  message : jsstring
}.

(** The values [createSignal] is given at mount. *)
Definition mount : signals := {|
  status := idle;
  errorMessage := JS.Str [];
  touched := ∅;
  lastSubmitTime := 0;
  name := [];
  email := [];
  organization := [];
  role := [];
  message := []
|}.

(** ** Validation *)

(** [interface FieldErrors]: an object with an optional text under each of
    the keys name, email, organization and message. *)
Abbreviation FieldErrors := (gmap string jsstring).

(** The memo [errors]: a key is present when the field has an error. *)
Definition errors (s : signals) : FieldErrors :=
  let errs : FieldErrors := ∅ in
  let errs :=
    if negb (JS.truthy (JS.trim (name s))) then
      <["name" := JS.lit "Name is required"]> errs
    else if JS.length (JS.trim (name s)) <? MIN_NAME_LENGTH then
      <["name" := JS.lit "Name must be at least "
                  ++ JS.numberToString MIN_NAME_LENGTH
                  ++ JS.lit " characters"]> errs
    else errs in
  let errs :=
    if negb (JS.truthy (JS.trim (email s))) then
      <["email" := JS.lit "Email is required"]> errs
    else if negb (validateEmail (JS.trim (email s))) then
      <["email" := JS.lit "Please enter a valid email address"]> errs
    else errs in
  let errs :=
    if JS.truthy (JS.trim (organization s))
       && (JS.length (JS.trim (organization s)) <? MIN_ORGANIZATION_LENGTH) then
      <["organization" := JS.lit "Organization must be at least "
                          ++ JS.numberToString MIN_ORGANIZATION_LENGTH
                          ++ JS.lit " characters"]> errs
    else errs in
  let errs :=
    if negb (JS.truthy (JS.trim (message s))) then
      <["message" := JS.lit "Message is required"]> errs
    else if JS.length (JS.trim (message s)) <? MIN_MESSAGE_LENGTH then
      <["message" := JS.lit "Message must be at least "
                     ++ JS.numberToString MIN_MESSAGE_LENGTH
                     ++ JS.lit " characters"]> errs
    else errs in
  errs.

Definition isValid (s : signals) : bool :=
  JS.keyCount (errors s) =? 0.

(** [touched()[field] ? errors()[field] : undefined] *)
Definition showError (s : signals) (field : string) : option jsstring :=
  match touched s !! field with
  | Some true => errors s !! field
  | _ => None
  end.

(** ** Handlers

    A handler is a computation over the signals that completes normally or
    throws; what it wrote before throwing stays written. *)

Inductive completion (A : Type) : Type :=
| Normal : A -> completion A
| Throw : completion A.
Arguments Normal {A} _.
Arguments Throw {A}.

Definition M (A : Type) : Type := signals -> completion A * signals.

Definition ret {A} (a : A) : M A := fun s => (Normal a, s).

Definition bind {A B} (m : M A) (k : A -> M B) : M B :=
  fun s =>
    match m s with
    | (Normal a, s') => k a s'
    | (Throw, s') => (Throw, s')
    end.

Definition throw {A} : M A := fun s => (Throw, s).

(** [try { body } catch (error) { handler }] *)
Definition tryCatch {A} (body handler : M A) : M A :=
  fun s =>
    match body s with
    | (Normal a, s') => (Normal a, s')
    | (Throw, s') => handler s'
    end.

(** Reading a signal or a memo. *)
Definition read {A} (f : signals -> A) : M A := fun s => (Normal (f s), s).

Notation "x <- m ;; k" := (bind m (fun x => k))
  (at level 100, m at next level, right associativity).
Notation "m ;; k" := (bind m (fun _ => k))
  (at level 100, right associativity).

(** The setters. *)
Definition setStatus (v : FormStatus) : M unit := fun s =>
  (Normal tt,
   {| status := v; errorMessage := errorMessage s; touched := touched s;
      lastSubmitTime := lastSubmitTime s; name := name s; email := email s;
      organization := organization s; role := role s; message := message s |}).

Definition setErrorMessage (v : JS.value) : M unit := fun s =>
  (Normal tt,
   {| status := status s; errorMessage := v; touched := touched s;
      lastSubmitTime := lastSubmitTime s; name := name s; email := email s;
      organization := organization s; role := role s; message := message s |}).

(** [setTouched] takes the new value or a function of the previous one. *)
Definition setTouched (f : gmap string bool -> gmap string bool) : M unit := fun s =>
  (Normal tt,
   {| status := status s; errorMessage := errorMessage s; touched := f (touched s);
      lastSubmitTime := lastSubmitTime s; name := name s; email := email s;
      organization := organization s; role := role s; message := message s |}).

Definition setLastSubmitTime (v : Z) : M unit := fun s =>
  (Normal tt,
   {| status := status s; errorMessage := errorMessage s; touched := touched s;
      lastSubmitTime := v; name := name s; email := email s;
      organization := organization s; role := role s; message := message s |}).

Definition setName (v : jsstring) : M unit := fun s =>
  (Normal tt,
   {| status := status s; errorMessage := errorMessage s; touched := touched s;
      lastSubmitTime := lastSubmitTime s; name := v; email := email s;
      organization := organization s; role := role s; message := message s |}).

Definition setEmail (v : jsstring) : M unit := fun s =>
  (Normal tt,
   {| status := status s; errorMessage := errorMessage s; touched := touched s;
      lastSubmitTime := lastSubmitTime s; name := name s; email := v;
      organization := organization s; role := role s; message := message s |}).

Definition setOrganization (v : jsstring) : M unit := fun s =>
  (Normal tt,
   {| status := status s; errorMessage := errorMessage s; touched := touched s;
      lastSubmitTime := lastSubmitTime s; name := name s; email := email s;
      organization := v; role := role s; message := message s |}).

Definition setRole (v : jsstring) : M unit := fun s =>
  (Normal tt,
   {| status := status s; errorMessage := errorMessage s; touched := touched s;
      lastSubmitTime := lastSubmitTime s; name := name s; email := email s;
      organization := organization s; role := v; message := message s |}).

Definition setMessage (v : jsstring) : M unit := fun s =>
  (Normal tt,
   {| status := status s; errorMessage := errorMessage s; touched := touched s;
      lastSubmitTime := lastSubmitTime s; name := name s; email := email s;
      organization := organization s; role := role s; message := v |}).

(** [setTouched((prev) => ({ ...prev, [field]: true }))] *)
Definition markTouched (field : string) : M unit :=
  setTouched (fun prev => <[field := true]> prev).

(** *** The network *)

(** The arguments of one [fetch] call. *)
Record Request : Type := {
  url : jsstring;
  method : string;
  headers : list (string * string);
  body : jsstring
}.

(** How a promise settles. *)
Inductive settled (A : Type) : Type :=
| Fulfilled : A -> settled A
| Rejected : settled A.
Arguments Fulfilled {A} _.
Arguments Rejected {A}.

(** [await p]: the value of a fulfilled promise; a rejected one throws. *)
Definition await {A} (p : settled A) : M A :=
  match p with
  | Fulfilled a => ret a
  | Rejected => throw
  end.

(** What the component reads of a [Response]: its status code, behind
    [response.ok], and the promise of [response.json()], fulfilled with the
    parsed body or rejected when the body is not JSON. *)
Record Response : Type := {
  statusCode : Z;
  json : settled JS.value
}.

(** [response.ok], by the Fetch standard: a status from 200 to 299. *)
Definition ok (r : Response) : bool :=
  (200 <=? statusCode r) && (statusCode r <=? 299).

(** [data?.errors?.[0]?.message] *)
Definition firstErrorMessage (data : JS.value) : option JS.value :=
  JS.optional
    (JS.optional
       (JS.optional (Some data) (JS.member "errors"))
       (JS.item 0))
    (JS.member "message").

Section Handlers.

(** [import.meta.env.PUBLIC_FORMSPREE_ENDPOINT]: a string fixed at build
    time, or [undefined]. *)
Variable PUBLIC_FORMSPREE_ENDPOINT : option jsstring.

(** [handleSubmit] from the submit event to line 109: the touched set,
    the validity check, the cooldown check and the three writes that start
    an attempt.  [now] is what [Date.now()] returns; the result tells
    whether the run goes on to line 111 or has returned. *)
Definition handleSubmit_enter (now : Z) : M bool :=
  setTouched (fun _ => {[ "name" := true; "email" := true;
                          "organization" := true; "message" := true ]}) ;;
  valid <- read isValid ;;
  if negb valid then ret false else
  last <- read lastSubmitTime ;;
  let timeSinceLastSubmit := JS.sub now last in
  if timeSinceLastSubmit <? RATE_LIMIT_COOLDOWN_MS then
    let remainingSeconds :=
      JS.ceil (JS.div (JS.sub RATE_LIMIT_COOLDOWN_MS timeSinceLastSubmit) 1000) in
    setErrorMessage
      (JS.Str (JS.lit "Please wait " ++ JS.numberToString remainingSeconds
               ++ JS.lit " seconds before submitting again.")) ;;
    setStatus error ;;
    ret false
  else
  setStatus submitting ;;
  setErrorMessage (JS.Str []) ;;
  setLastSubmitTime now ;;
  ret true.

(** [handleSubmit] from line 111 to its first [await] (or to its end):
    the endpoint check and the [fetch] call.  The result is the call the
    handler is suspended on, if it made one. *)
Definition handleSubmit_send : M (option Request) :=
  match PUBLIC_FORMSPREE_ENDPOINT with
  | None | Some [] =>
      setErrorMessage
        (JS.Str (JS.lit "Form configuration error. Please contact support.")) ;;
      setStatus error ;;
      ret None
  | Some formspreeEndpoint =>
      name_ <- read name ;;
      email_ <- read email ;;
      organization_ <- read organization ;;
      role_ <- read role ;;
      message_ <- read message ;;
      ret (Some {|
        url := formspreeEndpoint;
        method := "POST";
        headers := [("Content-Type", "application/json");
                    ("Accept", "application/json")];
        body := JS.stringifyObject
                  [("name", JS.trim name_);
                   ("email", JS.trim email_);
                   ("organization", JS.trim organization_);
                   ("role", role_);
                   ("message", JS.trim message_)]
      |})
  end.

(** [handleSubmit], from the submit event to its first [await] (or to its
    end). *)
Definition handleSubmit (now : Z) : M (option Request) :=
  entered <- handleSubmit_enter now ;;
  if entered then handleSubmit_send else ret None.

(** The rest of [handleSubmit], run when the promise of [fetch] settles.
    For a response that is not [ok] the handler awaits [response.json()] as
    well; no handler of the component can run between the two awaits that
    writes a signal read here, so both are taken in one step. *)
Definition handleSubmit_resume (fetched : settled Response) : M unit :=
  tryCatch
    (response <- await fetched ;;
     if ok response then
       setStatus success ;;
       setName [] ;;
       setEmail [] ;;
       setOrganization [] ;;
       setRole [] ;;
       setMessage [] ;;
       setTouched (fun _ => ∅)
     else
       data <- await (json response) ;;
       setErrorMessage
         (JS.orElse (firstErrorMessage data)
                    (JS.Str (JS.lit "Something went wrong. Please try again."))) ;;
       setStatus error)
    (setErrorMessage
       (JS.Str (JS.lit "Network error. Please check your connection and try again.")) ;;
     setStatus error).

End Handlers.

(** ** What is rendered

    The part of the JSX that decides what the user can see and do: which
    of the two panels exists, the [disabled] attribute of each control, the
    error paragraph under each text field and the banner. *)

Inductive TextField : Type := Name | Email | Organization | Message.

#[global] Instance TextField_eq_dec : EqDecision TextField.
Proof. solve_decision. Defined.

(** The [id] of the field's element, also its key in [touched] and in
    [FieldErrors]. *)
Definition key (f : TextField) : string :=
  match f with
  | Name => "name"
  | Email => "email"
  | Organization => "organization"
  | Message => "message"
  end.

Definition fieldValue (f : TextField) (s : signals) : jsstring :=
  match f with
  | Name => name s
  | Email => email s
  | Organization => organization s
  | Message => message s
  end.

Record ControlView : Type := {
  value : jsstring;
  disabled : bool;
  (** [{showError(f) && <p>{showError(f)}</p>}] *)
  errorText : option jsstring
}.

Record FormView : Type := {
  textInput : TextField -> ControlView;
  roleSelect : ControlView;
  (** [{status() === "error" && <div>{errorMessage()}</div>}]: the value
      placed in the banner, a string being shown as its text *)
  banner : option JS.value;
  submitDisabled : bool
}.

Inductive View : Type :=
| SuccessPanel : View
| FormPanel : FormView -> View.

(** [x && <p>x</p>] renders the paragraph for a truthy [x] only. *)
Definition whenTruthy (x : option jsstring) : option jsstring :=
  match x with
  | Some e => if JS.truthy e then Some e else None
  | None => None
  end.

Definition render (s : signals) : View :=
  if decide (status s = success) then SuccessPanel
  else FormPanel {|
    textInput f := {|
      value := fieldValue f s;
      disabled := bool_decide (status s = submitting);
      errorText := whenTruthy (showError s (key f))
    |};
    roleSelect := {|
      value := role s;
      disabled := bool_decide (status s = submitting);
      errorText := None
    |};
    banner := if decide (status s = error) then Some (errorMessage s) else None;
    submitDisabled := bool_decide (status s = submitting)
  |}.

(** ** The component as a transition system

    One step is one run of a handler, up to its end or to the [await] it
    suspends on; the signals inside a run of the submit handler, after
    line 109, are what [handleSubmit_enter] returns.  A user event is possible on a control that is rendered
    and, for typing, choosing and submitting, not disabled.  The timer the
    handler sets on success only moves the focus to the success panel; it
    writes no signal and is left out. *)

Inductive Event : Type :=
| Input : TextField -> jsstring -> Event      (* onInput of a text field *)
| ChangeRole : jsstring -> Event              (* onChange of the select *)
| Blur : TextField -> Event                   (* onBlur of a text field *)
| Submit : Z -> Event                         (* onSubmit, with Date.now() *)
| SendAnother : Event                         (* "Send another message" *)
| Settle : settled Response -> Event.         (* the pending fetch settles *)

Record World : Type := {
  ui : signals;
  (** every [fetch] call made so far, oldest first *)
  calls : list Request;
  (** whether a [fetch] is awaited *)
  awaiting : bool
}.

Definition boot : World := {| ui := mount; calls := []; awaiting := false |}.

Definition setField (f : TextField) (v : jsstring) : M unit :=
  match f with
  | Name => setName v
  | Email => setEmail v
  | Organization => setOrganization v
  | Message => setMessage v
  end.

(** Running a handler that does not touch the network. *)
Definition run (m : M unit) (w : World) : World :=
  {| ui := (m (ui w)).2; calls := calls w; awaiting := awaiting w |}.

Section Transitions.

Variable PUBLIC_FORMSPREE_ENDPOINT : option jsstring.

Definition step (w : World) (ev : Event) : option World :=
  match ev, render (ui w) with
  | Input f v, FormPanel form =>
      if disabled (textInput form f) then None
      else Some (run (setField f v) w)
  | ChangeRole v, FormPanel form =>
      if disabled (roleSelect form) then None
      else Some (run (setRole v) w)
  | Blur f, FormPanel _ =>
      Some (run (markTouched (key f)) w)
  | Submit now, FormPanel form =>
      if submitDisabled form then None
      else
        match handleSubmit PUBLIC_FORMSPREE_ENDPOINT now (ui w) with
        | (Normal (Some request), s) =>
            Some {| ui := s; calls := calls w ++ [request]; awaiting := true |}
        | (_, s) =>
            Some {| ui := s; calls := calls w; awaiting := awaiting w |}
        end
  | SendAnother, SuccessPanel =>
      Some (run (setStatus idle) w)
  | Settle fetched, _ =>
      if awaiting w
      then Some {| ui := (handleSubmit_resume fetched (ui w)).2;
                   calls := calls w; awaiting := false |}
      else None
  | _, _ => None
  end.

Fixpoint steps (w : World) (evs : list Event) : option World :=
  match evs with
  | [] => Some w
  | ev :: rest =>
      match step w ev with
      | Some w' => steps w' rest
      | None => None
      end
  end.

(** The worlds a mounted component can be in. *)
Definition reachable (w : World) : Prop :=
  exists evs, steps boot evs = Some w.

End Transitions.

(** A request is awaited exactly while the status is [submitting]. *)
Definition consistent (w : World) : Prop :=
  awaiting w = true <-> status (ui w) = submitting.

(** ** The specification's vocabulary

    The definitions below follow the words of the specification, not the
    code; the theorems compare them with the embedding above. *)

Inductive Failure : Type := Required | TooShort | InvalidFormat.

(** The five fields of a submission draft. *)
Inductive Field : Type :=
| Text : TextField -> Field
| Role : Field.

Definition fieldKey (f : Field) : string :=
  match f with
  | Text t => key t
  | Role => "role"
  end.

(** The pattern [^[^\s@]+@[^\s@]+\.[^\s@]{2,}$], read off as a shape of the
    text: a local part, [@], a domain, a dot and at least two more
    characters, none of them white space or [@]. *)
Definition EmailPattern (text : list N) : Prop :=
  exists l d t : list N,
    text = l ++ [0x40%N] ++ d ++ [0x2E%N] ++ t
    /\ l <> [] /\ Forall (fun c => notSpaceNorAt c = true) l
    /\ d <> [] /\ Forall (fun c => notSpaceNorAt c = true) d
    /\ (2 <= List.length t)%nat /\ Forall (fun c => notSpaceNorAt c = true) t.

(** The text under a field for each failure the component knows. *)
Definition failureText (f : TextField) (k : Failure) : option jsstring :=
  match f, k with
  | Name, Required => Some (JS.lit "Name is required")
  | Name, TooShort => Some (JS.lit "Name must be at least 2 characters")
  | Email, Required => Some (JS.lit "Email is required")
  | Email, InvalidFormat => Some (JS.lit "Please enter a valid email address")
  | Organization, TooShort =>
      Some (JS.lit "Organization must be at least 2 characters")
  | Message, Required => Some (JS.lit "Message is required")
  | Message, TooShort => Some (JS.lit "Message must be at least 10 characters")
  | _, _ => None
  end.

(** What the memo [errors] says about a field: no failure, or the failure
    whose text it holds under the field's key. *)
Definition Reports (s : signals) (f : Field) (o : option Failure) : Prop :=
  match o with
  | None => errors s !! fieldKey f = None
  | Some k =>
      exists t text, f = Text t /\ failureText t k = Some text
                     /\ errors s !! fieldKey f = Some text
  end.

(** The reference validation.  [blank] is the reading of "empty" for the
    email and the organization, where the specification does not say
    "after trimming". *)
Inductive Reference (blank : jsstring -> Prop) (s : signals)
  : Field -> option Failure -> Prop :=
| RefNameRequired :
    JS.trim (name s) = [] -> Reference blank s (Text Name) (Some Required)
| RefNameTooShort :
    JS.trim (name s) <> [] -> JS.length (JS.trim (name s)) < 2 ->
    Reference blank s (Text Name) (Some TooShort)
| RefNamePasses :
    2 <= JS.length (JS.trim (name s)) -> Reference blank s (Text Name) None
| RefEmailRequired :
    blank (email s) -> Reference blank s (Text Email) (Some Required)
| RefEmailInvalid :
    ~ blank (email s) -> ~ EmailPattern (JS.codePoints (JS.trim (email s))) ->
    Reference blank s (Text Email) (Some InvalidFormat)
| RefEmailPasses :
    ~ blank (email s) -> EmailPattern (JS.codePoints (JS.trim (email s))) ->
    Reference blank s (Text Email) None
| RefOrganizationTooShort :
    ~ blank (organization s) -> JS.length (JS.trim (organization s)) < 2 ->
    Reference blank s (Text Organization) (Some TooShort)
| RefOrganizationPasses :
    blank (organization s) \/ 2 <= JS.length (JS.trim (organization s)) ->
    Reference blank s (Text Organization) None
| RefMessageRequired :
    JS.trim (message s) = [] -> Reference blank s (Text Message) (Some Required)
| RefMessageTooShort :
    JS.trim (message s) <> [] -> JS.length (JS.trim (message s)) < 10 ->
    Reference blank s (Text Message) (Some TooShort)
| RefMessagePasses :
    10 <= JS.length (JS.trim (message s)) -> Reference blank s (Text Message) None
| RefRolePasses :
    Reference blank s Role None.

(** "Empty" read to the letter, and read as "empty after trimming". *)
Definition emptyAsWritten (v : jsstring) : Prop := v = [].
Definition emptyAfterTrim (v : jsstring) : Prop := JS.trim v = [].

(** The first message of a body of shape
    [{ errors: [{ message: string }, ...] }], in the specification's words:
    the string under [message] in the first element of the array under
    [errors]; a body of another shape has none. *)
Definition specFirstMessage (data : JS.value) : option jsstring :=
  match data with
  | JS.Object props =>
      match JS.property (JS.lit "errors") props with
      | Some (JS.Array (JS.Object first :: _)) =>
          match JS.property (JS.lit "message") first with
          | Some (JS.Str m) => Some m
          | _ => None
          end
      | _ => None
      end
  | _ => None
  end.

(** [m] is the first message of the body [data]. *)
Definition firstMessage (data : JS.value) (m : jsstring) : Prop :=
  specFirstMessage data = Some m.

(** The message a rejected response leads to, in the specification's words:
    the first message of the body when present, otherwise the generic
    message. *)
Definition specRejectionMessage (r : Response) : JS.value :=
  match json r with
  | Fulfilled data =>
      match specFirstMessage data with
      | Some m => JS.Str m
      | None => JS.Str (JS.lit "Something went wrong. Please try again.")
      end
  | Rejected => JS.Str (JS.lit "Something went wrong. Please try again.")
  end.

(** The value in the banner, if there is a banner. *)
Definition shownBanner (s : signals) : option JS.value :=
  match render s with
  | FormPanel form => banner form
  | SuccessPanel => None
  end.

(** The paragraph under a text field, if there is one. *)
Definition shownError (s : signals) (f : TextField) : option jsstring :=
  match render s with
  | FormPanel form => errorText (textInput form f)
  | SuccessPanel => None
  end.

Section Outcomes.

Variable PUBLIC_FORMSPREE_ENDPOINT : option jsstring.

(** The pending fetch settles as [fetched], and the component ends in
    [error] with the value [shown] in the banner, the draft as it was. *)
Definition failsShowing (w : World) (fetched : settled Response)
           (shown : JS.value) : Prop :=
  exists w',
    step PUBLIC_FORMSPREE_ENDPOINT w (Settle fetched) = Some w'
    /\ status (ui w') = error
    /\ shownBanner (ui w') = Some shown
    /\ name (ui w') = name (ui w)
    /\ email (ui w') = email (ui w)
    /\ organization (ui w') = organization (ui w)
    /\ role (ui w') = role (ui w)
    /\ message (ui w') = message (ui w).

(** The same, the banner showing the text [text]. *)
Definition failsWith (w : World) (fetched : settled Response) (text : jsstring)
  : Prop :=
  failsShowing w fetched (JS.Str text).

End Outcomes.

(** ** Sample drafts

    The draft the component's tests type in, and two variants of it. *)

Definition johnDoe : signals := {|
  status := idle;
  errorMessage := JS.Str [];
  touched := ∅;
  lastSubmitTime := 0;
  name := JS.lit "John Doe";
  email := JS.lit "john@example.com";
  organization := [];
  role := [];
  message := JS.lit "This is a test message that is long enough"
|}.

(** The same with one space typed into the organization. *)
Definition johnDoeBlankOrganization : signals :=
  (setOrganization (JS.lit " ") johnDoe).2.

(** The same with one no-break space (U+00A0) in place of the email
    address; an [<input type="email">] strips ASCII white space from its
    value but keeps this character, and [trim] removes it. *)
Definition johnDoeBlankEmail : signals :=
  (setEmail [0xA0%N] johnDoe).2.

(** ** Sample runs

    The endpoint and the scenario of the component's tests: the draft is
    typed in and submitted, and a response arrives. *)

Definition testEndpoint : option jsstring :=
  Some (JS.lit "https://formspree.io/f/test123").

Definition typing : list Event :=
  [Input Name (JS.lit "John Doe");
   Input Email (JS.lit "john@example.com");
   Input Message (JS.lit "This is a test message that is long enough")].

(** The form after [typing]. *)
Definition typed : World := {| ui := johnDoe; calls := []; awaiting := false |}.

(** The world after [typing] and a submit at time 1700000000000. *)
Definition inFlight : World := {|
  ui := {|
    status := submitting;
    errorMessage := JS.Str [];
    touched := {[ "name" := true; "email" := true;
                  "organization" := true; "message" := true ]};
    lastSubmitTime := 1700000000000;
    name := JS.lit "John Doe";
    email := JS.lit "john@example.com";
    organization := [];
    role := [];
    message := JS.lit "This is a test message that is long enough"
  |};
  calls := [{|
    url := JS.lit "https://formspree.io/f/test123";
    method := "POST";
    headers := [("Content-Type", "application/json");
                ("Accept", "application/json")];
    body := JS.stringifyObject
              [("name", JS.lit "John Doe");
               ("email", JS.lit "john@example.com");
               ("organization", []);
               ("role", []);
               ("message", JS.lit "This is a test message that is long enough")]
  |}];
  awaiting := true
|}.

(** A 200 response; the rejected response of the tests, with the body
    [{"errors":[{"message":"Server error"}]}]; a 500 response whose body is
    an HTML page; a 422 response whose first message is the empty string;
    a 422 response with the body [{"errors":[{"message":[]}]}], whose first
    message is an empty array. *)
Definition accepted : Response :=
  {| statusCode := 200;
     json := Fulfilled (Formspree.toJSON {| Formspree.errors := None |}) |}.

Definition serverError : Response :=
  {| statusCode := 500;
     json := Fulfilled (Formspree.toJSON {| Formspree.errors :=
               Some [{| Formspree.message := JS.lit "Server error" |}] |}) |}.

Definition htmlErrorPage : Response :=
  {| statusCode := 500; json := Rejected |}.

Definition emptyFirstMessage : Response :=
  {| statusCode := 422;
     json := Fulfilled (Formspree.toJSON {| Formspree.errors :=
               Some [{| Formspree.message := [] |}] |}) |}.

Definition arrayFirstMessage : Response :=
  {| statusCode := 422;
     json := Fulfilled
               (JS.Object
                  [(JS.lit "errors",
                    JS.Array [JS.Object [(JS.lit "message", JS.Array [])]])]) |}.


(** ** Observations on runs

    What the properties of whole runs speak about: the draft as one value,
    the clock readings of the submits that made a [fetch] call, and the
    shape of a request that carries a valid draft. *)

(** The five field values, in the order of the request body. *)
Definition draft (s : signals) : list jsstring :=
  [name s; email s; organization s; role s; message s].

(** The request [handleSubmit] builds from the draft of [s] for the
    endpoint [endpoint]. *)
Definition requestOf (endpoint : jsstring) (s : signals) : Request := {|
  url := endpoint;
  method := "POST";
  headers := [("Content-Type", "application/json");
              ("Accept", "application/json")];
  body := JS.stringifyObject
            [("name", JS.trim (name s));
             ("email", JS.trim (email s));
             ("organization", JS.trim (organization s));
             ("role", role s);
             ("message", JS.trim (message s))]
|}.

(** Two clock readings at least the cooldown apart, at every pair of
    places of the list. *)
Definition apart (ts : list Z) : Prop :=
  forall i j ti tj,
    (i < j)%nat -> ts !! i = Some ti -> ts !! j = Some tj ->
    RATE_LIMIT_COOLDOWN_MS <= tj - ti.

Section Observations.

Variable PUBLIC_FORMSPREE_ENDPOINT : option jsstring.

(** The clock readings of the submits of a run at which the list of calls
    grew, in order. *)
Fixpoint sendTimes (w : World) (evs : list Event) : list Z :=
  match evs with
  | [] => []
  | ev :: rest =>
      match step PUBLIC_FORMSPREE_ENDPOINT w ev with
      | None => []
      | Some w' =>
          match ev with
          | Submit now =>
              if (List.length (calls w) <? List.length (calls w'))%nat
              then now :: sendTimes w' rest
              else sendTimes w' rest
          | _ => sendTimes w' rest
          end
      end
  end.

(** A request to the configured endpoint whose body holds trimmed values
    that satisfy the rules of the form. *)
Definition carriesValidDraft (r : Request) : Prop :=
  PUBLIC_FORMSPREE_ENDPOINT = Some (url r)
  /\ url r <> []
  /\ method r = "POST"
  /\ headers r = [("Content-Type", "application/json");
                  ("Accept", "application/json")]
  /\ exists n e o ro m : jsstring,
      body r = JS.stringifyObject
                 [("name", n); ("email", e); ("organization", o);
                  ("role", ro); ("message", m)]
      /\ JS.trim n = n /\ 2 <= JS.length n
      /\ JS.trim e = e /\ EmailPattern (JS.codePoints e)
      /\ JS.trim o = o /\ (o = [] \/ 2 <= JS.length o)
      /\ JS.trim m = m /\ 10 <= JS.length m.

End Observations.

(** Whether a settled fetch counts as a failure for the handler: the
    promise was rejected, or the response is not [ok]. *)
Definition failed (fetched : settled Response) : Prop :=
  match fetched with
  | Rejected => True
  | Fulfilled r => ok r = false
  end.

(** ** The earlier revision of the validation

    The repository also holds an earlier revision of the component.  Its
    pattern has no [u] flag, so it is matched on code units, and asks for
    one character after the last dot; its memo lets an empty message
    pass. *)

Module Earlier.

(** [/^[^\s@]+@[^\s@]+\.[^\s@]+$/] *)
Definition emailRegex : RegExp.regex :=
  RegExp.Cat (RegExp.Plus (RegExp.Class notSpaceNorAt))
    (RegExp.Cat (RegExp.Char 0x40)
       (RegExp.Cat (RegExp.Plus (RegExp.Class notSpaceNorAt))
          (RegExp.Cat (RegExp.Char 0x2E)
             (RegExp.Plus (RegExp.Class notSpaceNorAt))))).

Definition validateEmail (email : jsstring) : bool :=
  RegExp.matchAll emailRegex email.

Definition errors (s : signals) : FieldErrors :=
  let errs : FieldErrors := ∅ in
  let errs :=
    if negb (JS.truthy (JS.trim (name s))) then
      <["name" := JS.lit "Name is required"]> errs
    else if JS.length (JS.trim (name s)) <? 2 then
      <["name" := JS.lit "Name must be at least 2 characters"]> errs
    else errs in
  let errs :=
    if negb (JS.truthy (JS.trim (email s))) then
      <["email" := JS.lit "Email is required"]> errs
    else if negb (validateEmail (JS.trim (email s))) then
      <["email" := JS.lit "Please enter a valid email address"]> errs
    else errs in
  let errs :=
    if JS.truthy (JS.trim (organization s))
       && (JS.length (JS.trim (organization s)) <? 2) then
      <["organization" := JS.lit "Organization must be at least 2 characters"]> errs
    else errs in
  let errs :=
    if JS.truthy (JS.trim (message s))
       && (JS.length (JS.trim (message s)) <? 10) then
      <["message" := JS.lit "Message must be at least 10 characters"]> errs
    else errs in
  errs.

Definition isValid (s : signals) : bool :=
  JS.keyCount (errors s) =? 0.

End Earlier.

(** * Theorems *)

(** ** Strings *)

Lemma trimStart_blank (s : jsstring) :
  Forall (fun c => JS.is_white_space c = true) s -> JS.trimStart s = [].
Proof.
  induction 1 as [|c t Hc _ IH]; simpl; [reflexivity|].
  rewrite Hc. exact IH.
Qed.

Lemma trim_blank (s : jsstring) :
  Forall (fun c => JS.is_white_space c = true) s -> JS.trim s = [].
Proof.
  intros H. unfold JS.trim. rewrite (trimStart_blank s H). reflexivity.
Qed.

Lemma truthy_false (s : jsstring) : JS.truthy s = false <-> s = [].
Proof. destruct s; simpl; split; congruence. Qed.

Lemma truthy_true (s : jsstring) : JS.truthy s = true <-> s <> [].
Proof. destruct s; simpl; split; congruence. Qed.

Lemma ceilDiv_spec (a b : Z) :
  0 < b -> b * (JS.ceilDiv a b - 1) < a <= b * JS.ceilDiv a b.
Proof.
  intros Hb. unfold JS.ceilDiv.
  pose proof (Z.div_mod (- a) b ltac:(lia)) as Hdm.
  pose proof (Z.mod_pos_bound (- a) b Hb) as Hm.
  nia.
Qed.

(** ** Numbers

    Rounding to the nearest Number leaves an integer up to 2^53 as it is and
    keeps a larger one beyond 2^53 on its side of zero; the quotient by 1000,
    rounded to 53 bits, has the ceiling of the exact quotient as long as it
    stays below 2^44. *)

Lemma ceilDiv_unique (a b k : Z) :
  0 < b -> b * (k - 1) < a <= b * k -> JS.ceilDiv a b = k.
Proof.
  intros Hb H. pose proof (ceilDiv_spec a b Hb). nia.
Qed.

Lemma nearestEven_bounds (n d : Z) :
  0 < d -> - d <= 2 * (JS.nearestEven n d * d - n) <= d.
Proof.
  intros Hd. unfold JS.nearestEven.
  pose proof (Z.div_mod n d ltac:(lia)) as Hdm.
  pose proof (Z.mod_pos_bound n d Hd) as Hm.
  destruct (Z.ltb_spec (2 * (n mod d)) d);
    [|destruct (Z.ltb_spec d (2 * (n mod d)));
      [|destruct (Z.even (n / d))]]; nia.
Qed.

Lemma nearestEven_exact (k d : Z) :
  0 < d -> JS.nearestEven (k * d) d = k.
Proof.
  intros Hd. unfold JS.nearestEven.
  rewrite Z.div_mul, Z.mod_mul by lia.
  destruct (Z.ltb_spec (2 * 0) d); [reflexivity|lia].
Qed.

Lemma toNumber_exact (x : Z) : Z.abs x <= 2 ^ 53 -> JS.toNumber x = x.
Proof.
  intros H. unfold JS.toNumber.
  destruct (Z.ltb_spec (Z.abs x) (2 ^ 53)) as [_|Hge]; [reflexivity|].
  assert (E : Z.abs x = 2 ^ 53) by lia.
  rewrite E. change (2 ^ (Z.log2 (2 ^ 53) - 52)) with 2.
  assert (Hx : x = 2 ^ 52 * 2 \/ x = (- 2 ^ 52) * 2) by lia.
  destruct Hx as [-> | ->]; rewrite nearestEven_exact by lia; reflexivity.
Qed.

Lemma ulp_spec (a : Z) :
  2 ^ 53 <= a ->
  let ulp := 2 ^ (Z.log2 a - 52) in
  2 <= ulp /\ 2 ^ 52 * ulp <= a < 2 ^ 53 * ulp.
Proof.
  intros Ha ulp.
  assert (H0 : 0 < a) by lia.
  pose proof (Z.log2_spec a H0) as Hl.
  assert (H53 : 53 <= Z.log2 a) by (apply Z.log2_le_pow2; lia).
  assert (E1 : 2 ^ Z.log2 a = 2 ^ 52 * ulp).
  { subst ulp. rewrite <- Z.pow_add_r by lia. f_equal. lia. }
  assert (E2 : 2 ^ Z.succ (Z.log2 a) = 2 ^ 53 * ulp).
  { subst ulp. rewrite <- Z.pow_add_r by lia. f_equal. lia. }
  split; [|lia].
  subst ulp. change 2 with (2 ^ 1) at 1. apply Z.pow_le_mono_r; lia.
Qed.

Lemma toNumber_large (x : Z) :
  (2 ^ 53 <= x -> 2 ^ 53 <= JS.toNumber x)
  /\ (x <= - 2 ^ 53 -> JS.toNumber x <= - 2 ^ 53).
Proof.
  unfold JS.toNumber. split; intros H.
  - destruct (Z.ltb_spec (Z.abs x) (2 ^ 53)) as [Hlt|_]; [lia|].
    rewrite Z.abs_eq by lia.
    destruct (ulp_spec x H) as [Hu Hb].
    set (ulp := 2 ^ (Z.log2 x - 52)) in *.
    pose proof (nearestEven_bounds x ulp ltac:(lia)) as Hm.
    set (m := JS.nearestEven x ulp) in *.
    change (2 ^ 52) with 4503599627370496 in *.
    change (2 ^ 53) with 9007199254740992 in *.
    assert (4503599627370496 <= m) by nia. nia.
  - destruct (Z.ltb_spec (Z.abs x) (2 ^ 53)) as [Hlt|_]; [lia|].
    rewrite Z.abs_neq by lia.
    destruct (ulp_spec (- x) ltac:(lia)) as [Hu Hb].
    set (ulp := 2 ^ (Z.log2 (- x) - 52)) in *.
    pose proof (nearestEven_bounds x ulp ltac:(lia)) as Hm.
    set (m := JS.nearestEven x ulp) in *.
    change (2 ^ 52) with 4503599627370496 in *.
    change (2 ^ 53) with 9007199254740992 in *.
    assert (m <= - 4503599627370496) by nia. nia.
Qed.

Lemma toNumber_near (x : Z) :
  Z.abs x < 2 ^ 54 -> - 1 <= JS.toNumber x - x <= 1.
Proof.
  intros H. unfold JS.toNumber.
  destruct (Z.ltb_spec (Z.abs x) (2 ^ 53)) as [Hlt|Hge]; [lia|].
  assert (E : Z.log2 (Z.abs x) = 53).
  { apply Z.log2_unique; [lia|]. split; [exact Hge|exact H]. }
  rewrite E. change (2 ^ (53 - 52)) with 2.
  pose proof (nearestEven_bounds x 2 ltac:(lia)). lia.
Qed.

Lemma sub_lt (a b c : Z) :
  Z.abs c < 2 ^ 53 -> JS.sub a b < c <-> a - b < c.
Proof.
  intros Hc. unfold JS.sub.
  destruct (Z_le_gt_dec (Z.abs (a - b)) (2 ^ 53)) as [Hs|Hl].
  - rewrite toNumber_exact by exact Hs. reflexivity.
  - destruct (toNumber_large (a - b)) as [Hp Hn].
    change (2 ^ 53) with 9007199254740992 in *. lia.
Qed.

Lemma div_exponent (x d : Z) :
  0 < x -> 0 < d ->
  exists e,
    JS.div x d = (JS.nearestEven (x * 2 ^ Z.max 0 (- e)) (d * 2 ^ Z.max 0 e), e)
    /\ d * 2 ^ Z.max 0 e * 2 ^ 52 <= x * 2 ^ Z.max 0 (- e)
    /\ x * 2 ^ Z.max 0 (- e) < d * 2 ^ Z.max 0 e * 2 ^ 53.
Proof.
  intros Hx Hd. unfold JS.div.
  destruct (Z.eqb_spec x 0) as [|_]; [lia|].
  rewrite Z.abs_eq, Z.sgn_pos, Z.mul_1_l by lia.
  pose proof (Z.log2_spec x Hx) as Hlx.
  pose proof (Z.log2_spec d Hd) as Hld.
  pose proof (Z.log2_nonneg x) as Hnx.
  pose proof (Z.log2_nonneg d) as Hnd.
  set (l := Z.log2 x - Z.log2 d).
  set (L := if x * 2 ^ Z.max 0 (- l) <? d * 2 ^ Z.max 0 l then l - 1 else l).
  exists (L - 52). split; [reflexivity|].
  (* 2^L <= x/d < 2^(L+1), in integers *)
  assert (HL : d * 2 ^ Z.max 0 L <= x * 2 ^ Z.max 0 (- L)
               /\ x * 2 ^ Z.max 0 (- L) < 2 * (d * 2 ^ Z.max 0 L)).
  { rewrite !Z.pow_succ_r in * by lia.
    subst L. destruct (Z.ltb_spec (x * 2 ^ Z.max 0 (- l)) (d * 2 ^ Z.max 0 l))
      as [Hlt|Hge].
    - (* x/d < 2^l, so 2^(l-1) <= x/d *)
      destruct (Z_le_gt_dec 1 l) as [Hl1|Hl0].
      + rewrite (Z.max_r 0 (l - 1)), (Z.max_l 0 (- (l - 1))) by lia.
        rewrite (Z.max_r 0 l), (Z.max_l 0 (- l)) in Hlt by lia.
        simpl in *. rewrite Z.mul_1_r in *.
        assert (E : 2 ^ l = 2 * 2 ^ (l - 1)).
        { rewrite <- Z.pow_succ_r by lia. f_equal. lia. }
        split; [|lia].
        assert (E2 : 2 ^ Z.log2 x = 2 ^ Z.log2 d * 2 ^ l).
        { rewrite <- Z.pow_add_r by lia. f_equal. lia. }
        nia.
      + rewrite (Z.max_l 0 (l - 1)), (Z.max_r 0 (- (l - 1))) by lia.
        rewrite (Z.max_l 0 l), (Z.max_r 0 (- l)) in Hlt by lia.
        simpl in *. rewrite Z.mul_1_r in *.
        assert (E : 2 ^ (- (l - 1)) = 2 * 2 ^ (- l)).
        { rewrite <- Z.pow_succ_r by lia. f_equal. lia. }
        split; [|lia].
        assert (E2 : 2 ^ Z.log2 d = 2 ^ Z.log2 x * 2 ^ (- l)).
        { rewrite <- Z.pow_add_r by lia. f_equal. lia. }
        nia.
    - split; [exact Hge|].
      destruct (Z_le_gt_dec 0 l) as [Hl1|Hl0].
      + rewrite (Z.max_r 0 l), (Z.max_l 0 (- l)) by lia.
        simpl. rewrite Z.mul_1_r.
        assert (E2 : 2 ^ Z.log2 x = 2 ^ Z.log2 d * 2 ^ l).
        { rewrite <- Z.pow_add_r by lia. f_equal. lia. }
        nia.
      + rewrite (Z.max_l 0 l), (Z.max_r 0 (- l)) by lia.
        simpl. rewrite Z.mul_1_r.
        assert (E2 : 2 ^ Z.log2 d = 2 ^ Z.log2 x * 2 ^ (- l)).
        { rewrite <- Z.pow_add_r by lia. f_equal. lia. }
        nia. }
  clearbody L. clear -HL Hx Hd.
  destruct HL as [H1 H2].
  assert (Hp : forall k, 0 < 2 ^ Z.max 0 k)
    by (intros k; apply Z.pow_pos_nonneg; lia).
  (* from scale L to scale L - 52 *)
  assert (S : 2 ^ Z.max 0 (- (L - 52)) * 2 ^ Z.max 0 L
              = 2 ^ 52 * (2 ^ Z.max 0 (L - 52) * 2 ^ Z.max 0 (- L))).
  { rewrite <- !Z.pow_add_r by lia. f_equal. lia. }
  pose proof (Hp L). pose proof (Hp (- L)).
  pose proof (Hp (L - 52)). pose proof (Hp (- (L - 52))).
  set (p := 2 ^ Z.max 0 L) in *. set (q := 2 ^ Z.max 0 (- L)) in *.
  set (p' := 2 ^ Z.max 0 (L - 52)) in *.
  set (q' := 2 ^ Z.max 0 (- (L - 52))) in *.
  change (2 ^ 52) with 4503599627370496 in *.
  change (2 ^ 53) with 9007199254740992 in *.
  split.
  - apply (Z.mul_le_mono_pos_r _ _ (p * q)); [nia|].
    transitivity (d * p * (4503599627370496 * (p' * q))); [nia|].
    rewrite <- S. nia.
  - apply (Z.mul_lt_mono_pos_r (p * q)); [nia|].
    apply Z.lt_le_trans with (2 * (d * p) * (4503599627370496 * (p' * q))); [|nia].
    rewrite <- S. nia.
Qed.

Lemma ceil_div_exact (x : Z) :
  0 < x < 2 ^ 44 * 1000 -> JS.ceil (JS.div x 1000) = JS.ceilDiv x 1000.
Proof.
  intros Hx.
  destruct (div_exponent x 1000) as (e & -> & Hlo & Hhi); [lia|lia|].
  change (2 ^ 44) with 17592186044416 in Hx.
  change (2 ^ 52) with 4503599627370496 in Hlo.
  assert (He : e <= - 9).
  { destruct (Z_le_gt_dec e (- 9)) as [H|H]; [exact H|exfalso].
    destruct (Z_le_gt_dec 0 e) as [H0|H0].
    - rewrite (Z.max_r 0 e), (Z.max_l 0 (- e)) in Hlo by lia.
      assert (1 <= 2 ^ e) by (apply (Z.pow_le_mono_r 2 0 e); lia).
      simpl in Hlo. nia.
    - rewrite (Z.max_l 0 e), (Z.max_r 0 (- e)) in Hlo by lia.
      assert (2 ^ (- e) <= 2 ^ 8) by (apply Z.pow_le_mono_r; lia).
      change (2 ^ 8) with 256 in *. simpl in Hlo. nia. }
  unfold JS.ceil. cbn [fst snd].
  destruct (Z.leb_spec 0 e) as [|_]; [lia|].
  rewrite (Z.max_l 0 e), (Z.max_r 0 (- e)) by lia.
  change (2 ^ 0) with 1. rewrite Z.mul_1_r.
  assert (Hs : 512 <= 2 ^ (- e)).
  { change 512 with (2 ^ 9). apply Z.pow_le_mono_r; lia. }
  set (s := 2 ^ (- e)) in *.
  pose proof (nearestEven_bounds (x * s) 1000 ltac:(lia)) as Hm.
  set (m := JS.nearestEven (x * s) 1000) in *.
  pose proof (ceilDiv_spec x 1000 ltac:(lia)) as Hk.
  apply ceilDiv_unique; [lia|]. nia.
Qed.

Lemma ceil_div_large (x : Z) :
  2 ^ 44 * 1000 <= x -> 2 ^ 43 <= JS.ceil (JS.div x 1000).
Proof.
  intros Hx.
  destruct (div_exponent x 1000) as (e & -> & Hlo & Hhi).
  { change (2 ^ 44) with 17592186044416 in Hx. lia. }
  { lia. }
  change (2 ^ 44) with 17592186044416 in Hx.
  change (2 ^ 43) with 8796093022208.
  change (2 ^ 52) with 4503599627370496 in Hlo.
  change (2 ^ 53) with 9007199254740992 in Hhi.
  assert (Hp : forall k, 0 < 2 ^ Z.max 0 k)
    by (intros k; apply Z.pow_pos_nonneg; lia).
  pose proof (Hp e) as Hpe. pose proof (Hp (- e)) as Hqe.
  pose proof (nearestEven_bounds (x * 2 ^ Z.max 0 (- e))
                (1000 * 2 ^ Z.max 0 e) ltac:(lia)) as Hm.
  set (m := JS.nearestEven _ _) in *.
  assert (Hm52 : 4503599627370496 <= m) by nia.
  assert (He : - 9 <= e).
  { destruct (Z_le_gt_dec (- 9) e) as [H|H]; [exact H|exfalso].
    rewrite (Z.max_l 0 e), (Z.max_r 0 (- e)) in Hhi by lia.
    assert (2 ^ 10 <= 2 ^ (- e)) by (apply Z.pow_le_mono_r; lia).
    change (2 ^ 10) with 1024 in *. simpl in Hhi. nia. }
  unfold JS.ceil. cbn [fst snd].
  destruct (Z.leb_spec 0 e) as [H0|H0].
  - assert (1 <= 2 ^ e) by (apply (Z.pow_le_mono_r 2 0 e); lia). nia.
  - assert (2 ^ (- e) <= 2 ^ 9) by (apply Z.pow_le_mono_r; lia).
    assert (0 < 2 ^ (- e)) by (apply Z.pow_pos_nonneg; lia).
    change (2 ^ 9) with 512 in *.
    pose proof (ceilDiv_spec m (2 ^ (- e)) ltac:(lia)). nia.
Qed.

(** On clock readings at the ends of the time range and on small ones,
    [JS.sub] and [JS.div] give what the subtraction and the division of the
    Standard Library's IEEE 754 specification give for binary64. *)
Example sub_is_binary64_subtraction :
  Forall (fun ab : Z * Z =>
            JS.binary64 (JS.sub ab.1 ab.2) 0
            = SpecFloat.SFsub 53 1024 (JS.binary64 ab.1 0) (JS.binary64 ab.2 0))
    [(- 8639999999999002, 8639999999999999);
     (8640000000000000, - 8639999999999999);
     (3000, - 17279999999999000);
     (3000, - 9007199254737993);
     (3000, - 9007199254737991);
     (1700000000500, 1700000000000);
     (9007199254740994, - 1)].
Proof. repeat constructor. Qed.

Example div_is_binary64_division :
  Forall (fun x : Z =>
            JS.binary64 (JS.div x 1000).1 (JS.div x 1000).2
            = SpecFloat.SFdiv 53 1024 (JS.binary64 x 0) (JS.binary64 1000 0))
    [1; 999; 1000; 1001; 2500; 3000; 3001; 17280000000002000;
     17280000000003000; 9007199254740994; - 7; - 1000; - 17280000000002000].
Proof. repeat constructor. Qed.

(** ** Regular expressions: the derivative matcher decides [Matches] *)

Lemma nullable_spec (r : RegExp.regex) :
  RegExp.nullable r = true <-> RegExp.Matches r [].
Proof.
  induction r as [| |p|r1 IH1 r2 IH2|r1 IH1 r2 IH2|r IH]; simpl.
  - split; [discriminate|]. inversion 1.
  - split; [constructor|reflexivity].
  - split; [discriminate|]. inversion 1.
  - rewrite andb_true_iff, IH1, IH2. split.
    + intros [H1 H2]. exact (RegExp.MCat _ _ [] [] H1 H2).
    + inversion 1 as [| |? ? s1 s2 H1 H2 E1 E2| | | |]; subst.
      apply app_eq_nil in E2 as [-> ->]. auto.
  - rewrite orb_true_iff, IH1, IH2. split.
    + intros [H|H]; [apply RegExp.MAltL|apply RegExp.MAltR]; exact H.
    + inversion 1; subst; auto.
  - split; [constructor|reflexivity].
Qed.

Lemma star_cons_inv (r : RegExp.regex) (c : N) (s : list N) :
  RegExp.Matches (RegExp.Star r) (c :: s) ->
  exists s1 s2, s = s1 ++ s2 /\ RegExp.Matches r (c :: s1)
                /\ RegExp.Matches (RegExp.Star r) s2.
Proof.
  intros H. remember (RegExp.Star r) as q eqn:Eq.
  remember (c :: s) as w eqn:Ew. revert r c s Eq Ew.
  induction H as [| | | | | |r' u1 u2 H1 _ H2 IH2]; intros r0 c0 s0 Eq Ew;
    try discriminate.
  injection Eq as ->. destruct u1 as [|c1 u1]; simpl in Ew.
  - apply IH2; [reflexivity|exact Ew].
  - injection Ew as -> <-. eauto.
Qed.

Lemma deriv_spec (r : RegExp.regex) (c : N) (s : list N) :
  RegExp.Matches (RegExp.deriv c r) s <-> RegExp.Matches r (c :: s).
Proof.
  revert s.
  induction r as [| |p|r1 IH1 r2 IH2|r1 IH1 r2 IH2|r IH]; intros s; simpl.
  - split; inversion 1.
  - split; inversion 1.
  - destruct (p c) eqn:Hp; split; intros H.
    + inversion H; subst. constructor. exact Hp.
    + inversion H; subst. constructor.
    + inversion H.
    + inversion H; subst. congruence.
  - split.
    + intros H.
      assert (Hcat : forall u, RegExp.Matches (RegExp.Cat (RegExp.deriv c r1) r2) u ->
                               RegExp.Matches (RegExp.Cat r1 r2) (c :: u)).
      { intros u Hu. inversion Hu as [| |? ? s1 s2 H1 H2| | | |]; subst.
        apply IH1 in H1.
        exact (RegExp.MCat _ _ (c :: s1) s2 H1 H2). }
      destruct (RegExp.nullable r1) eqn:Hn.
      * inversion H as [| | |? ? ? HL|? ? ? HR| |]; subst.
        -- apply Hcat, HL.
        -- apply IH2 in HR. apply nullable_spec in Hn.
           exact (RegExp.MCat _ _ [] (c :: s) Hn HR).
      * apply Hcat, H.
    + intros H. inversion H as [| |? ? s1 s2 H1 H2 E1 E2| | | |]; subst.
      destruct s1 as [|c1 s1]; simpl in E2.
      * subst s2. apply nullable_spec in H1. rewrite H1.
        apply RegExp.MAltR, IH2, H2.
      * injection E2 as -> <-. apply IH1 in H1.
        pose proof (RegExp.MCat _ _ _ _ H1 H2) as Hc.
        destruct (RegExp.nullable r1); [apply RegExp.MAltL|]; exact Hc.
  - split; intros H.
    + inversion H; subst; [apply RegExp.MAltL, IH1|apply RegExp.MAltR, IH2]; assumption.
    + inversion H; subst; [apply RegExp.MAltL, IH1|apply RegExp.MAltR, IH2]; assumption.
  - split; intros H.
    + inversion H as [| |? ? s1 s2 H1 H2| | | |]; subst.
      apply IH in H1. exact (RegExp.MStarCons _ (c :: s1) s2 H1 H2).
    + apply star_cons_inv in H as (s1 & s2 & -> & H1 & H2).
      apply IH in H1. exact (RegExp.MCat _ _ _ _ H1 H2).
Qed.

Lemma matchAll_spec (r : RegExp.regex) (s : list N) :
  RegExp.matchAll r s = true <-> RegExp.Matches r s.
Proof.
  revert r. induction s as [|c s IH]; intros r; simpl.
  - apply nullable_spec.
  - rewrite IH. apply deriv_spec.
Qed.

(** ** The email pattern *)

Lemma cat_spec (r1 r2 : RegExp.regex) (s : list N) :
  RegExp.Matches (RegExp.Cat r1 r2) s <->
  exists s1 s2, s = s1 ++ s2 /\ RegExp.Matches r1 s1 /\ RegExp.Matches r2 s2.
Proof.
  split.
  - inversion 1; subst. eauto.
  - intros (s1 & s2 & -> & H1 & H2). constructor; assumption.
Qed.

Lemma class_spec (p : N -> bool) (s : list N) :
  RegExp.Matches (RegExp.Class p) s <-> exists c, s = [c] /\ p c = true.
Proof.
  split.
  - inversion 1; subst. eauto.
  - intros (c & -> & Hc). constructor. exact Hc.
Qed.

Lemma char_spec (c : N) (s : list N) :
  RegExp.Matches (RegExp.Char c) s <-> s = [c].
Proof.
  unfold RegExp.Char. rewrite class_spec. split.
  - intros (d & -> & Hd). apply N.eqb_eq in Hd. congruence.
  - intros ->. exists c. split; [reflexivity|apply N.eqb_refl].
Qed.

Lemma star_class_spec (p : N -> bool) (s : list N) :
  RegExp.Matches (RegExp.Star (RegExp.Class p)) s <->
  Forall (fun c => p c = true) s.
Proof.
  split.
  - induction s as [|c s IH]; intros H; [constructor|].
    apply star_cons_inv in H as (s1 & s2 & -> & H1 & H2).
    apply class_spec in H1 as (d & E & Hd).
    injection E as <- ->. constructor; [exact Hd|]. apply IH, H2.
  - induction 1 as [|c s Hc _ IH]; [constructor|].
    apply (RegExp.MStarCons _ [c] s); [constructor; exact Hc|exact IH].
Qed.

Lemma plus_class_spec (p : N -> bool) (s : list N) :
  RegExp.Matches (RegExp.Plus (RegExp.Class p)) s <->
  s <> [] /\ Forall (fun c => p c = true) s.
Proof.
  unfold RegExp.Plus. rewrite cat_spec. split.
  - intros (s1 & s2 & -> & H1 & H2).
    apply class_spec in H1 as (c & -> & Hc). apply star_class_spec in H2.
    split; [discriminate|]. constructor; assumption.
  - intros [Hne H]. destruct H as [|c s Hc H]; [congruence|].
    exists [c], s. split; [reflexivity|]. split.
    + constructor. exact Hc.
    + apply star_class_spec, H.
Qed.

Lemma atLeast_class_spec (n : nat) (p : N -> bool) (s : list N) :
  RegExp.Matches (RegExp.AtLeast n (RegExp.Class p)) s <->
  (n <= List.length s)%nat /\ Forall (fun c => p c = true) s.
Proof.
  revert s. induction n as [|n IH]; intros s; simpl.
  - rewrite star_class_spec. split; [intros H; split; [lia|exact H]|tauto].
  - rewrite cat_spec. split.
    + intros (s1 & s2 & -> & H1 & H2).
      apply class_spec in H1 as (c & -> & Hc). apply IH in H2 as [Hn H2].
      simpl. split; [lia|]. constructor; assumption.
    + intros [Hn H]. destruct H as [|c s Hc H]; simpl in Hn; [lia|].
      exists [c], s. split; [reflexivity|]. split.
      * constructor. exact Hc.
      * apply IH. split; [lia|exact H].
Qed.

(** The matcher accepts exactly the texts of the shape [EmailPattern]. *)
Lemma emailRegex_spec (text : list N) :
  RegExp.matchAll emailRegex text = true <-> EmailPattern text.
Proof.
  rewrite matchAll_spec. unfold emailRegex, EmailPattern.
  split.
  - intros H.
    apply cat_spec in H as (l & r1 & -> & Hl & H).
    apply cat_spec in H as (a & r2 & -> & Ha & H).
    apply cat_spec in H as (d & r3 & -> & Hd & H).
    apply cat_spec in H as (b & t & -> & Hb & Ht).
    apply char_spec in Ha as ->. apply char_spec in Hb as ->.
    apply plus_class_spec in Hl as [Hl1 Hl2].
    apply plus_class_spec in Hd as [Hd1 Hd2].
    apply atLeast_class_spec in Ht as [Ht1 Ht2].
    exists l, d, t. repeat split; assumption.
  - intros (l & d & t & -> & Hl1 & Hl2 & Hd1 & Hd2 & Ht1 & Ht2).
    apply cat_spec. exists l, ([64%N] ++ d ++ [46%N] ++ t).
    split; [reflexivity|]. split; [apply plus_class_spec; auto|].
    apply cat_spec. exists [64%N], (d ++ [46%N] ++ t).
    split; [reflexivity|]. split; [apply char_spec; reflexivity|].
    apply cat_spec. exists d, ([46%N] ++ t).
    split; [reflexivity|]. split; [apply plus_class_spec; auto|].
    apply cat_spec. exists [46%N], t.
    split; [reflexivity|]. split; [apply char_spec; reflexivity|].
    apply atLeast_class_spec. auto.
Qed.

Lemma validateEmail_spec (v : jsstring) :
  validateEmail v = true <-> EmailPattern (JS.codePoints v).
Proof. unfold validateEmail, RegExp.test. apply emailRegex_spec. Qed.

Lemma validateEmail_false (v : jsstring) :
  validateEmail v = false <-> ~ EmailPattern (JS.codePoints v).
Proof.
  rewrite <- validateEmail_spec. destruct (validateEmail v); split; congruence.
Qed.

(** ** The memo [errors], key by key *)

Ltac lookup_errors :=
  unfold errors, MIN_NAME_LENGTH, MIN_ORGANIZATION_LENGTH, MIN_MESSAGE_LENGTH;
  repeat match goal with
         | |- context [if ?b then _ else _] => destruct b
         end;
  repeat (rewrite lookup_insert_eq || (rewrite lookup_insert_ne by discriminate)
          || rewrite lookup_empty);
  reflexivity.

Lemma errors_name (s : signals) :
  errors s !! "name" =
  if negb (JS.truthy (JS.trim (name s))) then Some (JS.lit "Name is required")
  else if JS.length (JS.trim (name s)) <? 2
       then Some (JS.lit "Name must be at least 2 characters")
       else None.
Proof. lookup_errors. Qed.

Lemma errors_email (s : signals) :
  errors s !! "email" =
  if negb (JS.truthy (JS.trim (email s))) then Some (JS.lit "Email is required")
  else if negb (validateEmail (JS.trim (email s)))
       then Some (JS.lit "Please enter a valid email address")
       else None.
Proof. lookup_errors. Qed.

Lemma errors_organization (s : signals) :
  errors s !! "organization" =
  if JS.truthy (JS.trim (organization s))
     && (JS.length (JS.trim (organization s)) <? 2)
  then Some (JS.lit "Organization must be at least 2 characters")
  else None.
Proof. lookup_errors. Qed.

Lemma errors_message (s : signals) :
  errors s !! "message" =
  if negb (JS.truthy (JS.trim (message s))) then Some (JS.lit "Message is required")
  else if JS.length (JS.trim (message s)) <? 10
       then Some (JS.lit "Message must be at least 10 characters")
       else None.
Proof. lookup_errors. Qed.

Lemma errors_other (s : signals) (k : string) :
  k <> "name" -> k <> "email" -> k <> "organization" -> k <> "message" ->
  errors s !! k = None.
Proof.
  intros H1 H2 H3 H4. unfold errors.
  repeat match goal with
         | |- context [if ?b then _ else _] => destruct b
         end;
  repeat (rewrite lookup_insert_ne by congruence); apply lookup_empty.
Qed.

Lemma keyCount_zero {V} (o : gmap string V) : JS.keyCount o = 0 <-> o = ∅.
Proof.
  unfold JS.keyCount. rewrite length_fmap.
  rewrite length_map_to_list.
  rewrite <- map_size_empty_iff. lia.
Qed.

Lemma isValid_spec (s : signals) :
  isValid s = true <->
  errors s !! "name" = None /\ errors s !! "email" = None
  /\ errors s !! "organization" = None /\ errors s !! "message" = None.
Proof.
  unfold isValid. rewrite Z.eqb_eq, keyCount_zero. split.
  - intros ->. repeat split; apply lookup_empty.
  - intros (H1 & H2 & H3 & H4). apply map_eq. intros k.
    rewrite lookup_empty.
    destruct (decide (k = "name")) as [->|N1]; [exact H1|].
    destruct (decide (k = "email")) as [->|N2]; [exact H2|].
    destruct (decide (k = "organization")) as [->|N3]; [exact H3|].
    destruct (decide (k = "message")) as [->|N4]; [exact H4|].
    apply errors_other; assumption.
Qed.

(** ** Validation against the reference definition *)

Lemma ltb_length_lt (v : jsstring) (n : Z) :
  (JS.length v <? n) = true <-> JS.length v < n.
Proof. apply Z.ltb_lt. Qed.

Lemma ltb_length_ge (v : jsstring) (n : Z) :
  (JS.length v <? n) = false <-> n <= JS.length v.
Proof. apply Z.ltb_ge. Qed.

Lemma length_pos_nonempty (v : jsstring) (n : Z) :
  0 < n -> n <= JS.length v -> v <> [].
Proof. intros Hn Hl ->. unfold JS.length in Hl. simpl in Hl. lia. Qed.

(** Turns the tests of the code into the propositions of the reference. *)
Ltac tests_to_props :=
  repeat match goal with
         | H : JS.truthy _ = true |- _ => apply truthy_true in H
         | H : JS.truthy _ = false |- _ => apply truthy_false in H
         | H : (JS.length _ <? _) = true |- _ => apply ltb_length_lt in H
         | H : (JS.length _ <? _) = false |- _ => apply ltb_length_ge in H
         | H : validateEmail _ = true |- _ => apply validateEmail_spec in H
         | H : validateEmail _ = false |- _ => apply validateEmail_false in H
         end.

(** Closes a goal whose hypotheses equate two different texts. *)
Ltac clash_of_texts :=
  match goal with
  | H : failureText _ _ = Some _ |- _ => cbv in H
  end;
  match goal with
  | H : Some _ = Some _ |- _ => cbv in H
  | H : None = Some _ |- _ => discriminate H
  end;
  congruence.

Ltac reported :=
  match goal with
  | |- exists t text, Text ?f = Text t /\ _ =>
      exists f; eexists; split; [reflexivity|]; split; reflexivity
  end.

(** One step of the comparison: the memo holds [Some text] or [None] under
    the key, and the tests of the code are hypotheses. *)
Ltac compare_with_reference :=
  split;
  [ intros Hrep;
    match type of Hrep with
    | exists _ _, _ =>
        destruct Hrep as (t & text & Ef & Hft & Hl');
        try (injection Ef as <-); try clash_of_texts; try discriminate
    | _ => try discriminate
    end;
    constructor; solve [assumption | tauto | lia
                       | eapply length_pos_nonempty; [|eassumption]; lia]
  | inversion 1; subst;
    try (unfold emptyAfterTrim in * );
    try solve [ congruence | lia | tauto | reported | reflexivity
              | exfalso; intuition (congruence || lia)
              | match goal with
                | H : JS.trim _ = [] |- _ =>
                    rewrite H in *; unfold JS.length in *; simpl in *; lia
                end ] ].

Lemma reports_name (blank : jsstring -> Prop) (s : signals) (o : option Failure) :
  Reports s (Text Name) o <-> Reference blank s (Text Name) o.
Proof.
  unfold Reports. simpl fieldKey. rewrite errors_name.
  destruct (JS.truthy (JS.trim (name s))) eqn:Ht;
    [destruct (JS.length (JS.trim (name s)) <? 2) eqn:Hl|];
    simpl negb; cbv iota; tests_to_props;
    destruct o as [[]|]; compare_with_reference.
Qed.

Lemma reports_message (blank : jsstring -> Prop) (s : signals) (o : option Failure) :
  Reports s (Text Message) o <-> Reference blank s (Text Message) o.
Proof.
  unfold Reports. simpl fieldKey. rewrite errors_message.
  destruct (JS.truthy (JS.trim (message s))) eqn:Ht;
    [destruct (JS.length (JS.trim (message s)) <? 10) eqn:Hl|];
    simpl negb; cbv iota; tests_to_props;
    destruct o as [[]|]; compare_with_reference.
Qed.

Lemma reports_email (s : signals) (o : option Failure) :
  Reports s (Text Email) o <-> Reference emptyAfterTrim s (Text Email) o.
Proof.
  unfold Reports. simpl fieldKey. rewrite errors_email.
  destruct (JS.truthy (JS.trim (email s))) eqn:Ht;
    [destruct (validateEmail (JS.trim (email s))) eqn:Hv|];
    simpl negb; cbv iota; tests_to_props;
    destruct o as [[]|]; compare_with_reference.
Qed.

Lemma reports_organization (s : signals) (o : option Failure) :
  Reports s (Text Organization) o
  <-> Reference emptyAfterTrim s (Text Organization) o.
Proof.
  unfold Reports. simpl fieldKey. rewrite errors_organization.
  destruct (JS.truthy (JS.trim (organization s))) eqn:Ht;
    [destruct (JS.length (JS.trim (organization s)) <? 2) eqn:Hl|];
    simpl andb; cbv iota; tests_to_props;
    destruct o as [[]|]; compare_with_reference.
Qed.

Lemma reports_role (blank : jsstring -> Prop) (s : signals) (o : option Failure) :
  Reports s Role o <-> Reference blank s Role o.
Proof.
  unfold Reports. simpl fieldKey.
  rewrite (errors_other s "role") by discriminate.
  destruct o as [k|]; split.
  - intros (t & text & Ef & _). discriminate Ef.
  - inversion 1.
  - intros _. constructor.
  - reflexivity.
Qed.

Lemma reports_reference (s : signals) (f : Field) (o : option Failure) :
  Reports s f o <-> Reference emptyAfterTrim s f o.
Proof.
  destruct f as [[]|].
  - apply reports_name.
  - apply reports_email.
  - apply reports_organization.
  - apply reports_message.
  - apply reports_role.
Qed.

(** C2, as written: the reference definition with "empty" for the email
    and "non-empty" for the organization taken to the letter does not
    describe [errors].  With one space as organization the reference
    reports TooShort while the memo reports nothing and the form is valid;
    with one no-break space as email the reference reports InvalidFormat
    while the memo reports Required. *)
Lemma validation_as_written_fails :
  Reference emptyAsWritten johnDoeBlankOrganization
    (Text Organization) (Some TooShort)
  /\ ~ Reports johnDoeBlankOrganization (Text Organization) (Some TooShort)
  /\ isValid johnDoeBlankOrganization = true
  /\ Reference emptyAsWritten johnDoeBlankEmail (Text Email) (Some InvalidFormat)
  /\ ~ Reports johnDoeBlankEmail (Text Email) (Some InvalidFormat)
  /\ Reports johnDoeBlankEmail (Text Email) (Some Required).
Proof.
  split; [|split; [|split; [|split; [|split]]]].
  - constructor; [discriminate|]. vm_compute. reflexivity.
  - intros (t & text & _ & _ & H). vm_compute in H. discriminate H.
  - vm_compute. reflexivity.
  - constructor; [discriminate|].
    apply validateEmail_false. vm_compute. reflexivity.
  - intros (t & text & Ef & Hft & H). injection Ef as <-.
    vm_compute in Hft, H. congruence.
  - exists Email. eexists. split; [reflexivity|].
    split; vm_compute; reflexivity.
Qed.

(** C2, as amended: with "empty" read as empty after trimming for every
    field, the memo [errors] reports for each of the five fields exactly
    the failure of the reference definition (name: Required when empty,
    TooShort below 2; email: Required when empty, InvalidFormat exactly
    when the trimmed value is not of the pattern's shape; organization:
    TooShort exactly when non-empty and below 2; message: Required when
    empty, TooShort below 10; role: never), and [isValid] holds exactly
    when no field fails.  "a@b.co" passes the pattern, "invalid-email" does
    not; a message of 10 trimmed characters passes, one of 9 is TooShort. *)
Theorem validation_matches_reference (s : signals) :
  (forall f o, Reports s f o <-> Reference emptyAfterTrim s f o)
  /\ (isValid s = true <-> forall f, Reference emptyAfterTrim s f None)
  /\ (email s = JS.lit "a@b.co" -> Reports s (Text Email) None)
  /\ (email s = JS.lit "invalid-email" ->
      Reports s (Text Email) (Some InvalidFormat))
  /\ (JS.length (JS.trim (message s)) = 10 -> Reports s (Text Message) None)
  /\ (JS.length (JS.trim (message s)) = 9 ->
      Reports s (Text Message) (Some TooShort)).
Proof.
  split; [intros f o; apply reports_reference|].
  split.
  { rewrite isValid_spec. split.
    - intros (H1 & H2 & H3 & H4) f. apply reports_reference.
      destruct f as [[]|]; simpl; try assumption.
      apply errors_other; discriminate.
    - intros H. repeat split.
      + apply (reports_reference s (Text Name) None), H.
      + apply (reports_reference s (Text Email) None), H.
      + apply (reports_reference s (Text Organization) None), H.
      + apply (reports_reference s (Text Message) None), H. }
  split.
  { intros H. unfold Reports. simpl fieldKey. rewrite errors_email, H.
    vm_compute. reflexivity. }
  split.
  { intros H. exists Email. eexists. split; [reflexivity|].
    split; [reflexivity|]. rewrite errors_email, H. vm_compute. reflexivity. }
  split; intros H; apply reports_reference.
  - apply RefMessagePasses. lia.
  - apply RefMessageTooShort; [|lia].
    intros E. rewrite E in H. discriminate H.
Qed.

(** ** Blank input *)

(** C9: for every field, a value made of white space only is validated
    like the empty value: the memo [errors], and with it [isValid], is the
    same for both. *)
Theorem blank_validates_as_empty (s : signals) (blank : jsstring) :
  Forall (fun c => JS.is_white_space c = true) blank ->
  (forall f : TextField,
      errors (setField f blank s).2 = errors (setField f [] s).2
      /\ isValid (setField f blank s).2 = isValid (setField f [] s).2)
  /\ errors (setRole blank s).2 = errors (setRole [] s).2
  /\ isValid (setRole blank s).2 = isValid (setRole [] s).2.
Proof.
  intros Hb. pose proof (trim_blank blank Hb) as Ht.
  assert (Hf : forall f : TextField,
             errors (setField f blank s).2 = errors (setField f [] s).2).
  { intros []; unfold errors; simpl; rewrite Ht; reflexivity. }
  split; [|split; reflexivity].
  intros f. split; [apply Hf|]. unfold isValid. rewrite Hf. reflexivity.
Qed.

Lemma blank_validates_as_empty_witness :
  Forall (fun c => JS.is_white_space c = true) (JS.lit "   ")
  /\ errors (setField Organization (JS.lit "   ") johnDoe).2
     = errors (setField Organization [] johnDoe).2.
Proof.
  assert (H : Forall (fun c => JS.is_white_space c = true) (JS.lit "   ")).
  { repeat constructor. }
  split; [exact H|].
  exact (proj1 (proj1 (blank_validates_as_empty johnDoe (JS.lit "   ") H)
                  Organization)).
Defined.

(** ** The cooldown arithmetic *)

(** The comparison with the cooldown is exact. *)
Lemma cooldown_test (now last : Z) :
  (JS.sub now last <? RATE_LIMIT_COOLDOWN_MS)
  = (now - last <? RATE_LIMIT_COOLDOWN_MS).
Proof.
  pose proof (sub_lt now last RATE_LIMIT_COOLDOWN_MS) as H.
  unfold RATE_LIMIT_COOLDOWN_MS in *.
  change (2 ^ 53) with 9007199254740992 in H.
  specialize (H ltac:(lia)).
  destruct (Z.ltb_spec (JS.sub now last) 3000),
           (Z.ltb_spec (now - last) 3000); lia.
Qed.

(** The remaining milliseconds, as the handler computes them within the
    cooldown: at least 1; the exact difference unless that lies beyond
    2^53; for two time values within 2 of the exact difference, and below
    2^44 * 1000. *)
Lemma remaining_spec (now last : Z) :
  now - last < RATE_LIMIT_COOLDOWN_MS ->
  let remaining := JS.sub RATE_LIMIT_COOLDOWN_MS (JS.sub now last) in
  1 <= remaining
  /\ (RATE_LIMIT_COOLDOWN_MS - (now - last) <= 2 ^ 53 ->
      remaining = RATE_LIMIT_COOLDOWN_MS - (now - last))
  /\ (now - last < 0 -> 3001 <= remaining)
  /\ (JS.isTimeValue now -> JS.isTimeValue last ->
      remaining < 2 ^ 44 * 1000
      /\ - 2 <= remaining - (RATE_LIMIT_COOLDOWN_MS - (now - last)) <= 2).
Proof.
  unfold RATE_LIMIT_COOLDOWN_MS, JS.sub, JS.isTimeValue.
  intros Hc. cbv zeta.
  change (2 ^ 53) with 9007199254740992.
  change (2 ^ 44) with 17592186044416.
  set (t := JS.toNumber (now - last)).
  assert (Ht : (Z.abs (now - last) <= 9007199254740992 /\ t = now - last)
               \/ (now - last < - 9007199254740992
                   /\ t <= - 9007199254740992)).
  { destruct (Z_le_gt_dec (Z.abs (now - last)) 9007199254740992) as [H|H].
    - left. split; [exact H|]. apply toNumber_exact. exact H.
    - right. split; [lia|]. apply toNumber_large. lia. }
  assert (Hr : (3000 - t <= 9007199254740992
                /\ JS.toNumber (3000 - t) = 3000 - t)
               \/ (9007199254740992 < 3000 - t
                   /\ 9007199254740992 <= JS.toNumber (3000 - t))).
  { destruct (Z_le_gt_dec (3000 - t) 9007199254740992) as [H|H].
    - left. split; [exact H|]. apply toNumber_exact. lia.
    - right. split; [lia|]. apply toNumber_large. lia. }
  split; [lia|]. split; [lia|]. split; [lia|].
  intros Hn Hl.
  pose proof (toNumber_near (now - last)) as N1.
  pose proof (toNumber_near (3000 - t)) as N2.
  change (2 ^ 54) with 18014398509481984 in N1, N2.
  fold t in N1. specialize (N1 ltac:(lia)). specialize (N2 ltac:(lia)). lia.
Qed.

(** The seconds announced for [x] remaining milliseconds: the ceiling of
    [x / 1000] as long as [x] is below 2^44 * 1000. *)
Lemma announced_seconds (x : Z) :
  1 <= x ->
  let seconds := JS.ceil (JS.div x 1000) in
  1 <= seconds
  /\ (x < 2 ^ 44 * 1000 -> seconds = JS.ceilDiv x 1000)
  /\ (3001 <= x -> 4 <= seconds).
Proof.
  intros Hx. cbv zeta.
  destruct (Z_lt_ge_dec x (2 ^ 44 * 1000)) as [H|H].
  - rewrite (ceil_div_exact x) by lia.
    pose proof (ceilDiv_spec x 1000 ltac:(lia)). lia.
  - pose proof (ceil_div_large x ltac:(lia)) as Hl.
    change (2 ^ 43) with 8796093022208 in Hl. lia.
Qed.

(** ** The submit handler, case by case *)

(** [setTouched({ name: true, email: true, organization: true, message: true })] *)
Lemma touched_all_lookup (f : TextField) :
  ({[ "name" := true; "email" := true;
      "organization" := true; "message" := true ]} : gmap string bool)
    !! key f = Some true.
Proof. destruct f; reflexivity. Qed.

Ltac reduce_handler :=
  cbv beta iota;
  cbn [status errorMessage touched lastSubmitTime name email organization
       role message fst snd negb].

Ltac run_handler :=
  unfold handleSubmit, handleSubmit_enter, handleSubmit_send,
    handleSubmit_resume, tryCatch, await, bind, read, ret, throw,
    markTouched, setTouched, setErrorMessage, setStatus, setLastSubmitTime,
    setName, setEmail, setOrganization, setRole, setMessage;
  reduce_handler.

Ltac known_validity s H :=
  match goal with
  | |- context [isValid ?r] =>
      change (isValid r) with (isValid s); rewrite H; reduce_handler
  end.

Ltac known_cooldown s H :=
  match goal with
  | |- context [JS.sub ?n (lastSubmitTime ?r) <? ?c] =>
      change (lastSubmitTime r) with (lastSubmitTime s);
      rewrite (cooldown_test n (lastSubmitTime s)), H;
      reduce_handler
  end.

(** *** Up to line 109 *)

Lemma enter_invalid (now : Z) (s : signals) :
  isValid s = false ->
  handleSubmit_enter now s =
  (Normal false,
   {| status := status s; errorMessage := errorMessage s;
      touched := {[ "name" := true; "email" := true;
                    "organization" := true; "message" := true ]};
      lastSubmitTime := lastSubmitTime s; name := name s; email := email s;
      organization := organization s; role := role s; message := message s |}).
Proof.
  intros Hv. run_handler. known_validity s Hv. reflexivity.
Qed.

Lemma enter_cooldown (now : Z) (s : signals) :
  isValid s = true ->
  now - lastSubmitTime s < RATE_LIMIT_COOLDOWN_MS ->
  handleSubmit_enter now s =
  (Normal false,
   {| status := error;
      errorMessage :=
        JS.Str
          (JS.lit "Please wait "
           ++ JS.numberToString
                (JS.ceil
                   (JS.div (JS.sub RATE_LIMIT_COOLDOWN_MS
                              (JS.sub now (lastSubmitTime s))) 1000))
           ++ JS.lit " seconds before submitting again.");
      touched := {[ "name" := true; "email" := true;
                    "organization" := true; "message" := true ]};
      lastSubmitTime := lastSubmitTime s; name := name s; email := email s;
      organization := organization s; role := role s; message := message s |}).
Proof.
  intros Hv Hc. apply Z.ltb_lt in Hc.
  run_handler. known_validity s Hv.
  known_cooldown s Hc. reflexivity.
Qed.

Lemma enter_admitted (now : Z) (s : signals) :
  isValid s = true ->
  RATE_LIMIT_COOLDOWN_MS <= now - lastSubmitTime s ->
  handleSubmit_enter now s =
  (Normal true,
   {| status := submitting;
      errorMessage := JS.Str [];
      touched := {[ "name" := true; "email" := true;
                    "organization" := true; "message" := true ]};
      lastSubmitTime := now; name := name s; email := email s;
      organization := organization s; role := role s; message := message s |}).
Proof.
  intros Hv Hc. apply Z.ltb_ge in Hc.
  run_handler. known_validity s Hv.
  known_cooldown s Hc. reflexivity.
Qed.

(** *** From line 111 on *)

Lemma send_unconfigured (ep : option jsstring) (s : signals) :
  ep = None \/ ep = Some [] ->
  handleSubmit_send ep s =
  (Normal None,
   {| status := error;
      errorMessage :=
        JS.Str (JS.lit "Form configuration error. Please contact support.");
      touched := touched s; lastSubmitTime := lastSubmitTime s;
      name := name s; email := email s; organization := organization s;
      role := role s; message := message s |}).
Proof. intros [-> | ->]; reflexivity. Qed.

Lemma send_fetch (endpoint : jsstring) (s : signals) :
  endpoint <> [] ->
  handleSubmit_send (Some endpoint) s =
  (Normal (Some {|
     url := endpoint;
     method := "POST";
     headers := [("Content-Type", "application/json");
                 ("Accept", "application/json")];
     body := JS.stringifyObject
               [("name", JS.trim (name s));
                ("email", JS.trim (email s));
                ("organization", JS.trim (organization s));
                ("role", role s);
                ("message", JS.trim (message s))] |}),
   s).
Proof. intros Hne. destruct endpoint; [congruence|]. destruct s. reflexivity. Qed.

(** The whole run is the two parts in sequence. *)
Lemma handleSubmit_parts (ep : option jsstring) (now : Z) (s : signals) :
  handleSubmit ep now s =
  match handleSubmit_enter now s with
  | (Normal true, s1) => handleSubmit_send ep s1
  | (Normal false, s1) => (Normal None, s1)
  | (Throw, s1) => (Throw, s1)
  end.
Proof.
  unfold handleSubmit, bind, ret.
  destruct (handleSubmit_enter now s) as [[[]|] s1]; reflexivity.
Qed.

(** *** The whole run *)

Lemma handleSubmit_invalid (ep : option jsstring) (now : Z) (s : signals) :
  isValid s = false ->
  handleSubmit ep now s =
  (Normal None,
   {| status := status s; errorMessage := errorMessage s;
      touched := {[ "name" := true; "email" := true;
                    "organization" := true; "message" := true ]};
      lastSubmitTime := lastSubmitTime s; name := name s; email := email s;
      organization := organization s; role := role s; message := message s |}).
Proof.
  intros Hv. rewrite handleSubmit_parts, (enter_invalid now s Hv). reflexivity.
Qed.

Lemma handleSubmit_cooldown (ep : option jsstring) (now : Z) (s : signals) :
  isValid s = true ->
  now - lastSubmitTime s < RATE_LIMIT_COOLDOWN_MS ->
  handleSubmit ep now s =
  (Normal None,
   {| status := error;
      errorMessage :=
        JS.Str
          (JS.lit "Please wait "
           ++ JS.numberToString
                (JS.ceil
                   (JS.div (JS.sub RATE_LIMIT_COOLDOWN_MS
                              (JS.sub now (lastSubmitTime s))) 1000))
           ++ JS.lit " seconds before submitting again.");
      touched := {[ "name" := true; "email" := true;
                    "organization" := true; "message" := true ]};
      lastSubmitTime := lastSubmitTime s; name := name s; email := email s;
      organization := organization s; role := role s; message := message s |}).
Proof.
  intros Hv Hc.
  rewrite handleSubmit_parts, (enter_cooldown now s Hv Hc). reflexivity.
Qed.

Lemma handleSubmit_unconfigured (ep : option jsstring) (now : Z) (s : signals) :
  isValid s = true ->
  RATE_LIMIT_COOLDOWN_MS <= now - lastSubmitTime s ->
  ep = None \/ ep = Some [] ->
  handleSubmit ep now s =
  (Normal None,
   {| status := error;
      errorMessage :=
        JS.Str (JS.lit "Form configuration error. Please contact support.");
      touched := {[ "name" := true; "email" := true;
                    "organization" := true; "message" := true ]};
      lastSubmitTime := now; name := name s; email := email s;
      organization := organization s; role := role s; message := message s |}).
Proof.
  intros Hv Hc Hep.
  rewrite handleSubmit_parts, (enter_admitted now s Hv Hc).
  rewrite (send_unconfigured ep _ Hep). reflexivity.
Qed.

Lemma handleSubmit_fetch (endpoint : jsstring) (now : Z) (s : signals) :
  isValid s = true ->
  RATE_LIMIT_COOLDOWN_MS <= now - lastSubmitTime s ->
  endpoint <> [] ->
  handleSubmit (Some endpoint) now s =
  (Normal (Some {|
     url := endpoint;
     method := "POST";
     headers := [("Content-Type", "application/json");
                 ("Accept", "application/json")];
     body := JS.stringifyObject
               [("name", JS.trim (name s));
                ("email", JS.trim (email s));
                ("organization", JS.trim (organization s));
                ("role", role s);
                ("message", JS.trim (message s))] |}),
   {| status := submitting;
      errorMessage := JS.Str [];
      touched := {[ "name" := true; "email" := true;
                    "organization" := true; "message" := true ]};
      lastSubmitTime := now; name := name s; email := email s;
      organization := organization s; role := role s; message := message s |}).
Proof.
  intros Hv Hc Hep.
  rewrite handleSubmit_parts, (enter_admitted now s Hv Hc).
  rewrite (send_fetch endpoint _ Hep). reflexivity.
Qed.

(** The handler never throws, and it leaves the draft as it is. *)
Lemma handleSubmit_frame (ep : option jsstring) (now : Z) (s : signals) :
  let r := handleSubmit ep now s in
  (exists request, r.1 = Normal request)
  /\ name r.2 = name s /\ email r.2 = email s
  /\ organization r.2 = organization s /\ role r.2 = role s
  /\ message r.2 = message s
  /\ touched r.2 = {[ "name" := true; "email" := true;
                      "organization" := true; "message" := true ]}.
Proof.
  cbv zeta. destruct (isValid s) eqn:Hv.
  - destruct (Z.ltb_spec (now - lastSubmitTime s) RATE_LIMIT_COOLDOWN_MS) as [Hc|Hc].
    + rewrite (handleSubmit_cooldown ep now s Hv Hc). simpl. eauto 10.
    + destruct ep as [[|c e]|].
      * rewrite (handleSubmit_unconfigured _ now s Hv Hc (or_intror eq_refl)).
        simpl. eauto 10.
      * rewrite (handleSubmit_fetch (c :: e) now s Hv Hc ltac:(discriminate)).
        simpl. eauto 10.
      * rewrite (handleSubmit_unconfigured _ now s Hv Hc (or_introl eq_refl)).
        simpl. eauto 10.
  - rewrite (handleSubmit_invalid ep now s Hv). simpl. eauto 10.
Qed.

(** Every way through the handler: the form is invalid, the cooldown has
    not elapsed, the endpoint is missing, or the request goes out. *)
Lemma handleSubmit_cases (ep : option jsstring) (now : Z) (s : signals) :
  (isValid s = false
   /\ (handleSubmit ep now s).1 = Normal None
   /\ status (handleSubmit ep now s).2 = status s)
  \/ (isValid s = true
      /\ now - lastSubmitTime s < RATE_LIMIT_COOLDOWN_MS
      /\ (handleSubmit ep now s).1 = Normal None
      /\ status (handleSubmit ep now s).2 = error)
  \/ (isValid s = true
      /\ RATE_LIMIT_COOLDOWN_MS <= now - lastSubmitTime s
      /\ (ep = None \/ ep = Some [])
      /\ (handleSubmit ep now s).1 = Normal None
      /\ status (handleSubmit ep now s).2 = error)
  \/ (isValid s = true
      /\ RATE_LIMIT_COOLDOWN_MS <= now - lastSubmitTime s
      /\ (exists endpoint, ep = Some endpoint /\ endpoint <> [])
      /\ (exists request, (handleSubmit ep now s).1 = Normal (Some request))
      /\ status (handleSubmit ep now s).2 = submitting).
Proof.
  destruct (isValid s) eqn:Hv.
  - right.
    destruct (Z.ltb_spec (now - lastSubmitTime s) RATE_LIMIT_COOLDOWN_MS) as [Hc|Hc].
    + left. rewrite (handleSubmit_cooldown ep now s Hv Hc). auto.
    + right. destruct ep as [[|c e]|].
      * left.
        rewrite (handleSubmit_unconfigured _ now s Hv Hc (or_intror eq_refl)).
        auto 6.
      * right.
        rewrite (handleSubmit_fetch (c :: e) now s Hv Hc ltac:(discriminate)).
        simpl. split; [reflexivity|]. split; [exact Hc|].
        split; [exists (c :: e); split; [reflexivity|discriminate]|].
        split; [eauto|reflexivity].
      * left.
        rewrite (handleSubmit_unconfigured _ now s Hv Hc (or_introl eq_refl)).
        auto 6.
  - left. rewrite (handleSubmit_invalid ep now s Hv). auto.
Qed.

(** ** The continuation, case by case *)

Lemma resume_rejected (s : signals) :
  handleSubmit_resume Rejected s =
  (Normal tt,
   {| status := error;
      errorMessage :=
        JS.Str
          (JS.lit "Network error. Please check your connection and try again.");
      touched := touched s; lastSubmitTime := lastSubmitTime s;
      name := name s; email := email s; organization := organization s;
      role := role s; message := message s |}).
Proof. reflexivity. Qed.

Lemma resume_ok (r : Response) (s : signals) :
  ok r = true ->
  handleSubmit_resume (Fulfilled r) s =
  (Normal tt,
   {| status := success; errorMessage := errorMessage s; touched := ∅;
      lastSubmitTime := lastSubmitTime s;
      name := []; email := []; organization := []; role := []; message := [] |}).
Proof. intros Hok. run_handler. rewrite Hok. reflexivity. Qed.

Lemma resume_not_ok_json (r : Response) (data : JS.value) (s : signals) :
  ok r = false -> json r = Fulfilled data ->
  handleSubmit_resume (Fulfilled r) s =
  (Normal tt,
   {| status := error;
      errorMessage :=
        JS.orElse (firstErrorMessage data)
                  (JS.Str (JS.lit "Something went wrong. Please try again."));
      touched := touched s; lastSubmitTime := lastSubmitTime s;
      name := name s; email := email s; organization := organization s;
      role := role s; message := message s |}).
Proof. intros Hok Hj. run_handler. rewrite Hok, Hj. reflexivity. Qed.

Lemma resume_not_ok_unparsed (r : Response) (s : signals) :
  ok r = false -> json r = Rejected ->
  handleSubmit_resume (Fulfilled r) s =
  (Normal tt,
   {| status := error;
      errorMessage :=
        JS.Str
          (JS.lit "Network error. Please check your connection and try again.");
      touched := touched s; lastSubmitTime := lastSubmitTime s;
      name := name s; email := email s; organization := organization s;
      role := role s; message := message s |}).
Proof. intros Hok Hj. run_handler. rewrite Hok, Hj. reflexivity. Qed.

(** However the fetch settles, the continuation ends in [success] or in
    [error], and it does not write the cooldown timestamp. *)
Lemma resume_leaves (fetched : settled Response) (s : signals) :
  (status (handleSubmit_resume fetched s).2 = success
   \/ status (handleSubmit_resume fetched s).2 = error)
  /\ lastSubmitTime (handleSubmit_resume fetched s).2 = lastSubmitTime s.
Proof.
  destruct fetched as [r|]; [|rewrite resume_rejected; simpl; auto].
  destruct (ok r) eqn:Hok; [rewrite (resume_ok r s Hok); simpl; auto|].
  destruct (json r) as [data|] eqn:Hj.
  - rewrite (resume_not_ok_json r data s Hok Hj). simpl. auto.
  - rewrite (resume_not_ok_unparsed r s Hok Hj). simpl. auto.
Qed.

(** ** Steps *)

Lemma render_success (s : signals) :
  status s = success -> render s = SuccessPanel.
Proof. intros H. unfold render. rewrite decide_True by exact H. reflexivity. Qed.

Lemma render_form (s : signals) :
  status s <> success ->
  exists form,
    render s = FormPanel form
    /\ (forall f, disabled (textInput form f) = bool_decide (status s = submitting))
    /\ (forall f, errorText (textInput form f) = whenTruthy (showError s (key f)))
    /\ disabled (roleSelect form) = bool_decide (status s = submitting)
    /\ submitDisabled form = bool_decide (status s = submitting)
    /\ banner form = (if decide (status s = error) then Some (errorMessage s)
                      else None).
Proof.
  intros H. unfold render. rewrite decide_False by exact H.
  eexists. split; [reflexivity|]. simpl. auto.
Qed.

(** What a step is, event by event. *)
Lemma step_inv (ep : option jsstring) (w w' : World) (ev : Event) :
  step ep w ev = Some w' ->
  match ev with
  | Input f v =>
      status (ui w) <> success /\ status (ui w) <> submitting
      /\ w' = run (setField f v) w
  | ChangeRole v =>
      status (ui w) <> success /\ status (ui w) <> submitting
      /\ w' = run (setRole v) w
  | Blur f =>
      status (ui w) <> success /\ w' = run (markTouched (key f)) w
  | Submit now =>
      status (ui w) <> success /\ status (ui w) <> submitting
      /\ ui w' = (handleSubmit ep now (ui w)).2
      /\ match (handleSubmit ep now (ui w)).1 with
         | Normal (Some request) =>
             calls w' = calls w ++ [request] /\ awaiting w' = true
         | _ => calls w' = calls w /\ awaiting w' = awaiting w
         end
  | SendAnother =>
      status (ui w) = success /\ w' = run (setStatus idle) w
  | Settle fetched =>
      awaiting w = true
      /\ w' = {| ui := (handleSubmit_resume fetched (ui w)).2;
                 calls := calls w; awaiting := false |}
  end.
Proof.
  unfold step.
  destruct (decide (status (ui w) = success)) as [Hs|Hs].
  - rewrite (render_success _ Hs).
    destruct ev; try discriminate.
    + intros [= <-]. auto.
    + destruct (awaiting w); [|discriminate]. intros [= <-]. auto.
  - destruct (render_form _ Hs) as (form & -> & Hd & _ & Hr & Hb & _).
    destruct ev.
    + rewrite Hd. case_bool_decide; [discriminate|]. intros [= <-]. auto.
    + rewrite Hr. case_bool_decide; [discriminate|]. intros [= <-]. auto.
    + intros [= <-]. auto.
    + rewrite Hb. case_bool_decide; [discriminate|].
      destruct (handleSubmit ep z (ui w)) as [[[request|]|] s'];
        intros [= <-]; simpl; auto.
    + discriminate.
    + destruct (awaiting w); [|discriminate]. intros [= <-]. auto.
Qed.

Lemma step_consistent (ep : option jsstring) (w w' : World) (ev : Event) :
  consistent w -> step ep w ev = Some w' -> consistent w'.
Proof.
  unfold consistent. intros Hw Hstep. apply step_inv in Hstep.
  destruct ev.
  - destruct Hstep as (_ & Hn & ->). destruct t; simpl; exact Hw.
  - destruct Hstep as (_ & Hn & ->). simpl. exact Hw.
  - destruct Hstep as (_ & ->). simpl. exact Hw.
  - destruct Hstep as (_ & Hn & Hui & Hcalls). rewrite Hui.
    destruct (handleSubmit_cases ep z (ui w))
      as [(_ & E & St)|[(_ & _ & E & St)|[(_ & _ & _ & E & St)
          |(_ & _ & _ & (request & E) & St)]]];
      rewrite E in Hcalls; destruct Hcalls as [_ Ha]; rewrite Ha, St.
    + exact Hw.
    + split; [intros H; apply Hw in H; contradiction|discriminate].
    + split; [intros H; apply Hw in H; contradiction|discriminate].
    + split; reflexivity.
  - destruct Hstep as (Hs & ->). simpl. rewrite Hs in Hw.
    split; [intros H; apply Hw in H; discriminate|discriminate].
  - destruct Hstep as (_ & ->). simpl.
    destruct (resume_leaves s (ui w)) as [[H|H] _]; rewrite H;
      split; discriminate.
Qed.

Lemma steps_consistent (ep : option jsstring) (evs : list Event) (w w' : World) :
  consistent w -> steps ep w evs = Some w' -> consistent w'.
Proof.
  revert w. induction evs as [|ev evs IH]; intros w Hw; simpl.
  - intros [= <-]. exact Hw.
  - destruct (step ep w ev) as [w1|] eqn:Hstep; [|discriminate].
    apply IH. exact (step_consistent ep w w1 ev Hw Hstep).
Qed.

Lemma reachable_consistent (ep : option jsstring) (w : World) :
  reachable ep w -> consistent w.
Proof.
  intros [evs H]. apply (steps_consistent ep evs boot w); [|exact H].
  unfold consistent. simpl. split; discriminate.
Qed.

Lemma shownBanner_error (s : signals) :
  status s = error -> shownBanner s = Some (errorMessage s).
Proof.
  intros H. unfold shownBanner, render.
  rewrite decide_False by (rewrite H; discriminate).
  simpl. rewrite decide_True by exact H. reflexivity.
Qed.

Lemma typed_reachable : reachable testEndpoint typed.
Proof. exists typing. vm_compute. reflexivity. Qed.

Lemma inFlight_reachable : reachable testEndpoint inFlight.
Proof. exists (typing ++ [Submit 1700000000000]). vm_compute. reflexivity. Qed.

(** ** The cooldown *)



(** Two readings at the far ends of the time range: an attempt at the
    reading 8639999999999999 and a submit at -8639999999999002.  The exact
    difference is 17280000000002001 ms; the handler's subtraction gives
    17280000000002000, and the banner asks to wait 17280000000002
    seconds. *)
Example far_apart_readings :
  let s := (handleSubmit testEndpoint 8639999999999999 johnDoe).2 in
  lastSubmitTime s = 8639999999999999
  /\ isValid s = true
  /\ 3000 - (- 8639999999999002 - lastSubmitTime s) = 17280000000002001
  /\ JS.sub 3000 (JS.sub (- 8639999999999002) (lastSubmitTime s))
     = 17280000000002000
  /\ shownBanner (handleSubmit testEndpoint (- 8639999999999002) s).2
     = Some (JS.Str (JS.lit "Please wait 17280000000002 seconds before submitting again.")).
Proof. vm_compute. auto 10. Qed.

(** The scenario of the rate-limiting test: a submit, its acceptance,
    "send another", the draft typed again and a second submit half a
    second after the first.  One call was made, and the banner asks to
    wait. *)
Example rapid_resubmission :
  exists w,
    steps testEndpoint boot
      (typing ++ [Submit 1700000000000; Settle (Fulfilled accepted); SendAnother]
       ++ typing ++ [Submit 1700000000500]) = Some w
    /\ List.length (calls w) = 1%nat
    /\ status (ui w) = error
    /\ shownBanner (ui w)
       = Some (JS.Str (JS.lit "Please wait 3 seconds before submitting again.")).
Proof. eexists. split; [vm_compute; reflexivity|]. vm_compute. auto. Qed.

(** ** The endpoint *)

(** C6: a submit that passes validation and the cooldown while the
    endpoint is not configured ([undefined], or the empty string) ends in
    [error] within the same step, the banner showing the configuration
    message; the handler makes no [fetch] call, the list of calls stays as
    it was and nothing is awaited. *)
Theorem unconfigured_endpoint_fails (ep : option jsstring) (now : Z) (s : signals) :
  isValid s = true ->
  RATE_LIMIT_COOLDOWN_MS <= now - lastSubmitTime s ->
  ep = None \/ ep = Some [] ->
  (handleSubmit ep now s).1 = Normal None
  /\ status (handleSubmit ep now s).2 = error
  /\ shownBanner (handleSubmit ep now s).2
     = Some (JS.Str (JS.lit "Form configuration error. Please contact support."))
  /\ (forall w w', ui w = s -> step ep w (Submit now) = Some w' ->
                   calls w' = calls w /\ awaiting w' = awaiting w).
Proof.
  intros Hv Hc Hep.
  pose proof (handleSubmit_unconfigured ep now s Hv Hc Hep) as E.
  split; [rewrite E; reflexivity|].
  split; [rewrite E; reflexivity|].
  split.
  - rewrite shownBanner_error by (rewrite E; reflexivity).
    rewrite E. reflexivity.
  - intros w w' <- Hstep. apply step_inv in Hstep.
    destruct Hstep as (_ & _ & _ & Hcalls). rewrite E in Hcalls. exact Hcalls.
Qed.

Lemma unconfigured_endpoint_fails_witness :
  isValid johnDoe = true
  /\ RATE_LIMIT_COOLDOWN_MS <= 1700000000000 - lastSubmitTime johnDoe
  /\ status (handleSubmit None 1700000000000 johnDoe).2 = error.
Proof.
  assert (Hv : isValid johnDoe = true) by (vm_compute; reflexivity).
  assert (Hc : RATE_LIMIT_COOLDOWN_MS <= 1700000000000 - lastSubmitTime johnDoe)
    by (vm_compute; discriminate).
  split; [exact Hv|]. split; [exact Hc|].
  exact (proj1 (proj2 (unconfigured_endpoint_fails None 1700000000000 johnDoe
                         Hv Hc (or_introl eq_refl)))).
Defined.

(** ** The request *)

(** C7: whatever step takes the component into [submitting], it is a
    submit with a configured endpoint, and it adds exactly one call to the
    list: a POST to that endpoint with Content-Type and Accept set to
    application/json, whose body is the JSON text of the object with the
    five properties name, email, organization, role and message, each the
    trimmed current value except role, which goes as it is.  With a
    configured endpoint, a submit of a valid form after the cooldown is
    such a step. *)
Theorem entering_submitting_posts (ep : option jsstring) (w : World) :
  status (ui w) <> submitting ->
  (forall ev w',
      step ep w ev = Some w' ->
      status (ui w') = submitting ->
      exists now endpoint,
        ev = Submit now
        /\ ep = Some endpoint /\ endpoint <> []
        /\ calls w' = calls w ++ [{|
             url := endpoint;
             method := "POST";
             headers := [("Content-Type", "application/json");
                         ("Accept", "application/json")];
             body := JS.stringifyObject
                       [("name", JS.trim (name (ui w)));
                        ("email", JS.trim (email (ui w)));
                        ("organization", JS.trim (organization (ui w)));
                        ("role", role (ui w));
                        ("message", JS.trim (message (ui w)))] |}]
        /\ awaiting w' = true)
  /\ (forall now endpoint,
         ep = Some endpoint -> endpoint <> [] ->
         status (ui w) <> success ->
         isValid (ui w) = true ->
         RATE_LIMIT_COOLDOWN_MS <= now - lastSubmitTime (ui w) ->
         exists w',
           step ep w (Submit now) = Some w'
           /\ status (ui w') = submitting).
Proof.
  intros Hbefore. split.
  - intros ev w' Hstep Hafter. apply step_inv in Hstep.
    destruct ev.
    + destruct Hstep as (_ & _ & ->). destruct t; simpl in Hafter; contradiction.
    + destruct Hstep as (_ & _ & ->). simpl in Hafter. contradiction.
    + destruct Hstep as (_ & ->). simpl in Hafter. contradiction.
    + destruct Hstep as (_ & _ & Hui & Hcalls). rewrite Hui in Hafter.
      destruct (handleSubmit_cases ep z (ui w))
        as [(_ & _ & St)|[(_ & _ & _ & St)|[(_ & _ & _ & _ & St)
            |(Hv & Hc & (endpoint & -> & Hne) & _ & _)]]];
        try (rewrite St in Hafter; congruence).
      rewrite (handleSubmit_fetch endpoint z (ui w) Hv Hc Hne) in Hcalls.
      destruct Hcalls as [Hcalls Ha].
      exists z, endpoint. auto.
    + destruct Hstep as (_ & ->). simpl in Hafter. discriminate Hafter.
    + destruct Hstep as (_ & ->). simpl in Hafter.
      destruct (resume_leaves s (ui w)) as [[H|H] _]; congruence.
  - intros now endpoint -> Hne Hns Hv Hc.
    destruct (render_form (ui w) Hns) as (form & Hrender & _ & _ & _ & Hb & _).
    unfold step. rewrite Hrender, Hb.
    rewrite bool_decide_eq_false_2 by exact Hbefore.
    rewrite (handleSubmit_fetch endpoint now (ui w) Hv Hc Hne).
    eexists. split; reflexivity.
Qed.

Lemma entering_submitting_posts_witness :
  status (ui typed) <> submitting
  /\ step testEndpoint typed (Submit 1700000000000) = Some inFlight
  /\ status (ui inFlight) = submitting
  /\ exists now endpoint,
      Submit 1700000000000 = Submit now
      /\ testEndpoint = Some endpoint /\ endpoint <> []
      /\ calls inFlight = calls typed ++ [{|
           url := endpoint;
           method := "POST";
           headers := [("Content-Type", "application/json");
                       ("Accept", "application/json")];
           body := JS.stringifyObject
                     [("name", JS.trim (name (ui typed)));
                      ("email", JS.trim (email (ui typed)));
                      ("organization", JS.trim (organization (ui typed)));
                      ("role", role (ui typed));
                      ("message", JS.trim (message (ui typed)))] |}]
      /\ awaiting inFlight = true.
Proof.
  assert (H1 : status (ui typed) <> submitting) by discriminate.
  assert (H2 : step testEndpoint typed (Submit 1700000000000) = Some inFlight)
    by (vm_compute; reflexivity).
  assert (H3 : status (ui inFlight) = submitting) by reflexivity.
  split; [exact H1|]. split; [exact H2|]. split; [exact H3|].
  exact (proj1 (entering_submitting_posts testEndpoint typed H1)
           (Submit 1700000000000) inFlight H2 H3).
Defined.

(** ** Responses *)

Lemma ok_spec (r : Response) :
  ok r = true <-> 200 <= statusCode r <= 299.
Proof. unfold ok. rewrite andb_true_iff, !Z.leb_le. reflexivity. Qed.

Lemma settle_enabled (ep : option jsstring) (w : World)
      (fetched : settled Response) :
  awaiting w = true ->
  step ep w (Settle fetched)
  = Some {| ui := (handleSubmit_resume fetched (ui w)).2;
            calls := calls w; awaiting := false |}.
Proof.
  intros Ha. unfold step. rewrite Ha. destruct (render (ui w)); reflexivity.
Qed.

Lemma failsShowing_intro (ep : option jsstring) (w : World)
      (fetched : settled Response) (shown : JS.value) :
  awaiting w = true ->
  handleSubmit_resume fetched (ui w) =
  (Normal tt,
   {| status := error; errorMessage := shown;
      touched := touched (ui w); lastSubmitTime := lastSubmitTime (ui w);
      name := name (ui w); email := email (ui w);
      organization := organization (ui w); role := role (ui w);
      message := message (ui w) |}) ->
  failsShowing ep w fetched shown.
Proof.
  intros Ha E. unfold failsShowing.
  rewrite (settle_enabled ep w fetched Ha), E.
  eexists. split; [reflexivity|]. simpl.
  split; [reflexivity|]. split; [|auto].
  rewrite shownBanner_error; reflexivity.
Qed.

Lemma failsWith_intro (ep : option jsstring) (w : World)
      (fetched : settled Response) (text : jsstring) :
  awaiting w = true ->
  handleSubmit_resume fetched (ui w) =
  (Normal tt,
   {| status := error; errorMessage := JS.Str text;
      touched := touched (ui w); lastSubmitTime := lastSubmitTime (ui w);
      name := name (ui w); email := email (ui w);
      organization := organization (ui w); role := role (ui w);
      message := message (ui w) |}) ->
  failsWith ep w fetched text.
Proof. apply failsShowing_intro. Qed.

(** For a body of the expected shape, the access path of the handler
    arrives at the first message. *)
Lemma firstMessage_access (data : JS.value) (m : jsstring) :
  firstMessage data m -> firstErrorMessage data = Some (JS.Str m).
Proof.
  unfold firstMessage, specFirstMessage, firstErrorMessage.
  destruct data as [| | | | |props]; try discriminate.
  cbn [JS.optional JS.member].
  destruct (JS.property (JS.lit "errors") props) as [[| | | |items|]|];
    try discriminate.
  destruct items as [|[| | | | |first] rest]; try discriminate.
  cbn [JS.optional JS.item lookup list_lookup JS.member].
  destruct (JS.property (JS.lit "message") first) as [[| | |t| |]|];
    try discriminate.
  intros [= ->]. reflexivity.
Qed.

(** A body that has the type of the interface: its first message, if it
    has one, is a string, and the handler arrives at it. *)
Lemma typed_body_access (d : Formspree.ErrorResponse) :
  firstErrorMessage (Formspree.toJSON d)
  = match Formspree.errors d with
    | Some (e :: _) => Some (JS.Str (Formspree.message e))
    | _ => None
    end.
Proof. destruct d as [[[|[m] rest]|]]; reflexivity. Qed.

(** C3: when a response with a status from 200 to 299 arrives while the
    status is [submitting], the five fields are set to the empty string,
    the touched set is emptied and the status becomes [success]; "send
    another" then leads to [idle], the five fields still empty and no field
    touched. *)
Theorem success_clears_the_form (ep : option jsstring) (w : World) (r : Response) :
  reachable ep w ->
  status (ui w) = submitting ->
  200 <= statusCode r <= 299 ->
  exists w',
    step ep w (Settle (Fulfilled r)) = Some w'
    /\ status (ui w') = success
    /\ name (ui w') = [] /\ email (ui w') = [] /\ organization (ui w') = []
    /\ role (ui w') = [] /\ message (ui w') = []
    /\ touched (ui w') = ∅
    /\ exists w'',
        step ep w' SendAnother = Some w''
        /\ status (ui w'') = idle
        /\ name (ui w'') = [] /\ email (ui w'') = []
        /\ organization (ui w'') = [] /\ role (ui w'') = []
        /\ message (ui w'') = []
        /\ touched (ui w'') = ∅.
Proof.
  intros Hr Hs Hcode.
  apply reachable_consistent in Hr. apply Hr in Hs.
  apply ok_spec in Hcode.
  rewrite (settle_enabled ep w _ Hs), (resume_ok r (ui w) Hcode).
  eexists. split; [reflexivity|]. simpl.
  repeat (split; [reflexivity|]).
  eexists. split; [reflexivity|]. simpl. auto 10.
Qed.

Lemma success_clears_the_form_witness :
  reachable testEndpoint inFlight
  /\ status (ui inFlight) = submitting
  /\ 200 <= statusCode accepted <= 299
  /\ exists w',
      step testEndpoint inFlight (Settle (Fulfilled accepted)) = Some w'
      /\ status (ui w') = success.
Proof.
  assert (H2 : status (ui inFlight) = submitting) by reflexivity.
  assert (H3 : 200 <= statusCode accepted <= 299) by (simpl; lia).
  split; [exact inFlight_reachable|]. split; [exact H2|]. split; [exact H3|].
  destruct (success_clears_the_form testEndpoint inFlight accepted
              inFlight_reachable H2 H3) as (w' & Hstep & Hst & _).
  exists w'. split; [exact Hstep|exact Hst].
Defined.

(** C4, as written: the message shown for a rejected response is not
    always the one the specification names.  For a 500 response whose body
    is not JSON the component shows the network-error text, not the generic
    one; for a body whose first message is the empty string it shows the
    generic text, not that message. *)
Lemma rejection_message_as_written_fails :
  ok htmlErrorPage = false
  /\ errorMessage (handleSubmit_resume (Fulfilled htmlErrorPage) (ui inFlight)).2
     <> specRejectionMessage htmlErrorPage
  /\ ok emptyFirstMessage = false
  /\ errorMessage (handleSubmit_resume (Fulfilled emptyFirstMessage) (ui inFlight)).2
     <> specRejectionMessage emptyFirstMessage.
Proof.
  split; [reflexivity|]. split; [vm_compute; discriminate|].
  split; [reflexivity|]. vm_compute; discriminate.
Qed.

(** C4, as amended: when a response with a status outside 200 to 299
    arrives while the status is [submitting], the status becomes [error]
    and the five fields keep their values.  When the body is JSON, the
    banner gets the value of [data?.errors?.[0]?.message] if that value is
    truthy, whatever its type, and the generic text otherwise; so for a body
    of shape [{ errors: [{ message: string }, ...] }] it shows the first
    message when that is not empty and the generic text when it is empty,
    and for a body without [errors], with an empty array or with [null] it
    shows the generic text.  When the body is not JSON the banner shows the
    network-error text.  When the fetch itself fails the status becomes
    [error], the banner shows the network-error text and the fields keep
    their values. *)
Theorem rejection_shows_error (ep : option jsstring) (w : World) :
  reachable ep w ->
  status (ui w) = submitting ->
  (forall r data v,
      ok r = false -> json r = Fulfilled data ->
      firstErrorMessage data = Some v -> JS.toBoolean v = true ->
      failsShowing ep w (Fulfilled r) v)
  /\ (forall r data,
         ok r = false -> json r = Fulfilled data ->
         (forall v, firstErrorMessage data = Some v -> JS.toBoolean v = false) ->
         failsWith ep w (Fulfilled r)
           (JS.lit "Something went wrong. Please try again."))
  /\ (forall r data m,
         ok r = false -> json r = Fulfilled data ->
         firstMessage data m ->
         (m <> [] -> failsWith ep w (Fulfilled r) m)
         /\ (m = [] ->
             failsWith ep w (Fulfilled r)
               (JS.lit "Something went wrong. Please try again.")))
  /\ (forall r data,
         ok r = false -> json r = Fulfilled data ->
         data = JS.Null \/ data = JS.Object []
         \/ data = JS.Object [(JS.lit "errors", JS.Array [])] ->
         failsWith ep w (Fulfilled r)
           (JS.lit "Something went wrong. Please try again."))
  /\ (forall r,
         ok r = false -> json r = Rejected ->
         failsWith ep w (Fulfilled r)
           (JS.lit "Network error. Please check your connection and try again."))
  /\ failsWith ep w Rejected
       (JS.lit "Network error. Please check your connection and try again.").
Proof.
  intros Hr Hs. apply reachable_consistent in Hr. apply Hr in Hs.
  assert (Truthy : forall r data v,
             ok r = false -> json r = Fulfilled data ->
             firstErrorMessage data = Some v -> JS.toBoolean v = true ->
             failsShowing ep w (Fulfilled r) v).
  { intros r data v Hok Hj Hv Ht.
    apply failsShowing_intro; [exact Hs|].
    rewrite (resume_not_ok_json r _ (ui w) Hok Hj), Hv. simpl.
    rewrite Ht. reflexivity. }
  assert (Falsy : forall r data,
             ok r = false -> json r = Fulfilled data ->
             (forall v, firstErrorMessage data = Some v ->
                        JS.toBoolean v = false) ->
             failsWith ep w (Fulfilled r)
               (JS.lit "Something went wrong. Please try again.")).
  { intros r data Hok Hj Hnone.
    apply failsWith_intro; [exact Hs|].
    rewrite (resume_not_ok_json r _ (ui w) Hok Hj).
    destruct (firstErrorMessage data) as [v|] eqn:Hv; [|reflexivity].
    simpl. rewrite (Hnone v eq_refl). reflexivity. }
  split; [exact Truthy|]. split; [exact Falsy|].
  split; [|split; [|split]].
  - intros r data m Hok Hj Hm. apply firstMessage_access in Hm. split.
    + intros Hne. apply (Truthy r data _ Hok Hj Hm).
      destruct m; [congruence|reflexivity].
    + intros ->. apply (Falsy r data Hok Hj).
      intros v Hv. rewrite Hm in Hv. injection Hv as <-. reflexivity.
  - intros r data Hok Hj Hd. apply (Falsy r data Hok Hj).
    intros v Hv. destruct Hd as [-> | [-> | ->]]; discriminate Hv.
  - intros r Hok Hj.
    apply failsWith_intro; [exact Hs|].
    apply (resume_not_ok_unparsed r (ui w) Hok Hj).
  - apply failsWith_intro; [exact Hs|]. apply resume_rejected.
Qed.

Lemma rejection_shows_error_witness :
  reachable testEndpoint inFlight
  /\ status (ui inFlight) = submitting
  /\ failsWith testEndpoint inFlight (Fulfilled serverError)
       (JS.lit "Server error")
  /\ failsShowing testEndpoint inFlight (Fulfilled arrayFirstMessage)
       (JS.Array []).
Proof.
  assert (H2 : status (ui inFlight) = submitting) by reflexivity.
  split; [exact inFlight_reachable|]. split; [exact H2|].
  pose proof (rejection_shows_error testEndpoint inFlight
                inFlight_reachable H2) as (Truthy & _ & Shape & _).
  split.
  - refine (proj1 (Shape serverError _ (JS.lit "Server error")
                     eq_refl eq_refl eq_refl) _).
    discriminate.
  - exact (Truthy arrayFirstMessage _ (JS.Array []) eq_refl eq_refl
             eq_refl eq_refl).
Defined.

(** C10: when a response with a status outside 200 to 299 arrives while
    the status is [submitting] and its body cannot be parsed as JSON, the
    rejection of [response.json()] is caught by the handler's [catch]: the
    status becomes [error], the banner shows the network-error text, which
    is not the server-error fallback, and the five fields keep their
    values. *)
Theorem unparsed_rejection_is_network_error
        (ep : option jsstring) (w : World) (r : Response) :
  reachable ep w ->
  status (ui w) = submitting ->
  ok r = false ->
  json r = Rejected ->
  failsWith ep w (Fulfilled r)
    (JS.lit "Network error. Please check your connection and try again.")
  /\ handleSubmit_resume (Fulfilled r) (ui w)
     = handleSubmit_resume Rejected (ui w)
  /\ JS.lit "Network error. Please check your connection and try again."
     <> JS.lit "Something went wrong. Please try again.".
Proof.
  intros Hr Hs Hok Hj. apply reachable_consistent in Hr. apply Hr in Hs.
  split; [|split].
  - apply failsWith_intro; [exact Hs|].
    apply (resume_not_ok_unparsed r (ui w) Hok Hj).
  - rewrite (resume_not_ok_unparsed r (ui w) Hok Hj), resume_rejected.
    reflexivity.
  - vm_compute. discriminate.
Qed.

Lemma unparsed_rejection_is_network_error_witness :
  reachable testEndpoint inFlight
  /\ status (ui inFlight) = submitting
  /\ ok htmlErrorPage = false
  /\ json htmlErrorPage = Rejected
  /\ failsWith testEndpoint inFlight (Fulfilled htmlErrorPage)
       (JS.lit "Network error. Please check your connection and try again.").
Proof.
  assert (H2 : status (ui inFlight) = submitting) by reflexivity.
  assert (H3 : ok htmlErrorPage = false) by reflexivity.
  assert (H4 : json htmlErrorPage = Rejected) by reflexivity.
  split; [exact inFlight_reachable|]. split; [exact H2|].
  split; [exact H3|]. split; [exact H4|].
  exact (proj1 (unparsed_rejection_is_network_error testEndpoint inFlight
                  htmlErrorPage inFlight_reachable H2 H3 H4)).
Defined.

(** ** Touched fields *)

Lemma key_inj (f g : TextField) : key f = key g -> f = g.
Proof. destruct f, g; simpl; intros H; congruence. Qed.

Lemma shownError_touched (s : signals) (f : TextField) :
  touched s !! key f <> Some true -> shownError s f = None.
Proof.
  intros H. unfold shownError, render.
  destruct (decide (status s = success)); [reflexivity|]. simpl.
  unfold showError. destruct (touched s !! key f) as [[]|]; try reflexivity.
  congruence.
Qed.

(** A field is touched only after it was blurred or a submit was tried. *)
Lemma step_touched (ep : option jsstring) (w w' : World) (ev : Event)
      (f : TextField) :
  step ep w ev = Some w' ->
  touched (ui w') !! key f = Some true ->
  touched (ui w) !! key f = Some true
  \/ ev = Blur f \/ exists now, ev = Submit now.
Proof.
  intros Hstep Ht. apply step_inv in Hstep. destruct ev.
  - destruct Hstep as (_ & _ & ->). left. destruct t; exact Ht.
  - destruct Hstep as (_ & _ & ->). left. exact Ht.
  - destruct Hstep as (_ & ->). simpl in Ht.
    destruct (decide (key t = key f)) as [E|N].
    + right. left. apply key_inj in E. congruence.
    + left. rewrite lookup_insert_ne in Ht by exact N. exact Ht.
  - right. right. eauto.
  - destruct Hstep as (_ & ->). left. exact Ht.
  - destruct Hstep as (_ & ->). left. simpl in Ht. revert Ht.
    destruct s as [r|]; [|rewrite resume_rejected; simpl; auto].
    destruct (ok r) eqn:Hok.
    { rewrite (resume_ok r (ui w) Hok). simpl. rewrite lookup_empty.
      discriminate. }
    destruct (json r) as [data|] eqn:Hj.
    + rewrite (resume_not_ok_json r data (ui w) Hok Hj). simpl. auto.
    + rewrite (resume_not_ok_unparsed r (ui w) Hok Hj). simpl. auto.
Qed.

Lemma steps_touched (ep : option jsstring) (evs : list Event) (w w' : World)
      (f : TextField) :
  steps ep w evs = Some w' ->
  touched (ui w') !! key f = Some true ->
  touched (ui w) !! key f = Some true
  \/ exists ev, ev ∈ evs /\ (ev = Blur f \/ exists now, ev = Submit now).
Proof.
  revert w. induction evs as [|ev evs IH]; intros w; simpl.
  - intros [= <-] Ht. left. exact Ht.
  - destruct (step ep w ev) as [w1|] eqn:Hstep; [|discriminate].
    intros Hsteps Ht.
    destruct (IH w1 Hsteps Ht) as [H1|(ev' & Hin & Hev)].
    + destruct (step_touched ep w w1 ev f Hstep H1) as [H|H]; [left; exact H|].
      right. exists ev. split; [apply list_elem_of_here|exact H].
    + right. exists ev'. split; [apply list_elem_of_further, Hin|exact Hev].
Qed.

(** C8: a field that is not in the touched set shows no error, whatever
    its value; and in every world the component can reach, a field that
    shows an error is in the touched set, and it was blurred or a submit
    was tried on the way there (the submit handler writes all four fields
    into the touched set before it looks at anything else). *)
Theorem errors_show_on_touched_fields_only (ep : option jsstring) :
  (forall s f, touched s !! key f <> Some true -> shownError s f = None)
  /\ (forall evs w f e,
         steps ep boot evs = Some w ->
         shownError (ui w) f = Some e ->
         touched (ui w) !! key f = Some true
         /\ exists ev, ev ∈ evs /\ (ev = Blur f \/ exists now, ev = Submit now))
  /\ (forall now s f,
         touched (handleSubmit ep now s).2 !! key f = Some true).
Proof.
  split; [exact shownError_touched|]. split.
  - intros evs w f e Hsteps Hshown.
    assert (Ht : touched (ui w) !! key f = Some true).
    { destruct (decide (touched (ui w) !! key f = Some true)) as [H|H];
        [exact H|].
      rewrite (shownError_touched _ _ H) in Hshown. discriminate Hshown. }
    split; [exact Ht|].
    destruct (steps_touched ep evs boot w f Hsteps Ht) as [H|H]; [|exact H].
    simpl in H. rewrite lookup_empty in H. discriminate H.
  - intros now s f.
    destruct (handleSubmit_frame ep now s) as (_ & _ & _ & _ & _ & _ & ->).
    apply touched_all_lookup.
Qed.

(** * Further properties of the component *)

(** ** More on [trim] *)

Lemma trimStart_app_blank (a v : jsstring) :
  Forall (fun c => JS.is_white_space c = true) a ->
  JS.trimStart (a ++ v) = JS.trimStart v.
Proof.
  induction 1 as [|c a Hc _ IH]; simpl; [reflexivity|].
  rewrite Hc. exact IH.
Qed.

Lemma trimStart_nil_blank (v : jsstring) :
  JS.trimStart v = [] -> Forall (fun c => JS.is_white_space c = true) v.
Proof.
  induction v as [|c v IH]; simpl; [constructor|].
  destruct (JS.is_white_space c) eqn:Hc; [|discriminate].
  intros H. constructor; [exact Hc|apply IH, H].
Qed.

(** What [trimStart] leaves starts with a character that is not white
    space. *)
Lemma trimStart_head (v : jsstring) (c : N) (t : jsstring) :
  JS.trimStart v = c :: t -> JS.is_white_space c = false.
Proof.
  induction v as [|d v IH]; simpl; [discriminate|].
  destruct (JS.is_white_space d) eqn:Hd; [exact IH|].
  intros [= <- _]. exact Hd.
Qed.

Lemma trimStart_fixed (c : N) (t : jsstring) :
  JS.is_white_space c = false -> JS.trimStart (c :: t) = c :: t.
Proof. intros H. simpl. rewrite H. reflexivity. Qed.

Lemma trimStart_idem (v : jsstring) :
  JS.trimStart (JS.trimStart v) = JS.trimStart v.
Proof.
  destruct (JS.trimStart v) as [|c t] eqn:E; [reflexivity|].
  apply trimStart_fixed, (trimStart_head v c t E).
Qed.

Lemma trimStart_app (v b : jsstring) :
  JS.trimStart v <> [] -> JS.trimStart (v ++ b) = JS.trimStart v ++ b.
Proof.
  induction v as [|c v IH]; simpl; [congruence|].
  destruct (JS.is_white_space c); [exact IH|reflexivity].
Qed.

Lemma trimEnd_app_blank (v b : jsstring) :
  Forall (fun c => JS.is_white_space c = true) b ->
  JS.trimEnd (v ++ b) = JS.trimEnd v.
Proof.
  intros Hb. unfold JS.trimEnd. rewrite rev_app_distr.
  rewrite trimStart_app_blank; [reflexivity|].
  apply List.Forall_rev, Hb.
Qed.

Lemma trimEnd_nil : JS.trimEnd [] = [].
Proof. reflexivity. Qed.

(** White space around a value does not change what [trim] returns. *)
Lemma trim_padding (a v b : jsstring) :
  Forall (fun c => JS.is_white_space c = true) a ->
  Forall (fun c => JS.is_white_space c = true) b ->
  JS.trim (a ++ v ++ b) = JS.trim v.
Proof.
  intros Ha Hb. unfold JS.trim. rewrite (trimStart_app_blank a _ Ha).
  destruct (JS.trimStart v) as [|c t] eqn:E.
  - apply trimStart_nil_blank in E.
    rewrite trimStart_blank; [reflexivity|].
    apply Forall_app. split; assumption.
  - rewrite trimStart_app by (rewrite E; discriminate).
    rewrite E. apply trimEnd_app_blank, Hb.
Qed.

(** A suffix of [x ++ [c]] that [trimStart] leaves still ends in [c] when
    [c] is not white space. *)
Lemma trimStart_keeps_last (x : jsstring) (c : N) :
  JS.is_white_space c = false ->
  exists y, JS.trimStart (x ++ [c]) = y ++ [c].
Proof.
  intros Hc. induction x as [|d x IH]; simpl.
  - rewrite Hc. exists []. reflexivity.
  - destruct (JS.is_white_space d); [exact IH|].
    exists (d :: x). reflexivity.
Qed.

(** [trim] returns a value with no white space at either end. *)
Lemma trim_tight (v : jsstring) :
  JS.trimStart (JS.trim v) = JS.trim v /\ JS.trimEnd (JS.trim v) = JS.trim v.
Proof.
  unfold JS.trim. set (u := JS.trimStart v). split.
  - destruct u as [|c t] eqn:E; [reflexivity|].
    pose proof (trimStart_head v c t E) as Hc.
    unfold JS.trimEnd. simpl rev.
    destruct (trimStart_keeps_last (rev t) c Hc) as [y ->].
    rewrite rev_app_distr. simpl. rewrite Hc. reflexivity.
  - unfold JS.trimEnd. rewrite rev_involutive, trimStart_idem. reflexivity.
Qed.

Lemma trim_idem (v : jsstring) : JS.trim (JS.trim v) = JS.trim v.
Proof.
  destruct (trim_tight v) as [Hs He].
  unfold JS.trim at 1. rewrite Hs. exact He.
Qed.

Lemma trimStart_length (v : jsstring) :
  (List.length (JS.trimStart v) <= List.length v)%nat.
Proof.
  induction v as [|c v IH]; simpl; [lia|].
  destruct (JS.is_white_space c); simpl; lia.
Qed.

Lemma trim_length (v : jsstring) : JS.length (JS.trim v) <= JS.length v.
Proof.
  unfold JS.length, JS.trim, JS.trimEnd.
  rewrite length_rev.
  pose proof (trimStart_length (rev (JS.trimStart v))) as H1.
  rewrite length_rev in H1.
  pose proof (trimStart_length v) as H2. lia.
Qed.

(** A value without white space is its own trimmed value. *)
Lemma trim_no_space (v : jsstring) :
  Forall (fun c => JS.is_white_space c = false) v -> JS.trim v = v.
Proof.
  intros H.
  assert (Hs : forall u, Forall (fun c => JS.is_white_space c = false) u ->
                         JS.trimStart u = u).
  { intros [|c u] Hu; [reflexivity|].
    apply trimStart_fixed. inversion Hu; assumption. }
  unfold JS.trim, JS.trimEnd. rewrite (Hs v H).
  rewrite Hs; [apply rev_involutive|].
  apply List.Forall_rev, H.
Qed.

(** ** Code points and code units *)

Lemma codePoints_pair (c d : N) (rest : jsstring) :
  JS.is_lead c && JS.is_trail d = true ->
  JS.codePoints (c :: d :: rest)
  = (0x10000 + (c - 0xD800) * 0x400 + (d - 0xDC00))%N :: JS.codePoints rest.
Proof. intros H. simpl. rewrite H. reflexivity. Qed.

Lemma codePoints_single (c d : N) (rest : jsstring) :
  JS.is_lead c && JS.is_trail d = false ->
  JS.codePoints (c :: d :: rest) = c :: JS.codePoints (d :: rest).
Proof. intros H. simpl. rewrite H. reflexivity. Qed.

(** Induction along the way [codePoints] reads a string. *)
Lemma codePoints_induction (P : jsstring -> Prop) :
  P [] ->
  (forall c, P [c]) ->
  (forall c d rest,
      JS.is_lead c && JS.is_trail d = true -> P rest -> P (c :: d :: rest)) ->
  (forall c d rest,
      JS.is_lead c && JS.is_trail d = false -> P (d :: rest) ->
      P (c :: d :: rest)) ->
  forall s, P s.
Proof.
  intros Hnil Hone Hpair Hsingle s.
  assert (H : forall n (u : jsstring), (List.length u <= n)%nat -> P u).
  { induction n as [|n IH]; intros u Hu.
    - destruct u; [exact Hnil|simpl in Hu; lia].
    - destruct u as [|c [|d rest]]; [exact Hnil|apply Hone|].
      simpl in Hu.
      destruct (JS.is_lead c && JS.is_trail d) eqn:E.
      + apply Hpair; [exact E|]. apply IH. lia.
      + apply Hsingle; [exact E|]. apply IH. simpl. lia. }
  apply (H (List.length s)). lia.
Qed.

Lemma surrogate_range (c d : N) :
  JS.is_lead c && JS.is_trail d = true ->
  (0xD800 <= c <= 0xDBFF /\ 0xDC00 <= d <= 0xDFFF)%N.
Proof.
  unfold JS.is_lead, JS.is_trail.
  rewrite !andb_true_iff, !N.leb_le. tauto.
Qed.

Lemma white_space_below_surrogates (c : N) :
  JS.is_white_space c = true -> (c < 0xD800 \/ c = 0xFEFF)%N.
Proof.
  unfold JS.is_white_space.
  rewrite !orb_true_iff, andb_true_iff, !N.eqb_eq, !N.leb_le. lia.
Qed.

Lemma codePoints_length (s : jsstring) :
  (List.length (JS.codePoints s) <= List.length s)%nat.
Proof.
  induction s as [| |c d rest E IH|c d rest E IH] using codePoints_induction.
  - simpl. lia.
  - simpl. lia.
  - rewrite (codePoints_pair c d rest E). simpl. lia.
  - rewrite (codePoints_single c d rest E). simpl in *. lia.
Qed.

(** A code unit outside the surrogate range is a code point of the string
    exactly as often as it is a code unit of it. *)
Lemma codePoints_count (x : N) (s : jsstring) :
  (x < 0xD800)%N ->
  count_occ N.eq_dec (JS.codePoints s) x = count_occ N.eq_dec s x.
Proof.
  intros Hx.
  induction s as [| |c d rest E IH|c d rest E IH] using codePoints_induction.
  - reflexivity.
  - reflexivity.
  - rewrite (codePoints_pair c d rest E).
    apply surrogate_range in E as [Hc Hd].
    rewrite !count_occ_cons_neq by lia. exact IH.
  - rewrite (codePoints_single c d rest E).
    destruct (N.eq_dec c x) as [->|Hne].
    + rewrite !count_occ_cons_eq by reflexivity. rewrite IH. reflexivity.
    + rewrite !count_occ_cons_neq by exact Hne. exact IH.
Qed.

(** A string whose code points hold no white space holds no white space
    code unit. *)
Lemma codePoints_no_space (s : jsstring) :
  Forall (fun c => JS.is_white_space c = false) (JS.codePoints s) ->
  Forall (fun c => JS.is_white_space c = false) s.
Proof.
  assert (Hsur : forall c, (0xD800 <= c <= 0xDFFF)%N ->
                           JS.is_white_space c = false).
  { intros c Hc. destruct (JS.is_white_space c) eqn:E; [|reflexivity].
    apply white_space_below_surrogates in E. lia. }
  induction s as [| |c d rest E IH|c d rest E IH] using codePoints_induction.
  - constructor.
  - simpl. auto.
  - rewrite (codePoints_pair c d rest E). intros H.
    apply surrogate_range in E as [Hc Hd].
    inversion H; subst.
    constructor; [apply Hsur; lia|]. constructor; [apply Hsur; lia|]. auto.
  - rewrite (codePoints_single c d rest E). intros H.
    inversion H; subst. constructor; auto.
Qed.

(** ** What an accepted address looks like *)

Lemma notSpaceNorAt_spec (c : N) :
  notSpaceNorAt c = true <-> JS.is_white_space c = false /\ c <> 0x40%N.
Proof.
  unfold notSpaceNorAt. rewrite negb_true_iff, orb_false_iff, N.eqb_neq.
  reflexivity.
Qed.

Lemma count_none (l : list N) :
  Forall (fun c => notSpaceNorAt c = true) l ->
  count_occ N.eq_dec l 0x40%N = 0%nat.
Proof.
  induction 1 as [|c l Hc _ IH]; [reflexivity|].
  apply notSpaceNorAt_spec in Hc as [_ Hc].
  rewrite count_occ_cons_neq by exact Hc. exact IH.
Qed.

Lemma no_space_of_class (l : list N) :
  Forall (fun c => notSpaceNorAt c = true) l ->
  Forall (fun c => JS.is_white_space c = false) l.
Proof.
  intros H. eapply Forall_impl; [exact H|].
  intros c Hc. apply notSpaceNorAt_spec in Hc. tauto.
Qed.

Lemma emailPattern_facts (text : list N) :
  EmailPattern text ->
  Forall (fun c => JS.is_white_space c = false) text
  /\ count_occ N.eq_dec text 0x40%N = 1%nat
  /\ (6 <= List.length text)%nat.
Proof.
  intros (l & d & t & -> & Hl1 & Hl2 & Hd1 & Hd2 & Ht1 & Ht2).
  split; [|split].
  - repeat (apply Forall_app; split); try (apply no_space_of_class; assumption);
      repeat constructor.
  - rewrite !count_occ_app, (count_none l Hl2), (count_none d Hd2),
      (count_none t Ht2). reflexivity.
  - rewrite !length_app. simpl.
    destruct l; [congruence|]. destruct d; [congruence|]. simpl. lia.
Qed.

(** X1: an address that [validateEmail] accepts holds no white space and
    exactly one [@], is at least six code units long, and is its own
    trimmed value. *)
Theorem accepted_address_is_tight (v : jsstring) :
  validateEmail v = true ->
  Forall (fun c => JS.is_white_space c = false) v
  /\ count_occ N.eq_dec v 0x40%N = 1%nat
  /\ 6 <= JS.length v
  /\ JS.trim v = v.
Proof.
  intros H. apply validateEmail_spec, emailPattern_facts in H
    as (Hspace & Hat & Hlen).
  apply codePoints_no_space in Hspace.
  split; [exact Hspace|]. split.
  - rewrite <- (codePoints_count 0x40 v) by lia. exact Hat.
  - split; [|apply trim_no_space, Hspace].
    unfold JS.length. pose proof (codePoints_length v). lia.
Qed.

Lemma accepted_address_is_tight_witness :
  validateEmail (JS.lit "john@example.com") = true
  /\ JS.trim (JS.lit "john@example.com") = JS.lit "john@example.com".
Proof.
  assert (H : validateEmail (JS.lit "john@example.com") = true)
    by (vm_compute; reflexivity).
  split; [exact H|].
  exact (proj2 (proj2 (proj2 (accepted_address_is_tight _ H)))).
Defined.

(** ** What validation and submission depend on *)

(** The handler reads the text fields through [trim] only: two states with
    the same memo [errors], timestamp, role and trimmed fields make it
    return the same request. *)
Lemma handleSubmit_reads_trimmed (ep : option jsstring) (now : Z)
      (s1 s2 : signals) :
  errors s1 = errors s2 ->
  lastSubmitTime s1 = lastSubmitTime s2 ->
  JS.trim (name s1) = JS.trim (name s2) ->
  JS.trim (email s1) = JS.trim (email s2) ->
  JS.trim (organization s1) = JS.trim (organization s2) ->
  role s1 = role s2 ->
  JS.trim (message s1) = JS.trim (message s2) ->
  (handleSubmit ep now s1).1 = (handleSubmit ep now s2).1
  /\ (status s1 = status s2 ->
      status (handleSubmit ep now s1).2 = status (handleSubmit ep now s2).2)
  /\ (errorMessage s1 = errorMessage s2 ->
      errorMessage (handleSubmit ep now s1).2
      = errorMessage (handleSubmit ep now s2).2).
Proof.
  intros He Ht Hn Hm Ho Hr Hg.
  assert (Hv : isValid s1 = isValid s2) by (unfold isValid; rewrite He; reflexivity).
  destruct (isValid s2) eqn:Hv2.
  - destruct (Z.ltb_spec (now - lastSubmitTime s2) RATE_LIMIT_COOLDOWN_MS) as [Hc|Hc].
    + rewrite (handleSubmit_cooldown ep now s2 Hv2 Hc).
      rewrite <- Ht in Hc.
      rewrite (handleSubmit_cooldown ep now s1 Hv Hc). simpl.
      rewrite Ht. auto.
    + destruct ep as [[|c e]|].
      * rewrite (handleSubmit_unconfigured _ now s2 Hv2 Hc (or_intror eq_refl)).
        rewrite <- Ht in Hc.
        rewrite (handleSubmit_unconfigured _ now s1 Hv Hc (or_intror eq_refl)).
        simpl. auto.
      * rewrite (handleSubmit_fetch (c :: e) now s2 Hv2 Hc ltac:(discriminate)).
        rewrite <- Ht in Hc.
        rewrite (handleSubmit_fetch (c :: e) now s1 Hv Hc ltac:(discriminate)).
        simpl. rewrite Hn, Hm, Ho, Hr, Hg. auto.
      * rewrite (handleSubmit_unconfigured _ now s2 Hv2 Hc (or_introl eq_refl)).
        rewrite <- Ht in Hc.
        rewrite (handleSubmit_unconfigured _ now s1 Hv Hc (or_introl eq_refl)).
        simpl. auto.
  - rewrite (handleSubmit_invalid ep now s2 Hv2),
      (handleSubmit_invalid ep now s1 Hv). simpl. auto.
Qed.

(** X2: white space typed before or after the value of a text field
    changes neither the memo [errors] nor the outcome of a submit: the same
    request (or none), the same status and the same message. *)
Theorem padding_is_ignored (ep : option jsstring) (now : Z) (s : signals)
        (f : TextField) (a v b : jsstring) :
  Forall (fun c => JS.is_white_space c = true) a ->
  Forall (fun c => JS.is_white_space c = true) b ->
  let padded := (setField f (a ++ v ++ b) s).2 in
  let plain := (setField f v s).2 in
  errors padded = errors plain
  /\ isValid padded = isValid plain
  /\ (handleSubmit ep now padded).1 = (handleSubmit ep now plain).1
  /\ status (handleSubmit ep now padded).2 = status (handleSubmit ep now plain).2
  /\ errorMessage (handleSubmit ep now padded).2
     = errorMessage (handleSubmit ep now plain).2.
Proof.
  intros Ha Hb padded plain. subst padded plain.
  pose proof (trim_padding a v b Ha Hb) as Ht.
  assert (He : errors (setField f (a ++ v ++ b) s).2 = errors (setField f v s).2).
  { destruct f; unfold errors; simpl; rewrite Ht; reflexivity. }
  split; [exact He|].
  split; [unfold isValid; rewrite He; reflexivity|].
  destruct (handleSubmit_reads_trimmed ep now
              (setField f (a ++ v ++ b) s).2 (setField f v s).2)
    as (H1 & H2 & H3); try exact He;
    try (destruct f; simpl; first [reflexivity | exact Ht]).
  split; [exact H1|].
  split; [apply H2|apply H3]; destruct f; reflexivity.
Qed.

Lemma padding_is_ignored_witness :
  Forall (fun c => JS.is_white_space c = true) (JS.lit "  ")
  /\ Forall (fun c => JS.is_white_space c = true) [0x0A%N]
  /\ (handleSubmit testEndpoint 1700000000000
        (setField Name (JS.lit "  " ++ JS.lit "John Doe" ++ [0x0A%N]) johnDoe).2).1
     = (handleSubmit testEndpoint 1700000000000
          (setField Name (JS.lit "John Doe") johnDoe).2).1.
Proof.
  assert (Ha : Forall (fun c => JS.is_white_space c = true) (JS.lit "  "))
    by (repeat constructor).
  assert (Hb : Forall (fun c => JS.is_white_space c = true) [0x0A%N])
    by (repeat constructor).
  split; [exact Ha|]. split; [exact Hb|].
  exact (proj1 (proj2 (proj2
           (padding_is_ignored testEndpoint 1700000000000 johnDoe Name
              (JS.lit "  ") (JS.lit "John Doe") [0x0A%N] Ha Hb)))).
Defined.

(** ** Showing errors *)

(** Every text the memo [errors] holds is non-empty, so the paragraph under
    a touched field is rendered whenever the memo has its key. *)
Lemma errors_truthy (s : signals) (k : string) (t : jsstring) :
  errors s !! k = Some t -> JS.truthy t = true.
Proof.
  destruct (decide (k = "name")) as [->|N1].
  { rewrite errors_name.
    repeat match goal with
           | |- context [if ?c then _ else _] => destruct c
           end; intros [= <-]; reflexivity. }
  destruct (decide (k = "email")) as [->|N2].
  { rewrite errors_email.
    repeat match goal with
           | |- context [if ?c then _ else _] => destruct c
           end; intros [= <-]; reflexivity. }
  destruct (decide (k = "organization")) as [->|N3].
  { rewrite errors_organization.
    repeat match goal with
           | |- context [if ?c then _ else _] => destruct c
           end; intros [= <-]; reflexivity. }
  destruct (decide (k = "message")) as [->|N4].
  { rewrite errors_message.
    repeat match goal with
           | |- context [if ?c then _ else _] => destruct c
           end; intros [= <-]; reflexivity. }
  rewrite (errors_other s k N1 N2 N3 N4). discriminate.
Qed.

Lemma shownError_of_touched (s : signals) (f : TextField) :
  status s <> success ->
  touched s !! key f = Some true ->
  shownError s f = errors s !! key f.
Proof.
  intros Hs Ht. unfold shownError, render.
  rewrite decide_False by exact Hs. simpl.
  unfold showError. rewrite Ht.
  destruct (errors s !! key f) as [t|] eqn:E; [|reflexivity].
  simpl. rewrite (errors_truthy s _ t E). reflexivity.
Qed.

Lemma invalid_has_error (s : signals) :
  isValid s = false -> exists f t, errors s !! key f = Some t.
Proof.
  intros Hv.
  destruct (errors s !! "name") as [t|] eqn:E1; [exists Name, t; exact E1|].
  destruct (errors s !! "email") as [t|] eqn:E2; [exists Email, t; exact E2|].
  destruct (errors s !! "organization") as [t|] eqn:E3;
    [exists Organization, t; exact E3|].
  destruct (errors s !! "message") as [t|] eqn:E4; [exists Message, t; exact E4|].
  assert (H : isValid s = true) by (apply isValid_spec; auto).
  congruence.
Qed.

(** X3: a submit of a form that is not valid makes no request and writes
    neither the status, the message nor the timestamp; afterwards every
    field shows exactly the text the memo [errors] holds for it, and at
    least one field shows one. *)
Theorem invalid_submit_shows_every_error
        (ep : option jsstring) (now : Z) (s : signals) :
  isValid s = false ->
  status s <> success ->
  (handleSubmit ep now s).1 = Normal None
  /\ status (handleSubmit ep now s).2 = status s
  /\ errorMessage (handleSubmit ep now s).2 = errorMessage s
  /\ lastSubmitTime (handleSubmit ep now s).2 = lastSubmitTime s
  /\ (forall f, shownError (handleSubmit ep now s).2 f = errors s !! key f)
  /\ (exists f t, shownError (handleSubmit ep now s).2 f = Some t)
  /\ (forall w w', ui w = s -> step ep w (Submit now) = Some w' ->
                   calls w' = calls w /\ awaiting w' = awaiting w).
Proof.
  intros Hv Hs. pose proof (handleSubmit_invalid ep now s Hv) as E.
  assert (Hshown : forall f,
             shownError (handleSubmit ep now s).2 f = errors s !! key f).
  { intros f. rewrite E. simpl.
    rewrite shownError_of_touched; [reflexivity|exact Hs|].
    apply touched_all_lookup. }
  split; [rewrite E; reflexivity|].
  split; [rewrite E; reflexivity|].
  split; [rewrite E; reflexivity|].
  split; [rewrite E; reflexivity|].
  split; [exact Hshown|].
  split.
  - destruct (invalid_has_error s Hv) as (f & t & Hf).
    exists f, t. rewrite Hshown. exact Hf.
  - intros w w' <- Hstep. apply step_inv in Hstep.
    destruct Hstep as (_ & _ & _ & Hcalls). rewrite E in Hcalls. exact Hcalls.
Qed.

Lemma invalid_submit_shows_every_error_witness :
  isValid mount = false
  /\ status mount <> success
  /\ shownError (handleSubmit testEndpoint 1700000000000 mount).2 Name
     = Some (JS.lit "Name is required").
Proof.
  assert (Hv : isValid mount = false) by (vm_compute; reflexivity).
  assert (Hs : status mount <> success) by discriminate.
  split; [exact Hv|]. split; [exact Hs|].
  exact (proj1 (proj2 (proj2 (proj2 (proj2
           (invalid_submit_shows_every_error testEndpoint 1700000000000
              mount Hv Hs))))) Name).
Defined.

(** X4: leaving a field marks that field and no other: afterwards the
    field shows the text the memo [errors] holds for it, every other field
    shows what it showed before, and the draft, the status and the memo
    are as they were. *)
Theorem blur_shows_that_field_only (s : signals) (f : TextField) :
  status s <> success ->
  shownError (markTouched (key f) s).2 f = errors s !! key f
  /\ (forall g, g <> f ->
         shownError (markTouched (key f) s).2 g = shownError s g)
  /\ errors (markTouched (key f) s).2 = errors s
  /\ status (markTouched (key f) s).2 = status s
  /\ (forall g, fieldValue g (markTouched (key f) s).2 = fieldValue g s)
  /\ role (markTouched (key f) s).2 = role s.
Proof.
  intros Hs. split; [|split; [|repeat split]].
  - rewrite shownError_of_touched; [reflexivity|exact Hs|].
    simpl. apply lookup_insert_eq.
  - intros g Hg. unfold shownError, render. simpl.
    destruct (decide (status s = success)); [reflexivity|]. simpl.
    unfold showError. simpl.
    rewrite lookup_insert_ne; [reflexivity|].
    intros E. apply key_inj in E. congruence.
Qed.

Lemma blur_shows_that_field_only_witness :
  status mount <> success
  /\ shownError (markTouched (key Name) mount).2 Name
     = Some (JS.lit "Name is required")
  /\ shownError (markTouched (key Name) mount).2 Email = None.
Proof.
  assert (Hs : status mount <> success) by discriminate.
  split; [exact Hs|]. split.
  - exact (proj1 (blur_shows_that_field_only mount Name Hs)).
  - exact (proj1 (proj2 (blur_shows_that_field_only mount Name Hs)) Email
             ltac:(discriminate)).
Defined.

(** ** Steps, read for whole runs *)

(** The four ways a submit can go, with everything it writes. *)
Lemma submit_step (ep : option jsstring) (w w' : World) (now : Z) :
  step ep w (Submit now) = Some w' ->
  status (ui w) <> success /\ status (ui w) <> submitting
  /\ draft (ui w') = draft (ui w)
  /\ ((isValid (ui w) = false
       /\ calls w' = calls w /\ awaiting w' = awaiting w
       /\ status (ui w') = status (ui w)
       /\ errorMessage (ui w') = errorMessage (ui w)
       /\ lastSubmitTime (ui w') = lastSubmitTime (ui w))
      \/ (isValid (ui w) = true
          /\ now - lastSubmitTime (ui w) < RATE_LIMIT_COOLDOWN_MS
          /\ calls w' = calls w /\ awaiting w' = awaiting w
          /\ status (ui w') = error
          /\ JS.toBoolean (errorMessage (ui w')) = true
          /\ lastSubmitTime (ui w') = lastSubmitTime (ui w))
      \/ (isValid (ui w) = true
          /\ RATE_LIMIT_COOLDOWN_MS <= now - lastSubmitTime (ui w)
          /\ (ep = None \/ ep = Some [])
          /\ calls w' = calls w /\ awaiting w' = awaiting w
          /\ status (ui w') = error
          /\ JS.toBoolean (errorMessage (ui w')) = true
          /\ lastSubmitTime (ui w') = now)
      \/ (isValid (ui w) = true
          /\ RATE_LIMIT_COOLDOWN_MS <= now - lastSubmitTime (ui w)
          /\ (exists endpoint,
                 ep = Some endpoint /\ endpoint <> []
                 /\ calls w' = calls w ++ [requestOf endpoint (ui w)])
          /\ awaiting w' = true
          /\ status (ui w') = submitting
          /\ lastSubmitTime (ui w') = now)).
Proof.
  intros Hstep. apply step_inv in Hstep.
  destruct Hstep as (Hs1 & Hs2 & Hui & Hcalls).
  split; [exact Hs1|]. split; [exact Hs2|].
  rewrite Hui. clear Hui.
  destruct (isValid (ui w)) eqn:Hv.
  - destruct (Z.ltb_spec (now - lastSubmitTime (ui w)) RATE_LIMIT_COOLDOWN_MS)
      as [Hc|Hc].
    + rewrite (handleSubmit_cooldown ep now (ui w) Hv Hc) in *.
      destruct Hcalls as [Hcalls Ha].
      split; [reflexivity|]. right. left. simpl.
      repeat (split; [assumption || reflexivity || discriminate|]).
      reflexivity.
    + destruct ep as [[|c e]|].
      * rewrite (handleSubmit_unconfigured _ now (ui w) Hv Hc
                   (or_intror eq_refl)) in *.
        destruct Hcalls as [Hcalls Ha].
        split; [reflexivity|]. right. right. left. simpl.
        repeat (split; [assumption || reflexivity || discriminate || auto|]).
        reflexivity.
      * rewrite (handleSubmit_fetch (c :: e) now (ui w) Hv Hc
                   ltac:(discriminate)) in *.
        destruct Hcalls as [Hcalls Ha].
        split; [reflexivity|]. right. right. right. simpl.
        split; [reflexivity|]. split; [exact Hc|].
        split; [|auto].
        exists (c :: e). split; [reflexivity|]. split; [discriminate|exact Hcalls].
      * rewrite (handleSubmit_unconfigured _ now (ui w) Hv Hc
                   (or_introl eq_refl)) in *.
        destruct Hcalls as [Hcalls Ha].
        split; [reflexivity|]. right. right. left. simpl.
        repeat (split; [assumption || reflexivity || discriminate || auto|]).
        reflexivity.
  - rewrite (handleSubmit_invalid ep now (ui w) Hv) in *.
    destruct Hcalls as [Hcalls Ha].
    split; [reflexivity|]. left. simpl. auto 10.
Qed.

(** Every event but a submit leaves the list of calls and the timestamp as
    they are. *)
Lemma quiet_step (ep : option jsstring) (w w' : World) (ev : Event) :
  step ep w ev = Some w' ->
  (forall now, ev <> Submit now) ->
  calls w' = calls w
  /\ lastSubmitTime (ui w') = lastSubmitTime (ui w).
Proof.
  intros Hstep Hev. apply step_inv in Hstep. destruct ev.
  - destruct Hstep as (_ & _ & ->). destruct t; auto.
  - destruct Hstep as (_ & _ & ->). auto.
  - destruct Hstep as (_ & ->). auto.
  - destruct (Hev z eq_refl).
  - destruct Hstep as (_ & ->). auto.
  - destruct Hstep as (_ & ->). simpl. split; [reflexivity|].
    apply resume_leaves.
Qed.

(** What the continuation does to the draft and to the message. *)
Lemma resume_effect (fetched : settled Response) (s : signals) :
  match fetched with
  | Fulfilled r =>
      if ok r
      then status (handleSubmit_resume fetched s).2 = success
           /\ draft (handleSubmit_resume fetched s).2 = [[]; []; []; []; []]
           /\ touched (handleSubmit_resume fetched s).2 = ∅
      else status (handleSubmit_resume fetched s).2 = error
           /\ draft (handleSubmit_resume fetched s).2 = draft s
           /\ touched (handleSubmit_resume fetched s).2 = touched s
           /\ JS.toBoolean (errorMessage (handleSubmit_resume fetched s).2) = true
  | Rejected =>
      status (handleSubmit_resume fetched s).2 = error
      /\ draft (handleSubmit_resume fetched s).2 = draft s
      /\ touched (handleSubmit_resume fetched s).2 = touched s
      /\ JS.toBoolean (errorMessage (handleSubmit_resume fetched s).2) = true
  end.
Proof.
  destruct fetched as [r|].
  - destruct (ok r) eqn:Hok.
    + rewrite (resume_ok r s Hok). auto.
    + destruct (json r) as [data|] eqn:Hj.
      * rewrite (resume_not_ok_json r data s Hok Hj). simpl.
        repeat (split; [reflexivity|]).
        destruct (firstErrorMessage data) as [v|]; [|reflexivity].
        simpl. destruct (JS.toBoolean v) eqn:Hv; [exact Hv|reflexivity].
      * rewrite (resume_not_ok_unparsed r s Hok Hj). simpl.
        repeat (split; [reflexivity|]). reflexivity.
  - rewrite resume_rejected. simpl.
    repeat (split; [reflexivity|]). reflexivity.
Qed.

(** ** The draft *)

(** X5: a step changes the draft only if the user types into a field or
    chooses a role, or if a response that is [ok] arrives, which empties
    all five fields; leaving a field, submitting (whatever comes of it),
    "send another", a failed fetch and a response that is not [ok] leave
    every field as it is. *)
Theorem draft_changes_by_typing_or_success_only
        (ep : option jsstring) (w w' : World) (ev : Event) :
  step ep w ev = Some w' ->
  match ev with
  | Input f v =>
      fieldValue f (ui w') = v
      /\ (forall g, g <> f -> fieldValue g (ui w') = fieldValue g (ui w))
      /\ role (ui w') = role (ui w)
  | ChangeRole v =>
      role (ui w') = v
      /\ forall g, fieldValue g (ui w') = fieldValue g (ui w)
  | Settle (Fulfilled r) =>
      if ok r then draft (ui w') = [[]; []; []; []; []]
      else draft (ui w') = draft (ui w)
  | Blur _ | Submit _ | SendAnother | Settle Rejected =>
      draft (ui w') = draft (ui w)
  end.
Proof.
  intros Hstep. destruct ev.
  - apply step_inv in Hstep as (_ & _ & ->).
    split; [destruct t; reflexivity|]. split; [|destruct t; reflexivity].
    intros g Hg. destruct t, g; try reflexivity; congruence.
  - apply step_inv in Hstep as (_ & _ & ->).
    split; [reflexivity|]. intros g. destruct g; reflexivity.
  - apply step_inv in Hstep as (_ & ->). reflexivity.
  - apply submit_step in Hstep as (_ & _ & H & _). exact H.
  - apply step_inv in Hstep as (_ & ->). reflexivity.
  - apply step_inv in Hstep as (_ & ->). simpl.
    pose proof (resume_effect s (ui w)) as H. destruct s as [r|].
    + destruct (ok r); tauto.
    + tauto.
Qed.

Lemma draft_changes_by_typing_or_success_only_witness :
  step testEndpoint inFlight (Settle (Fulfilled htmlErrorPage))
  = Some {| ui := (handleSubmit_resume (Fulfilled htmlErrorPage)
                     (ui inFlight)).2;
            calls := calls inFlight; awaiting := false |}
  /\ draft (handleSubmit_resume (Fulfilled htmlErrorPage) (ui inFlight)).2
     = draft (ui inFlight).
Proof.
  assert (H : step testEndpoint inFlight (Settle (Fulfilled htmlErrorPage))
              = Some {| ui := (handleSubmit_resume (Fulfilled htmlErrorPage)
                                 (ui inFlight)).2;
                        calls := calls inFlight; awaiting := false |})
    by reflexivity.
  split; [exact H|].
  exact (draft_changes_by_typing_or_success_only testEndpoint inFlight _
           (Settle (Fulfilled htmlErrorPage)) H).
Defined.

(** ** One request at a time *)

(** X6: in every world the component can reach, a fetch is awaited
    exactly while the status is [submitting], and a step that makes a
    fetch call starts from a world where none is awaited: two requests are
    never in flight together. *)
Theorem one_request_at_a_time (ep : option jsstring) (w : World) :
  reachable ep w ->
  (awaiting w = true <-> status (ui w) = submitting)
  /\ (forall ev w',
         step ep w ev = Some w' ->
         calls w' <> calls w ->
         awaiting w = false /\ awaiting w' = true
         /\ exists request, calls w' = calls w ++ [request]).
Proof.
  intros Hr. pose proof (reachable_consistent ep w Hr) as Hc.
  split; [exact Hc|].
  intros ev w' Hstep Hcalls.
  destruct ev as [f v|v|f|now| |fetched];
    try (destruct (quiet_step ep w w' _ Hstep ltac:(discriminate)) as [E _];
         congruence).
  apply submit_step in Hstep
    as (_ & Hns & _ & [H|[H|[H|(_ & _ & (endpoint & _ & _ & E) & Ha & _)]]]);
    try (exfalso; apply Hcalls; tauto).
  split; [|split; [exact Ha|eauto]].
  destruct (awaiting w) eqn:Haw; [|reflexivity].
  exfalso. apply Hns, Hc. exact Haw.
Qed.

Lemma one_request_at_a_time_witness :
  reachable testEndpoint inFlight
  /\ (awaiting inFlight = true <-> status (ui inFlight) = submitting).
Proof.
  split; [exact inFlight_reachable|].
  exact (proj1 (one_request_at_a_time testEndpoint inFlight inFlight_reachable)).
Defined.

(** ** Reasoning about every reachable world *)

Lemma steps_app (ep : option jsstring) (w : World) (a b : list Event) :
  steps ep w (a ++ b)
  = match steps ep w a with
    | Some w1 => steps ep w1 b
    | None => None
    end.
Proof.
  revert w. induction a as [|ev a IH]; intros w; simpl; [reflexivity|].
  destruct (step ep w ev); [apply IH|reflexivity].
Qed.

Lemma reachable_step (ep : option jsstring) (w w' : World) (ev : Event) :
  reachable ep w -> step ep w ev = Some w' -> reachable ep w'.
Proof.
  intros [evs H] Hstep. exists (evs ++ [ev]).
  rewrite steps_app, H. simpl. rewrite Hstep. reflexivity.
Qed.

(** A property of the mounted component that every step keeps holds in
    every reachable world. *)
Lemma reachable_invariant (ep : option jsstring) (P : World -> Prop) :
  P boot ->
  (forall w ev w', reachable ep w -> P w -> step ep w ev = Some w' -> P w') ->
  forall w, reachable ep w -> P w.
Proof.
  intros Hboot Hkeep w [evs H].
  assert (G : forall evs w0 w1,
             reachable ep w0 -> P w0 -> steps ep w0 evs = Some w1 -> P w1).
  { clear w evs H. induction evs as [|ev evs IH]; intros w0 w1 Hr Hp; simpl.
    - intros [= <-]. exact Hp.
    - destruct (step ep w0 ev) as [w'|] eqn:Hstep; [|discriminate].
      apply IH.
      + exact (reachable_step ep w0 w' ev Hr Hstep).
      + exact (Hkeep w0 ev w' Hr Hp Hstep). }
  apply (G evs boot w); [exists []; reflexivity|exact Hboot|exact H].
Qed.

(** ** The spacing of requests *)

Lemma apart_nil : apart [].
Proof. intros i j ti tj _ H. rewrite lookup_nil in H. discriminate. Qed.

Lemma apart_cons (x : Z) (l : list Z) :
  (forall t, t ∈ l -> RATE_LIMIT_COOLDOWN_MS <= t - x) ->
  apart l -> apart (x :: l).
Proof.
  intros Hx Hl i j ti tj Hij Hi Hj.
  destruct j as [|j]; [lia|]. simpl in Hj.
  destruct i as [|i]; simpl in Hi.
  - injection Hi as <-. apply Hx. eapply list_elem_of_lookup_2, Hj.
  - apply (Hl i j ti tj); [lia|exact Hi|exact Hj].
Qed.

(** Every request of a run goes out at least the cooldown after the
    timestamp the run started with, and the requests are apart. *)
Lemma sendTimes_spaced (ep : option jsstring) (evs : list Event) (w : World) :
  (forall t, t ∈ sendTimes ep w evs ->
             RATE_LIMIT_COOLDOWN_MS <= t - lastSubmitTime (ui w))
  /\ apart (sendTimes ep w evs).
Proof.
  revert w. induction evs as [|ev evs IH]; intros w; simpl.
  { split; [intros t Ht; inversion Ht|apply apart_nil]. }
  destruct (step ep w ev) as [w'|] eqn:Hstep;
    [|split; [intros t Ht; inversion Ht|apply apart_nil]].
  destruct (IH w') as [IH1 IH2].
  assert (Hquiet : lastSubmitTime (ui w') = lastSubmitTime (ui w) ->
                   (forall t, t ∈ sendTimes ep w' evs ->
                      RATE_LIMIT_COOLDOWN_MS <= t - lastSubmitTime (ui w))
                   /\ apart (sendTimes ep w' evs)).
  { intros E. rewrite <- E. split; assumption. }
  destruct ev as [f v|v|f|now| |fetched];
    try (apply Hquiet;
         exact (proj2 (quiet_step ep w w' _ Hstep ltac:(discriminate)))).
  apply submit_step in Hstep
    as (_ & _ & _ & [H|[H|[H|(_ & Hc & (endpoint & _ & _ & E) & _ & _ & Hl)]]]).
  - destruct H as (_ & -> & _ & _ & _ & Hl).
    rewrite Nat.ltb_irrefl. apply Hquiet, Hl.
  - destruct H as (_ & _ & -> & _ & _ & _ & Hl).
    rewrite Nat.ltb_irrefl. apply Hquiet, Hl.
  - destruct H as (_ & Hc & _ & -> & _ & _ & _ & Hl).
    rewrite Nat.ltb_irrefl. rewrite Hl in IH1.
    split; [|exact IH2].
    intros t Ht. specialize (IH1 t Ht). unfold RATE_LIMIT_COOLDOWN_MS in *. lia.
  - rewrite E, length_app. simpl.
    replace (List.length (calls w) <? List.length (calls w) + 1)%nat with true
      by (symmetry; apply Nat.ltb_lt; lia).
    rewrite Hl in IH1. split.
    + intros t Ht. apply elem_of_cons in Ht as [->|Ht]; [exact Hc|].
      specialize (IH1 t Ht). unfold RATE_LIMIT_COOLDOWN_MS in *. lia.
    + apply apart_cons; assumption.
Qed.

Lemma sendTimes_count (ep : option jsstring) (evs : list Event) (w w' : World) :
  steps ep w evs = Some w' ->
  (List.length (sendTimes ep w evs) + List.length (calls w))%nat
  = List.length (calls w').
Proof.
  revert w. induction evs as [|ev evs IH]; intros w; simpl.
  { intros [= <-]. reflexivity. }
  destruct (step ep w ev) as [w1|] eqn:Hstep; [|discriminate].
  intros Hsteps. specialize (IH w1 Hsteps).
  destruct ev as [f v|v|f|now| |fetched];
    try (destruct (quiet_step ep w w1 _ Hstep ltac:(discriminate)) as [E _];
         rewrite <- E; exact IH).
  apply submit_step in Hstep
    as (_ & _ & _ & [H|[H|[H|(_ & _ & (endpoint & _ & _ & E) & _)]]]).
  - destruct H as (_ & E & _). rewrite E in *. rewrite Nat.ltb_irrefl. exact IH.
  - destruct H as (_ & _ & E & _). rewrite E in *. rewrite Nat.ltb_irrefl. exact IH.
  - destruct H as (_ & _ & _ & E & _). rewrite E in *.
    rewrite Nat.ltb_irrefl. exact IH.
  - rewrite E in *. rewrite length_app in *. simpl in *.
    replace (List.length (calls w) <? List.length (calls w) + 1)%nat with true
      by (symmetry; apply Nat.ltb_lt; lia).
    simpl. lia.
Qed.

(** X7: in every run of the mounted component, whatever the user does
    and however the fetches settle, the clock readings at which requests
    go out are pairwise at least 3000 ms apart, each is at least 3000, and
    there is one reading for every call of the list. *)
Theorem requests_are_spaced (ep : option jsstring) (evs : list Event) (w : World) :
  steps ep boot evs = Some w ->
  List.length (sendTimes ep boot evs) = List.length (calls w)
  /\ apart (sendTimes ep boot evs)
  /\ (forall t, t ∈ sendTimes ep boot evs -> RATE_LIMIT_COOLDOWN_MS <= t).
Proof.
  intros H. split; [|split].
  - pose proof (sendTimes_count ep evs boot w H) as E. simpl in E. lia.
  - apply sendTimes_spaced.
  - intros t Ht. pose proof (proj1 (sendTimes_spaced ep evs boot) t Ht) as E.
    simpl in E. lia.
Qed.

Lemma requests_are_spaced_witness :
  exists w,
    steps testEndpoint boot
      (typing ++ [Submit 1700000000000; Settle (Fulfilled serverError);
                  Submit 1700000001000; Submit 1700000003000]) = Some w
    /\ List.length
         (sendTimes testEndpoint boot
            (typing ++ [Submit 1700000000000; Settle (Fulfilled serverError);
                        Submit 1700000001000; Submit 1700000003000]))
       = List.length (calls w).
Proof.
  destruct (steps testEndpoint boot
              (typing ++ [Submit 1700000000000; Settle (Fulfilled serverError);
                          Submit 1700000001000; Submit 1700000003000]))
    as [w|] eqn:H; [|vm_compute in H; discriminate H].
  exists w. split; [reflexivity|].
  exact (proj1 (requests_are_spaced testEndpoint _ w H)).
Defined.

(** ** The banner *)

Lemma shownBanner_none (s : signals) :
  status s <> error -> shownBanner s = None.
Proof.
  intros H. unfold shownBanner, render.
  destruct (decide (status s = success)); [reflexivity|]. simpl.
  rewrite decide_False by exact H. reflexivity.
Qed.

Lemma error_has_message (ep : option jsstring) (w : World) :
  reachable ep w -> status (ui w) = error ->
  JS.toBoolean (errorMessage (ui w)) = true.
Proof.
  intros Hr. revert w Hr.
  apply (reachable_invariant ep
           (fun w => status (ui w) = error ->
                     JS.toBoolean (errorMessage (ui w)) = true)).
  { simpl. discriminate. }
  intros w ev w' _ IH Hstep.
  destruct ev as [f v|v|f|now| |fetched].
  - apply step_inv in Hstep as (_ & _ & ->). destruct f; exact IH.
  - apply step_inv in Hstep as (_ & _ & ->). exact IH.
  - apply step_inv in Hstep as (_ & ->). exact IH.
  - apply submit_step in Hstep as (_ & Hns & _ & [H|[H|[H|H]]]).
    + destruct H as (_ & _ & _ & -> & -> & _). exact IH.
    + destruct H as (_ & _ & _ & _ & _ & H & _). intros _. exact H.
    + destruct H as (_ & _ & _ & _ & _ & _ & H & _). intros _. exact H.
    + destruct H as (_ & _ & _ & _ & -> & _). discriminate.
  - apply step_inv in Hstep as (_ & ->). simpl. discriminate.
  - apply step_inv in Hstep as (_ & ->). simpl.
    pose proof (resume_effect fetched (ui w)) as H.
    destruct fetched as [r|]; [destruct (ok r)|].
    + destruct H as (-> & _). discriminate.
    + intros _. apply H.
    + intros _. apply H.
Qed.

(** Where the value of [errorMessage] comes from: a step leaves it as it
    is, writes a text, or writes the first message of the body of the
    response that settles the fetch. *)
Lemma step_message (ep : option jsstring) (w w' : World) (ev : Event) :
  step ep w ev = Some w' ->
  errorMessage (ui w') = errorMessage (ui w)
  \/ (exists text, errorMessage (ui w') = JS.Str text)
  \/ (exists r data,
         ev = Settle (Fulfilled r) /\ ok r = false
         /\ json r = Fulfilled data
         /\ firstErrorMessage data = Some (errorMessage (ui w'))).
Proof.
  intros Hstep. destruct ev as [f v|v|f|now| |fetched].
  - apply step_inv in Hstep as (_ & _ & ->). left. destruct f; reflexivity.
  - apply step_inv in Hstep as (_ & _ & ->). left. reflexivity.
  - apply step_inv in Hstep as (_ & ->). left. reflexivity.
  - apply step_inv in Hstep as (_ & _ & -> & _).
    destruct (isValid (ui w)) eqn:Hv.
    + destruct (Z.ltb_spec (now - lastSubmitTime (ui w)) RATE_LIMIT_COOLDOWN_MS)
        as [Hc|Hc].
      * rewrite (handleSubmit_cooldown ep now (ui w) Hv Hc). right. left.
        simpl. eauto.
      * destruct ep as [[|c e]|].
        -- rewrite (handleSubmit_unconfigured _ now (ui w) Hv Hc
                      (or_intror eq_refl)). right. left. simpl. eauto.
        -- rewrite (handleSubmit_fetch (c :: e) now (ui w) Hv Hc
                      ltac:(discriminate)). right. left. simpl. eauto.
        -- rewrite (handleSubmit_unconfigured _ now (ui w) Hv Hc
                      (or_introl eq_refl)). right. left. simpl. eauto.
    + rewrite (handleSubmit_invalid ep now (ui w) Hv). left. reflexivity.
  - apply step_inv in Hstep as (_ & ->). left. reflexivity.
  - apply step_inv in Hstep as (_ & ->). simpl.
    destruct fetched as [r|];
      [|rewrite resume_rejected; right; left; simpl; eauto].
    destruct (ok r) eqn:Hok;
      [rewrite (resume_ok r (ui w) Hok); left; reflexivity|].
    destruct (json r) as [data|] eqn:Hj.
    + rewrite (resume_not_ok_json r data (ui w) Hok Hj). simpl.
      destruct (firstErrorMessage data) as [v|] eqn:Hf;
        [|right; left; simpl; eauto].
      simpl. destruct (JS.toBoolean v); [|right; left; eauto].
      right. right. exists r, data. auto.
    + rewrite (resume_not_ok_unparsed r (ui w) Hok Hj). right. left.
      simpl. eauto.
Qed.

Lemma steps_message (ep : option jsstring) (evs : list Event) (w w' : World) :
  steps ep w evs = Some w' ->
  errorMessage (ui w') = errorMessage (ui w)
  \/ (exists text, errorMessage (ui w') = JS.Str text)
  \/ (exists r data,
         Settle (Fulfilled r) ∈ evs /\ ok r = false
         /\ json r = Fulfilled data
         /\ firstErrorMessage data = Some (errorMessage (ui w'))).
Proof.
  revert w. induction evs as [|ev evs IH]; intros w; simpl.
  - intros [= <-]. left. reflexivity.
  - destruct (step ep w ev) as [w1|] eqn:Hstep; [|discriminate].
    intros Hsteps.
    destruct (IH w1 Hsteps) as [E|[H|(r & data & Hin & H)]].
    + rewrite E.
      destruct (step_message ep w w1 ev Hstep) as [H|[H|(r & data & -> & H)]];
        [left; exact H|right; left; exact H|].
      right. right. exists r, data.
      split; [apply list_elem_of_here|exact H].
    + right. left. exact H.
    + right. right. exists r, data.
      split; [apply list_elem_of_further, Hin|exact H].
Qed.

(** X8: in every world the component can reach the banner is there
    exactly when the status is [error], and the value in it is truthy, so
    that a text in it is never empty (a server message that is empty is
    replaced by the generic text).  The value is a text unless it is the
    first message of the body of a response of the run that was not [ok]:
    that one is shown whatever its type. *)
Theorem banner_value_is_truthy
        (ep : option jsstring) (evs : list Event) (w : World) :
  steps ep boot evs = Some w ->
  (status (ui w) = error ->
   exists shown,
     shownBanner (ui w) = Some shown
     /\ JS.toBoolean shown = true
     /\ (forall text, shown = JS.Str text -> text <> [])
     /\ ((exists text, shown = JS.Str text)
         \/ exists r data,
             Settle (Fulfilled r) ∈ evs /\ ok r = false
             /\ json r = Fulfilled data
             /\ firstErrorMessage data = Some shown))
  /\ (status (ui w) <> error -> shownBanner (ui w) = None).
Proof.
  intros Hsteps. split; [|apply shownBanner_none].
  intros Hs. exists (errorMessage (ui w)).
  assert (Ht : JS.toBoolean (errorMessage (ui w)) = true)
    by (apply (error_has_message ep w); [exists evs; exact Hsteps|exact Hs]).
  split; [apply shownBanner_error, Hs|].
  split; [exact Ht|]. split.
  - intros text E. rewrite E in Ht. intros ->. discriminate Ht.
  - destruct (steps_message ep evs boot w Hsteps) as [E|[H|H]].
    + left. rewrite E. simpl. eauto.
    + left. exact H.
    + right. exact H.
Qed.

Lemma banner_value_is_truthy_witness :
  steps testEndpoint boot
    (typing ++ [Submit 1700000000000; Settle (Fulfilled emptyFirstMessage)])
  = Some {| ui := (handleSubmit_resume (Fulfilled emptyFirstMessage)
                     (ui inFlight)).2;
            calls := calls inFlight; awaiting := false |}
  /\ exists shown,
      shownBanner (handleSubmit_resume (Fulfilled emptyFirstMessage)
                     (ui inFlight)).2 = Some shown
      /\ JS.toBoolean shown = true.
Proof.
  assert (Hr : steps testEndpoint boot
                 (typing ++ [Submit 1700000000000;
                             Settle (Fulfilled emptyFirstMessage)])
               = Some {| ui := (handleSubmit_resume (Fulfilled emptyFirstMessage)
                                  (ui inFlight)).2;
                         calls := calls inFlight; awaiting := false |})
    by (vm_compute; reflexivity).
  split; [exact Hr|].
  destruct (proj1 (banner_value_is_truthy testEndpoint _ _ Hr) eq_refl)
    as (shown & Hb & Ht & _).
  exists shown. split; assumption.
Defined.

(** The body [{"errors":[{"message":[]}]}]: the banner is there and holds
    the empty array. *)
Example array_in_the_banner :
  exists w,
    steps testEndpoint boot
      (typing ++ [Submit 1700000000000; Settle (Fulfilled arrayFirstMessage)])
    = Some w
    /\ status (ui w) = error
    /\ shownBanner (ui w) = Some (JS.Array []).
Proof. eexists. split; [vm_compute; reflexivity|]. vm_compute. auto. Qed.

(** ** What goes out *)

Lemma errors_of_draft (s1 s2 : signals) :
  draft s1 = draft s2 -> errors s1 = errors s2.
Proof.
  unfold draft. intros [= Hn He Ho _ Hm].
  unfold errors. rewrite Hn, He, Ho, Hm. reflexivity.
Qed.

Lemma isValid_of_draft (s1 s2 : signals) :
  draft s1 = draft s2 -> isValid s1 = isValid s2.
Proof.
  intros H. unfold isValid. rewrite (errors_of_draft s1 s2 H). reflexivity.
Qed.

Lemma requestOf_of_draft (endpoint : jsstring) (s1 s2 : signals) :
  draft s1 = draft s2 -> requestOf endpoint s1 = requestOf endpoint s2.
Proof.
  unfold draft. intros [= Hn He Ho Hr Hm].
  unfold requestOf. rewrite Hn, He, Ho, Hr, Hm. reflexivity.
Qed.

(** What [isValid] says about the trimmed values. *)
Lemma valid_fields (s : signals) :
  isValid s = true ->
  2 <= JS.length (JS.trim (name s))
  /\ EmailPattern (JS.codePoints (JS.trim (email s)))
  /\ (JS.trim (organization s) = [] \/ 2 <= JS.length (JS.trim (organization s)))
  /\ 10 <= JS.length (JS.trim (message s)).
Proof.
  intros H. apply isValid_spec in H as (Hn & He & Ho & Hm).
  rewrite errors_name in Hn. rewrite errors_email in He.
  rewrite errors_organization in Ho. rewrite errors_message in Hm.
  split; [|split; [|split]].
  - destruct (JS.truthy (JS.trim (name s))); [|discriminate].
    destruct (Z.ltb_spec (JS.length (JS.trim (name s))) 2); [discriminate|lia].
  - destruct (JS.truthy (JS.trim (email s))); [|discriminate].
    destruct (validateEmail (JS.trim (email s))) eqn:E; [|discriminate].
    apply validateEmail_spec, E.
  - destruct (JS.truthy (JS.trim (organization s))) eqn:E.
    + destruct (Z.ltb_spec (JS.length (JS.trim (organization s))) 2);
        [discriminate|right; lia].
    + left. apply truthy_false, E.
  - destruct (JS.truthy (JS.trim (message s))); [|discriminate].
    destruct (Z.ltb_spec (JS.length (JS.trim (message s))) 10); [discriminate|lia].
Qed.

Lemma requestOf_carries_valid (endpoint : jsstring) (s : signals) :
  endpoint <> [] -> isValid s = true ->
  carriesValidDraft (Some endpoint) (requestOf endpoint s).
Proof.
  intros Hne Hv. destruct (valid_fields s Hv) as (Hn & He & Ho & Hm).
  unfold carriesValidDraft. simpl.
  repeat (split; [reflexivity || exact Hne|]).
  exists (JS.trim (name s)), (JS.trim (email s)), (JS.trim (organization s)),
    (role s), (JS.trim (message s)).
  split; [reflexivity|].
  rewrite !trim_idem. auto 10.
Qed.

(** X9: every request the component has made, in every world it can
    reach, is a POST to the configured endpoint with the two JSON headers,
    and its body holds a draft that passed validation, trimmed: a name of
    at least 2 code units, an address of the accepted shape, an
    organization that is empty or at least 2 long, and a message of at
    least 10.  Without an endpoint no request is ever made. *)
Theorem every_request_carries_a_valid_draft (ep : option jsstring) (w : World) :
  reachable ep w ->
  Forall (carriesValidDraft ep) (calls w)
  /\ (ep = None \/ ep = Some [] -> calls w = []).
Proof.
  intros Hr. revert w Hr.
  apply (reachable_invariant ep
           (fun w => Forall (carriesValidDraft ep) (calls w)
                     /\ (ep = None \/ ep = Some [] -> calls w = []))).
  { simpl. split; [constructor|reflexivity]. }
  intros w ev w' _ [IH1 IH2] Hstep.
  destruct ev as [f v|v|f|now| |fetched];
    try (destruct (quiet_step ep w w' _ Hstep ltac:(discriminate)) as [-> _];
         split; assumption).
  apply submit_step in Hstep
    as (_ & _ & _ & [H|[H|[H|(Hv & _ & (endpoint & -> & Hne & ->) & _)]]]).
  - destruct H as (_ & -> & _). split; assumption.
  - destruct H as (_ & _ & -> & _). split; assumption.
  - destruct H as (_ & _ & _ & -> & _). split; assumption.
  - split.
    + apply Forall_app. split; [exact IH1|].
      constructor; [|constructor].
      apply requestOf_carries_valid; assumption.
    + intros [H|H]; [discriminate H|]. congruence.
Qed.

Lemma every_request_carries_a_valid_draft_witness :
  reachable testEndpoint inFlight
  /\ Forall (carriesValidDraft testEndpoint) (calls inFlight).
Proof.
  split; [exact inFlight_reachable|].
  exact (proj1 (every_request_carries_a_valid_draft testEndpoint inFlight
                  inFlight_reachable)).
Defined.

(** ** The success panel *)

(** X10: in every world the component can reach with the status
    [success], all five fields are empty and no field is touched, no fetch
    is awaited, and at least one request has been made: the panel is shown
    only after an accepted request, over an emptied form. *)
Theorem success_means_an_emptied_form (ep : option jsstring) (w : World) :
  reachable ep w ->
  (status (ui w) = success ->
   draft (ui w) = [[]; []; []; []; []]
   /\ touched (ui w) = ∅
   /\ awaiting w = false)
  /\ (status (ui w) = success \/ awaiting w = true -> calls w <> []).
Proof.
  intros Hr. split.
  - intros Hs.
    assert (Ha : awaiting w = false).
    { destruct (awaiting w) eqn:E; [|reflexivity].
      apply (reachable_consistent ep w Hr) in E. congruence. }
    revert w Hr Hs Ha.
    assert (G : forall w, reachable ep w ->
                status (ui w) = success ->
                draft (ui w) = [[]; []; []; []; []] /\ touched (ui w) = ∅).
    { apply (reachable_invariant ep
               (fun w => status (ui w) = success ->
                         draft (ui w) = [[]; []; []; []; []]
                         /\ touched (ui w) = ∅)).
      { simpl. discriminate. }
      intros w ev w' _ IH Hstep.
      destruct ev as [f v|v|f|now| |fetched].
      - apply step_inv in Hstep as (Hn & _ & ->).
        intros H. exfalso. apply Hn. destruct f; exact H.
      - apply step_inv in Hstep as (Hn & _ & ->).
        intros H. exfalso. apply Hn. exact H.
      - apply step_inv in Hstep as (Hn & ->).
        intros H. exfalso. apply Hn. exact H.
      - apply submit_step in Hstep as (Hn & _ & _ & [H|[H|[H|H]]]).
        + destruct H as (_ & _ & _ & E & _). rewrite E. intros H. contradiction.
        + destruct H as (_ & _ & _ & _ & E & _). rewrite E. discriminate.
        + destruct H as (_ & _ & _ & _ & _ & E & _). rewrite E. discriminate.
        + destruct H as (_ & _ & _ & _ & E & _). rewrite E. discriminate.
      - apply step_inv in Hstep as (_ & ->). simpl. discriminate.
      - apply step_inv in Hstep as (_ & ->). simpl.
        pose proof (resume_effect fetched (ui w)) as H.
        destruct fetched as [r|]; [destruct (ok r)|].
        + intros _. tauto.
        + destruct H as (-> & _). discriminate.
        + destruct H as (-> & _). discriminate. }
    intros w Hr Hs Ha. destruct (G w Hr Hs). auto.
  - revert w Hr.
    apply (reachable_invariant ep
             (fun w => status (ui w) = success \/ awaiting w = true ->
                       calls w <> [])).
    { simpl. intros [H|H]; discriminate H. }
    intros w ev w' Hr IH Hstep.
    pose proof (reachable_consistent ep w Hr) as Hc.
    destruct ev as [f v|v|f|now| |fetched].
    + apply step_inv in Hstep as (_ & _ & ->).
      intros H. apply IH. destruct f; exact H.
    + apply step_inv in Hstep as (_ & _ & ->). exact IH.
    + apply step_inv in Hstep as (_ & ->). exact IH.
    + apply submit_step in Hstep as (Hn & _ & _ & [H|[H|[H|H]]]).
      * destruct H as (_ & -> & -> & -> & _). exact IH.
      * destruct H as (_ & _ & -> & -> & E & _). rewrite E.
        intros [H|H]; [discriminate H|]. apply IH. auto.
      * destruct H as (_ & _ & _ & -> & -> & E & _). rewrite E.
        intros [H|H]; [discriminate H|]. apply IH. auto.
      * destruct H as (_ & _ & (endpoint & _ & _ & ->) & _).
        intros _ H. apply app_eq_nil in H as [_ H]. discriminate H.
    + apply step_inv in Hstep as (Hs & ->). simpl.
      intros [H|H]; [discriminate H|]. apply IH. auto.
    + apply step_inv in Hstep as (Ha & ->). simpl.
      intros _. apply IH. auto.
Qed.

Lemma success_means_an_emptied_form_witness :
  reachable testEndpoint
    {| ui := (handleSubmit_resume (Fulfilled accepted) (ui inFlight)).2;
       calls := calls inFlight; awaiting := false |}
  /\ draft (handleSubmit_resume (Fulfilled accepted) (ui inFlight)).2
     = [[]; []; []; []; []].
Proof.
  assert (Hr : reachable testEndpoint
                 {| ui := (handleSubmit_resume (Fulfilled accepted)
                             (ui inFlight)).2;
                    calls := calls inFlight; awaiting := false |}).
  { apply (reachable_step testEndpoint inFlight _
             (Settle (Fulfilled accepted)) inFlight_reachable).
    reflexivity. }
  split; [exact Hr|].
  exact (proj1 (proj1 (success_means_an_emptied_form testEndpoint _ Hr)
                  eq_refl)).
Defined.

(** ** Retrying *)

(** While a request is awaited, the draft is the valid one that request
    was built from. *)
Lemma in_flight_request (ep : option jsstring) (w : World) :
  reachable ep w ->
  status (ui w) = submitting ->
  isValid (ui w) = true
  /\ exists endpoint,
      ep = Some endpoint /\ endpoint <> []
      /\ last (calls w) = Some (requestOf endpoint (ui w)).
Proof.
  intros Hr. revert w Hr.
  apply (reachable_invariant ep
           (fun w => status (ui w) = submitting ->
                     isValid (ui w) = true
                     /\ exists endpoint,
                         ep = Some endpoint /\ endpoint <> []
                         /\ last (calls w) = Some (requestOf endpoint (ui w)))).
  { simpl. discriminate. }
  intros w ev w' _ IH Hstep.
  destruct ev as [f v|v|f|now| |fetched].
  - apply step_inv in Hstep as (_ & Hn & ->).
    intros H. exfalso. apply Hn. destruct f; exact H.
  - apply step_inv in Hstep as (_ & Hn & ->).
    intros H. exfalso. apply Hn. exact H.
  - apply step_inv in Hstep as (_ & ->). exact IH.
  - pose proof Hstep as Hstep'.
    apply submit_step in Hstep as (_ & Hn & Hd & [H|[H|[H|H]]]).
    + destruct H as (_ & _ & _ & E & _). rewrite E. intros H. contradiction.
    + destruct H as (_ & _ & _ & _ & E & _). rewrite E. discriminate.
    + destruct H as (_ & _ & _ & _ & _ & E & _). rewrite E. discriminate.
    + destruct H as (Hv & _ & (endpoint & -> & Hne & ->) & _).
      intros _. split; [rewrite (isValid_of_draft _ _ Hd); exact Hv|].
      exists endpoint. split; [reflexivity|]. split; [exact Hne|].
      rewrite last_snoc, (requestOf_of_draft endpoint _ _ Hd). reflexivity.
  - apply step_inv in Hstep as (_ & ->). simpl. discriminate.
  - apply step_inv in Hstep as (_ & ->). simpl.
    destruct (resume_leaves fetched (ui w)) as [[H|H] _]; rewrite H; discriminate.
Qed.

(** X11: when a submission fails (the fetch is rejected, or the response
    is not [ok]), the component ends in [error] with the draft intact, and
    a submit made once the cooldown since the failed attempt's start has
    passed sends the very same request again. *)
Theorem failed_submission_can_be_retried
        (ep : option jsstring) (w : World) (fetched : settled Response)
        (now : Z) :
  reachable ep w ->
  status (ui w) = submitting ->
  failed fetched ->
  RATE_LIMIT_COOLDOWN_MS <= now - lastSubmitTime (ui w) ->
  exists w1 w2 request,
    step ep w (Settle fetched) = Some w1
    /\ status (ui w1) = error
    /\ draft (ui w1) = draft (ui w)
    /\ step ep w1 (Submit now) = Some w2
    /\ status (ui w2) = submitting
    /\ last (calls w) = Some request
    /\ calls w2 = calls w ++ [request].
Proof.
  intros Hr Hs Hf Hc.
  destruct (in_flight_request ep w Hr Hs) as (Hv & endpoint & -> & Hne & Hlast).
  pose proof (proj2 (reachable_consistent _ w Hr) Hs) as Ha.
  rewrite (settle_enabled _ w fetched Ha).
  pose proof (resume_effect fetched (ui w)) as He.
  pose proof (proj2 (resume_leaves fetched (ui w))) as Hl.
  assert (Hfail : status (handleSubmit_resume fetched (ui w)).2 = error
                  /\ draft (handleSubmit_resume fetched (ui w)).2 = draft (ui w)).
  { destruct fetched as [r|]; simpl in Hf; [rewrite Hf in He|]; tauto. }
  destruct Hfail as [Hst Hd].
  set (s1 := (handleSubmit_resume fetched (ui w)).2) in *.
  eexists. exists {| ui := (handleSubmit (Some endpoint) now s1).2;
                     calls := calls w ++ [requestOf endpoint (ui w)];
                     awaiting := true |}.
  exists (requestOf endpoint (ui w)).
  split; [reflexivity|]. simpl ui. simpl calls.
  split; [exact Hst|]. split; [exact Hd|].
  assert (Hv1 : isValid s1 = true)
    by (rewrite (isValid_of_draft _ _ Hd); exact Hv).
  assert (Hc1 : RATE_LIMIT_COOLDOWN_MS <= now - lastSubmitTime s1)
    by (rewrite Hl; exact Hc).
  pose proof (handleSubmit_fetch endpoint now s1 Hv1 Hc1 Hne) as E.
  split.
  - unfold step. simpl ui.
    destruct (render_form s1 ltac:(rewrite Hst; discriminate))
      as (form & -> & _ & _ & _ & Hb & _).
    rewrite Hb, bool_decide_eq_false_2 by (rewrite Hst; discriminate).
    rewrite E. simpl.
    fold (requestOf endpoint s1).
    rewrite (requestOf_of_draft endpoint _ _ Hd). reflexivity.
  - split; [rewrite E; reflexivity|]. split; [exact Hlast|reflexivity].
Qed.

Lemma failed_submission_can_be_retried_witness :
  reachable testEndpoint inFlight
  /\ status (ui inFlight) = submitting
  /\ failed (Fulfilled serverError)
  /\ RATE_LIMIT_COOLDOWN_MS <= 1700000003000 - lastSubmitTime (ui inFlight)
  /\ exists w1 w2 request,
      step testEndpoint inFlight (Settle (Fulfilled serverError)) = Some w1
      /\ status (ui w1) = error
      /\ draft (ui w1) = draft (ui inFlight)
      /\ step testEndpoint w1 (Submit 1700000003000) = Some w2
      /\ status (ui w2) = submitting
      /\ last (calls inFlight) = Some request
      /\ calls w2 = calls inFlight ++ [request].
Proof.
  assert (H2 : status (ui inFlight) = submitting) by reflexivity.
  assert (H3 : failed (Fulfilled serverError)) by reflexivity.
  assert (H4 : RATE_LIMIT_COOLDOWN_MS
               <= 1700000003000 - lastSubmitTime (ui inFlight))
    by (vm_compute; discriminate).
  split; [exact inFlight_reachable|]. split; [exact H2|].
  split; [exact H3|]. split; [exact H4|].
  exact (failed_submission_can_be_retried testEndpoint inFlight
           (Fulfilled serverError) 1700000003000 inFlight_reachable H2 H3 H4).
Defined.

(** ** The announced wait *)

(** X12: when a valid form is submitted within the cooldown, the banner
    asks to wait 1, 2 or 3 seconds as long as the clock has not gone back
    since the last attempt (3 right after it, 1 in the last second, the
    word "seconds" in each case); if the clock has gone back, the wait
    announced is more than 3 seconds. *)
Theorem announced_wait_is_bounded (ep : option jsstring) (now : Z) (s : signals) :
  isValid s = true ->
  now - lastSubmitTime s < RATE_LIMIT_COOLDOWN_MS ->
  exists seconds,
    shownBanner (handleSubmit ep now s).2
    = Some (JS.Str (JS.lit "Please wait " ++ JS.numberToString seconds
                    ++ JS.lit " seconds before submitting again."))
    /\ 1 <= seconds
    /\ (0 <= now - lastSubmitTime s -> seconds <= 3)
    /\ (now - lastSubmitTime s = 0 -> seconds = 3)
    /\ (2000 <= now - lastSubmitTime s -> seconds = 1)
    /\ (now - lastSubmitTime s < 0 -> 4 <= seconds).
Proof.
  intros Hv Hc.
  pose proof (handleSubmit_cooldown ep now s Hv Hc) as E.
  destruct (remaining_spec now (lastSubmitTime s) Hc) as (H1 & Hexact & Hback & _).
  set (remaining := JS.sub RATE_LIMIT_COOLDOWN_MS
                      (JS.sub now (lastSubmitTime s))) in *.
  destruct (announced_seconds remaining H1) as (Hs1 & Hceil & Hs4).
  exists (JS.ceil (JS.div remaining 1000)).
  split.
  - rewrite shownBanner_error by (rewrite E; reflexivity).
    rewrite E. reflexivity.
  - split; [exact Hs1|].
    assert (Hin : 0 <= now - lastSubmitTime s ->
                  remaining = RATE_LIMIT_COOLDOWN_MS - (now - lastSubmitTime s)
                  /\ JS.ceil (JS.div remaining 1000)
                     = JS.ceilDiv remaining 1000).
    { intros H0.
      assert (Hr : remaining
                   = RATE_LIMIT_COOLDOWN_MS - (now - lastSubmitTime s)).
      { apply Hexact. unfold RATE_LIMIT_COOLDOWN_MS.
        change (2 ^ 53) with 9007199254740992. lia. }
      split; [exact Hr|]. apply Hceil. rewrite Hr.
      unfold RATE_LIMIT_COOLDOWN_MS. change (2 ^ 44) with 17592186044416. lia. }
    pose proof (ceilDiv_spec remaining 1000 ltac:(lia)) as H.
    unfold RATE_LIMIT_COOLDOWN_MS in *.
    split; [intros H0; destruct (Hin H0) as [Hr ->]; lia|].
    split; [intros H0; destruct (Hin ltac:(lia)) as [Hr ->]; lia|].
    split; [intros H0; destruct (Hin ltac:(lia)) as [Hr ->]; lia|].
    intros H0. apply Hs4, Hback, H0.
Qed.

Lemma announced_wait_is_bounded_witness :
  isValid johnDoe = true
  /\ 2500 - lastSubmitTime johnDoe < RATE_LIMIT_COOLDOWN_MS
  /\ exists seconds,
      shownBanner (handleSubmit testEndpoint 2500 johnDoe).2
      = Some (JS.Str (JS.lit "Please wait " ++ JS.numberToString seconds
                      ++ JS.lit " seconds before submitting again."))
      /\ 1 <= seconds.
Proof.
  assert (Hv : isValid johnDoe = true) by (vm_compute; reflexivity).
  assert (Hc : 2500 - lastSubmitTime johnDoe < RATE_LIMIT_COOLDOWN_MS)
    by (vm_compute; reflexivity).
  split; [exact Hv|]. split; [exact Hc|].
  destruct (announced_wait_is_bounded testEndpoint 2500 johnDoe Hv Hc)
    as (seconds & Hb & H1 & _).
  exists seconds. split; assumption.
Defined.
(** ** The cooldown counts every attempt *)

(** X13: the cooldown runs from the start of every attempt that passed
    validation and the cooldown, whether or not it succeeded.  After an
    attempt that ended at once for lack of an endpoint, and after one whose
    fetch failed or was answered with a response that is not [ok], a submit
    less than 3000 ms after the attempt's start (both clock readings being
    time values) makes no request and shows the wait message; the seconds
    it names are at least 1, and when the clock has not gone back since the
    attempt they are the remaining milliseconds over 1000, rounded up. *)
Theorem cooldown_counts_failed_attempts
        (ep : option jsstring) (now later : Z) (s : signals) :
  isValid s = true ->
  JS.isTimeValue now ->
  JS.isTimeValue later ->
  RATE_LIMIT_COOLDOWN_MS <= now - lastSubmitTime s ->
  later - now < RATE_LIMIT_COOLDOWN_MS ->
  exists seconds,
    let waitMessage :=
      JS.Str (JS.lit "Please wait " ++ JS.numberToString seconds
              ++ JS.lit " seconds before submitting again.") in
    let attempted := (handleSubmit ep now s).2 in
    1 <= seconds
    /\ (now <= later ->
        seconds = JS.ceilDiv (RATE_LIMIT_COOLDOWN_MS - (later - now)) 1000)
    /\ (status attempted = error ->
        (handleSubmit ep later attempted).1 = Normal None
        /\ shownBanner (handleSubmit ep later attempted).2 = Some waitMessage)
    /\ (forall fetched,
           failed fetched ->
           let settledState := (handleSubmit_resume fetched attempted).2 in
           (handleSubmit ep later settledState).1 = Normal None
           /\ shownBanner (handleSubmit ep later settledState).2
              = Some waitMessage).
Proof.
  intros Hv Hnow Hlater Hc Hl.
  destruct (remaining_spec later now Hl) as (H1 & Hexact & _ & _).
  set (remaining := JS.sub RATE_LIMIT_COOLDOWN_MS (JS.sub later now)) in *.
  destruct (announced_seconds remaining H1) as (Hs1 & Hceil & _).
  exists (JS.ceil (JS.div remaining 1000)). cbv zeta.
  set (attempted := (handleSubmit ep now s).2).
  assert (Hframe : draft attempted = draft s /\ lastSubmitTime attempted = now).
  { subst attempted. destruct ep as [[|c e]|].
    - rewrite (handleSubmit_unconfigured _ now s Hv Hc (or_intror eq_refl)).
      split; reflexivity.
    - rewrite (handleSubmit_fetch (c :: e) now s Hv Hc ltac:(discriminate)).
      split; reflexivity.
    - rewrite (handleSubmit_unconfigured _ now s Hv Hc (or_introl eq_refl)).
      split; reflexivity. }
  destruct Hframe as [Hd Ht].
  assert (G : forall s1,
             draft s1 = draft s -> lastSubmitTime s1 = now ->
             (handleSubmit ep later s1).1 = Normal None
             /\ shownBanner (handleSubmit ep later s1).2
                = Some (JS.Str (JS.lit "Please wait "
                                ++ JS.numberToString
                                     (JS.ceil (JS.div remaining 1000))
                                ++ JS.lit " seconds before submitting again."))).
  { intros s1 Hd1 Ht1.
    assert (Hv1 : isValid s1 = true)
      by (rewrite (isValid_of_draft _ _ Hd1); exact Hv).
    assert (Hc1 : later - lastSubmitTime s1 < RATE_LIMIT_COOLDOWN_MS)
      by (rewrite Ht1; exact Hl).
    pose proof (handleSubmit_cooldown ep later s1 Hv1 Hc1) as E.
    split; [rewrite E; reflexivity|].
    rewrite shownBanner_error by (rewrite E; reflexivity).
    rewrite E. simpl. rewrite Ht1. reflexivity. }
  split; [exact Hs1|]. split; [|split].
  - intros Hle.
    assert (Hr : remaining = RATE_LIMIT_COOLDOWN_MS - (later - now)).
    { apply Hexact. unfold RATE_LIMIT_COOLDOWN_MS.
      change (2 ^ 53) with 9007199254740992. lia. }
    rewrite Hceil; [rewrite Hr; reflexivity|]. rewrite Hr.
    unfold RATE_LIMIT_COOLDOWN_MS. change (2 ^ 44) with 17592186044416. lia.
  - intros _. apply G; assumption.
  - intros fetched Hf. apply G.
    + pose proof (resume_effect fetched attempted) as He.
      destruct fetched as [r|]; simpl in Hf; [rewrite Hf in He|];
        destruct He as (_ & -> & _); exact Hd.
    + rewrite (proj2 (resume_leaves fetched attempted)). exact Ht.
Qed.

Lemma cooldown_counts_failed_attempts_witness :
  isValid johnDoe = true
  /\ JS.isTimeValue 1700000000000
  /\ JS.isTimeValue 1700000000400
  /\ RATE_LIMIT_COOLDOWN_MS <= 1700000000000 - lastSubmitTime johnDoe
  /\ 1700000000400 - 1700000000000 < RATE_LIMIT_COOLDOWN_MS
  /\ (handleSubmit None 1700000000400
        (handleSubmit None 1700000000000 johnDoe).2).1 = Normal None.
Proof.
  assert (Hv : isValid johnDoe = true) by (vm_compute; reflexivity).
  assert (Ht1 : JS.isTimeValue 1700000000000) by (unfold JS.isTimeValue; lia).
  assert (Ht2 : JS.isTimeValue 1700000000400) by (unfold JS.isTimeValue; lia).
  assert (Hc : RATE_LIMIT_COOLDOWN_MS
               <= 1700000000000 - lastSubmitTime johnDoe)
    by (vm_compute; discriminate).
  assert (Hl : 1700000000400 - 1700000000000 < RATE_LIMIT_COOLDOWN_MS)
    by (vm_compute; reflexivity).
  split; [exact Hv|]. split; [exact Ht1|]. split; [exact Ht2|].
  split; [exact Hc|]. split; [exact Hl|].
  destruct (cooldown_counts_failed_attempts None
              1700000000000 1700000000400 johnDoe Hv Ht1 Ht2 Hc Hl)
    as (seconds & _ & _ & H & _).
  exact (proj1 (H eq_refl)).
Defined.

(** ** The earlier revision *)

(** A property that holds of every surrogate and of the code points of a
    string holds of its code units. *)
Lemma codePoints_Forall (P : N -> Prop) (s : jsstring) :
  (forall c, (0xD800 <= c <= 0xDFFF)%N -> P c) ->
  Forall P (JS.codePoints s) -> Forall P s.
Proof.
  intros Hsur.
  induction s as [| |c d rest E IH|c d rest E IH] using codePoints_induction.
  - constructor.
  - simpl. auto.
  - rewrite (codePoints_pair c d rest E). intros H.
    apply surrogate_range in E as [Hc Hd].
    inversion H; subst.
    constructor; [apply Hsur; lia|]. constructor; [apply Hsur; lia|]. auto.
  - rewrite (codePoints_single c d rest E). intros H.
    inversion H; subst. constructor; auto.
Qed.

(** A string splits where its code points split at a character below the
    surrogate range. *)
Lemma codePoints_split (x : N) (b : list N) (s : jsstring) :
  (x < 0xD800)%N ->
  forall a,
    JS.codePoints s = a ++ x :: b ->
    exists sa sb,
      s = sa ++ x :: sb /\ JS.codePoints sa = a /\ JS.codePoints sb = b.
Proof.
  intros Hx.
  induction s as [| |c d rest E IH|c d rest E IH] using codePoints_induction;
    intros a H.
  - destruct a; discriminate H.
  - destruct a as [|a0 a]; simpl in H.
    + injection H as -> <-. exists [], []. auto.
    + injection H as _ H. destruct a; discriminate H.
  - rewrite (codePoints_pair c d rest E) in H.
    destruct a as [|a0 a]; simpl in H.
    + injection H as H _. apply surrogate_range in E. lia.
    + injection H as <- H.
      destruct (IH a H) as (sa & sb & -> & Ha & Hb).
      exists (c :: d :: sa), sb. split; [reflexivity|].
      split; [|exact Hb].
      rewrite (codePoints_pair c d sa E), Ha. reflexivity.
  - rewrite (codePoints_single c d rest E) in H.
    destruct a as [|a0 a]; simpl in H.
    + injection H as -> H. exists [], (d :: rest). auto.
    + injection H as <- H.
      destruct (IH a H) as (sa & sb & Hs & Ha & Hb).
      exists (c :: sa), sb. split; [simpl; rewrite Hs; reflexivity|].
      split; [|exact Hb].
      destruct sa as [|d' sa]; [simpl in *; subst; reflexivity|].
      simpl in Hs. injection Hs as <- _.
      rewrite (codePoints_single c d sa E), Ha. reflexivity.
Qed.

Lemma class_on_surrogates (c : N) :
  (0xD800 <= c <= 0xDFFF)%N -> notSpaceNorAt c = true.
Proof.
  intros Hc. apply notSpaceNorAt_spec. split; [|lia].
  destruct (JS.is_white_space c) eqn:E; [|reflexivity].
  apply white_space_below_surrogates in E. lia.
Qed.

Lemma codePoints_nil (s : jsstring) : JS.codePoints s = [] -> s = [].
Proof.
  destruct s as [|c [|d rest]]; [reflexivity|discriminate|].
  simpl. destruct (JS.is_lead c && JS.is_trail d); discriminate.
Qed.

(** An address the current pattern accepts, the earlier one accepts. *)
Lemma earlier_accepts (v : jsstring) :
  validateEmail v = true -> Earlier.validateEmail v = true.
Proof.
  intros H. apply validateEmail_spec in H
    as (l & d & t & E & Hl1 & Hl2 & Hd1 & Hd2 & Ht1 & Ht2).
  destruct (codePoints_split 0x40 _ v ltac:(lia) l E)
    as (sl & s2 & -> & Hsl & Hs2).
  destruct (codePoints_split 0x2E _ s2 ltac:(lia) d Hs2)
    as (sd & st & -> & Hsd & Hst).
  subst l d t.
  assert (Hcls : forall u, Forall (fun c => notSpaceNorAt c = true)
                                  (JS.codePoints u) ->
                           Forall (fun c => notSpaceNorAt c = true) u).
  { intros u. apply codePoints_Forall. exact class_on_surrogates. }
  assert (Hne : forall u, JS.codePoints u <> [] -> u <> []).
  { intros u Hu ->. apply Hu. reflexivity. }
  unfold Earlier.validateEmail. apply matchAll_spec.
  unfold Earlier.emailRegex.
  apply cat_spec. exists sl, ([64%N] ++ sd ++ [46%N] ++ st).
  split; [reflexivity|]. split; [apply plus_class_spec; auto|].
  apply cat_spec. exists [64%N], (sd ++ [46%N] ++ st).
  split; [reflexivity|]. split; [apply char_spec; reflexivity|].
  apply cat_spec. exists sd, ([46%N] ++ st).
  split; [reflexivity|]. split; [apply plus_class_spec; auto|].
  apply cat_spec. exists [46%N], st.
  split; [reflexivity|]. split; [apply char_spec; reflexivity|].
  apply plus_class_spec. split; [|auto].
  apply Hne. intros Hnil. rewrite Hnil in Ht1. simpl in Ht1. lia.
Qed.

Ltac lookup_earlier_errors :=
  unfold Earlier.errors;
  repeat match goal with
         | |- context [if ?b then _ else _] => destruct b
         end;
  repeat (rewrite lookup_insert_eq || (rewrite lookup_insert_ne by congruence)
          || rewrite lookup_empty);
  reflexivity.

Lemma earlier_errors_name (s : signals) :
  Earlier.errors s !! "name" = errors s !! "name".
Proof. rewrite errors_name. lookup_earlier_errors. Qed.

Lemma earlier_errors_organization (s : signals) :
  Earlier.errors s !! "organization" = errors s !! "organization".
Proof. rewrite errors_organization. lookup_earlier_errors. Qed.

Lemma earlier_errors_email (s : signals) :
  Earlier.errors s !! "email" =
  if negb (JS.truthy (JS.trim (email s))) then Some (JS.lit "Email is required")
  else if negb (Earlier.validateEmail (JS.trim (email s)))
       then Some (JS.lit "Please enter a valid email address")
       else None.
Proof. lookup_earlier_errors. Qed.

Lemma earlier_errors_message (s : signals) :
  Earlier.errors s !! "message" =
  if JS.truthy (JS.trim (message s)) && (JS.length (JS.trim (message s)) <? 10)
  then Some (JS.lit "Message must be at least 10 characters")
  else None.
Proof. lookup_earlier_errors. Qed.

Lemma earlier_errors_other (s : signals) (k : string) :
  k <> "name" -> k <> "email" -> k <> "organization" -> k <> "message" ->
  Earlier.errors s !! k = None.
Proof. intros H1 H2 H3 H4. lookup_earlier_errors. Qed.

(** X14: the current validation is at least as strict as the earlier
    revision's: every error text the earlier memo holds, the current memo
    holds under the same key, so every draft the current rules accept the
    earlier rules accepted; the errors for the name and the organization
    are the same in both. *)
Theorem validation_only_got_stricter (s : signals) :
  Earlier.errors s ⊆ errors s
  /\ (isValid s = true -> Earlier.isValid s = true)
  /\ Earlier.errors s !! "name" = errors s !! "name"
  /\ Earlier.errors s !! "organization" = errors s !! "organization".
Proof.
  assert (Hsub : Earlier.errors s ⊆ errors s).
  { apply map_subseteq_spec. intros k t.
    destruct (decide (k = "name")) as [->|N1];
      [rewrite earlier_errors_name; auto|].
    destruct (decide (k = "organization")) as [->|N3];
      [rewrite earlier_errors_organization; auto|].
    destruct (decide (k = "email")) as [->|N2].
    { rewrite earlier_errors_email, errors_email.
      destruct (JS.truthy (JS.trim (email s))); simpl; [|auto].
      destruct (validateEmail (JS.trim (email s))) eqn:E; simpl; [|
        destruct (Earlier.validateEmail (JS.trim (email s))); simpl;
        [discriminate|auto]].
      rewrite (earlier_accepts _ E). discriminate. }
    destruct (decide (k = "message")) as [->|N4].
    { rewrite earlier_errors_message, errors_message.
      destruct (JS.truthy (JS.trim (message s))); simpl; [|discriminate].
      destruct (JS.length (JS.trim (message s)) <? 10); [auto|discriminate]. }
    rewrite (earlier_errors_other s k N1 N2 N3 N4). discriminate. }
  split; [exact Hsub|]. split.
  - unfold isValid, Earlier.isValid. rewrite !Z.eqb_eq, !keyCount_zero.
    intros E. rewrite E in Hsub. apply map_eq. intros k.
    rewrite lookup_empty.
    destruct (Earlier.errors s !! k) as [t|] eqn:Hk; [|reflexivity].
    rewrite map_subseteq_spec in Hsub. apply Hsub in Hk.
    rewrite lookup_empty in Hk. discriminate Hk.
  - split; [apply earlier_errors_name|apply earlier_errors_organization].
Qed.

(** ** While submitting *)

(** C5, as written: there is a way out of [submitting] that is not the
    completion of a request.  With no endpoint configured, a submit of a
    valid draft sets the status to [submitting] (lines 107 to 109) and,
    going on, to [error] (lines 114 to 117); the handler ends there, no
    request was made and none is awaited. *)
Lemma submitting_is_left_without_a_request :
  exists s1 s2,
    handleSubmit_enter 1700000000000 johnDoe = (Normal true, s1)
    /\ status s1 = submitting
    /\ handleSubmit_send None s1 = (Normal None, s2)
    /\ status s2 = error
    /\ handleSubmit None 1700000000000 johnDoe = (Normal None, s2)
    /\ step None typed (Submit 1700000000000)
       = Some {| ui := s2; calls := []; awaiting := false |}.
Proof.
  assert (Hv : isValid johnDoe = true) by (vm_compute; reflexivity).
  assert (Hc : RATE_LIMIT_COOLDOWN_MS <= 1700000000000 - lastSubmitTime johnDoe)
    by (vm_compute; discriminate).
  eexists. eexists.
  split; [exact (enter_admitted 1700000000000 johnDoe Hv Hc)|].
  split; [reflexivity|].
  split; [apply send_unconfigured; left; reflexivity|].
  split; [reflexivity|].
  split.
  - rewrite handleSubmit_parts, (enter_admitted _ _ Hv Hc).
    apply send_unconfigured. left. reflexivity.
  - unfold step. simpl.
    rewrite handleSubmit_parts, (enter_admitted _ _ Hv Hc).
    reflexivity.
Qed.

(** C5, as amended: while the status is [submitting] the four text inputs,
    the select and the submit button are disabled, so typing, choosing and
    submitting are not possible, and neither is "send another"; between
    two runs of a handler, a step that leaves [submitting] is the settling
    of the pending fetch and ends in [success] or in [error]; however the
    fetch settles (a response that is ok, a response that is not, a failure
    of the fetch), that step is possible and ends so; and the component is
    in [submitting] between two runs only with an endpoint configured.
    Within one run of the submit handler there is one more way out: once
    lines 107 to 109 have set [submitting], the rest of the run makes the
    request and leaves the status as it is when an endpoint is configured,
    and sets [error] with the configuration text, without a request and
    leaving the draft as it is, when none is. *)
Theorem leaving_submitting (ep : option jsstring) (w : World) :
  status (ui w) = submitting ->
  (exists form,
      render (ui w) = FormPanel form
      /\ (forall f, disabled (textInput form f) = true)
      /\ disabled (roleSelect form) = true
      /\ submitDisabled form = true)
  /\ (forall f v, step ep w (Input f v) = None)
  /\ (forall v, step ep w (ChangeRole v) = None)
  /\ (forall now, step ep w (Submit now) = None)
  /\ step ep w SendAnother = None
  /\ (forall ev w',
         step ep w ev = Some w' ->
         status (ui w') <> submitting ->
         exists fetched,
           ev = Settle fetched
           /\ (status (ui w') = success \/ status (ui w') = error))
  /\ (reachable ep w ->
      (forall fetched,
          exists w',
            step ep w (Settle fetched) = Some w'
            /\ (status (ui w') = success \/ status (ui w') = error))
      /\ awaiting w = true
      /\ exists endpoint, ep = Some endpoint /\ endpoint <> [])
  /\ (forall now s s1,
         handleSubmit_enter now s = (Normal true, s1) ->
         status s1 = submitting
         /\ (ep = None \/ ep = Some [] ->
             exists s2,
               handleSubmit_send ep s1 = (Normal None, s2)
               /\ handleSubmit ep now s = (Normal None, s2)
               /\ status s2 = error
               /\ errorMessage s2
                  = JS.Str (JS.lit "Form configuration error. Please contact support.")
               /\ draft s2 = draft s1)
         /\ (forall endpoint,
                ep = Some endpoint -> endpoint <> [] ->
                exists request,
                  handleSubmit_send ep s1 = (Normal (Some request), s1)
                  /\ handleSubmit ep now s = (Normal (Some request), s1))).
Proof.
  intros Hs.
  assert (Hns : status (ui w) <> success) by (rewrite Hs; discriminate).
  destruct (render_form (ui w) Hns) as (form & Hrender & Hd & _ & Hr & Hb & _).
  rewrite bool_decide_eq_true_2 in Hr, Hb by exact Hs.
  assert (Hd' : forall f, disabled (textInput form f) = true).
  { intros f. rewrite Hd. apply bool_decide_eq_true_2, Hs. }
  split; [exists form; auto|].
  split; [intros f v; unfold step; rewrite Hrender, Hd'; reflexivity|].
  split; [intros v; unfold step; rewrite Hrender, Hr; reflexivity|].
  split; [intros now; unfold step; rewrite Hrender, Hb; reflexivity|].
  split; [unfold step; rewrite Hrender; reflexivity|].
  split; [|split].
  - intros ev w' Hstep Hleft. apply step_inv in Hstep. destruct ev.
    + destruct Hstep as (_ & Hn & _). contradiction.
    + destruct Hstep as (_ & Hn & _). contradiction.
    + destruct Hstep as (_ & ->). simpl in Hleft. contradiction.
    + destruct Hstep as (_ & Hn & _). contradiction.
    + destruct Hstep as (Hsuccess & _). congruence.
    + destruct Hstep as (_ & ->). exists s. split; [reflexivity|].
      simpl. apply resume_leaves.
  - intros Hreach.
    destruct (in_flight_request ep w Hreach Hs) as (_ & endpoint & He & Hne & _).
    apply reachable_consistent in Hreach.
    split; [|split; [apply Hreach, Hs|exists endpoint; auto]].
    intros fetched.
    rewrite (settle_enabled ep w fetched) by (apply Hreach, Hs).
    eexists. split; [reflexivity|]. simpl. apply resume_leaves.
  - intros now s s1 He.
    assert (Hadm : isValid s = true
                   /\ RATE_LIMIT_COOLDOWN_MS <= now - lastSubmitTime s).
    { destruct (isValid s) eqn:Hv;
        [|rewrite (enter_invalid now s Hv) in He; discriminate He].
      split; [reflexivity|].
      destruct (Z.ltb_spec (now - lastSubmitTime s) RATE_LIMIT_COOLDOWN_MS)
        as [Hc|Hc]; [|exact Hc].
      rewrite (enter_cooldown now s Hv Hc) in He. discriminate He. }
    destruct Hadm as [Hv Hc].
    pose proof He as He'.
    rewrite (enter_admitted now s Hv Hc) in He. injection He as <-.
    split; [reflexivity|]. split.
    + intros Hep. eexists.
      split; [apply (send_unconfigured ep _ Hep)|].
      split; [rewrite handleSubmit_parts, He';
              apply (send_unconfigured ep _ Hep)|].
      split; [reflexivity|]. split; reflexivity.
    + intros endpoint -> Hne. eexists.
      split; [apply (send_fetch endpoint _ Hne)|].
      rewrite handleSubmit_parts, He'. apply (send_fetch endpoint _ Hne).
Qed.

Lemma leaving_submitting_witness :
  status (ui inFlight) = submitting
  /\ step testEndpoint inFlight (Submit 1700000009000) = None
  /\ exists w',
      step testEndpoint inFlight (Settle Rejected) = Some w'
      /\ (status (ui w') = success \/ status (ui w') = error).
Proof.
  assert (H : status (ui inFlight) = submitting) by reflexivity.
  pose proof (leaving_submitting testEndpoint inFlight H)
    as (_ & _ & _ & Hsubmit & _ & _ & Hsettle & _).
  split; [exact H|]. split; [exact (Hsubmit 1700000009000)|].
  exact (proj1 (Hsettle inFlight_reachable) Rejected).
Defined.
